(** * SmartSocket: the HTTP server of the relay controller

    A shallow embedding of [main/components/wifi_ota/http_server.c]
    (the relay endpoints, the firmware upload handler, the static file
    handler and the start and stop of the server), of the relay objects
    of [relay_control_ui.c] with their button and timer callbacks, of the
    master button of [master_button_ui.c], of the relay hardware of
    [relay_hardware.c] with the relay set-up written for it, and of the
    event handler of [wifi_ota.c],
    followed by the properties of the design document that were checked
    against them (Part II) and by further properties read off the code
    (Part III).

    Conventions.  A byte is an integer in [0, 256).  A [size_t] or [int] is
    an integer with the 32-bit wrap-around of the ESP32 written out.  A C
    buffer is the list of the bytes of its allocation; a C string inside it
    runs up to the first NUL.  Calls into ESP-IDF (sockets, OTA storage,
    partitions) are answered by an explicit [platform] record and by the
    list of results the socket delivers. *)

From Stdlib Require Import String Ascii ZArith List Bool Lia.
Import ListNotations.
Open Scope Z_scope.

(* ================================================================== *)
(** * Part I.  Definitions                                             *)
(* ================================================================== *)

(** ** Bytes and C strings *)

Abbreviation byte := Z (only parsing).

Definition NUL : byte := 0.
Definition TAB : byte := 9.
Definition LF : byte := 10.
Definition CR : byte := 13.
Definition SPACE : byte := 32.
Definition DQUOTE : byte := 34.
Definition SQUOTE : byte := 39.
Definition PLUS : byte := 43.
Definition DASH : byte := 45.
Definition SLASH : byte := 47.
Definition SEMI : byte := 59.

Definition bytes_of_string (s : string) : list byte :=
  map (fun c => Z.of_N (N_of_ascii c)) (list_ascii_of_string s).

Definition CRLF : list byte := [CR; LF].
Definition CRLFCRLF : list byte := [CR; LF; CR; LF].
Definition DASHDASH : list byte := [DASH; DASH].

Definition len (l : list byte) : Z := Z.of_nat (length l).

(** 32-bit wrap-around of [size_t] arithmetic. *)
Definition wrap32 (z : Z) : Z := z mod 2 ^ 32.

(** The C string that starts at the beginning of memory [m]: the bytes
    before the first NUL.  A scan that finds no NUL stops at the end of
    the allocation (C leaves a longer scan undefined). *)
Fixpoint c_str (m : list byte) : list byte :=
  match m with
  | [] => []
  | b :: m' => if b =? NUL then [] else b :: c_str m'
  end.

Definition c_strlen (m : list byte) : Z := len (c_str m).

(** [starts_with p m]: the first [length p] bytes of [m] are [p]
    (what [memcmp(m, p, strlen(p)) == 0] tests). *)
Fixpoint starts_with (p m : list byte) : bool :=
  match p, m with
  | [], _ => true
  | _ :: _, [] => false
  | a :: p', b :: m' => (a =? b) && starts_with p' m'
  end.

(** Offset of the first occurrence of [pat] in [l]. *)
Fixpoint find_sub (pat l : list byte) : option nat :=
  if starts_with pat l then Some 0%nat
  else match l with
       | [] => None
       | _ :: l' => option_map S (find_sub pat l')
       end.

(** [strstr(m, pat)]: offset of the match from [m], or [None] for NULL. *)
Definition c_strstr (m pat : list byte) : option nat := find_sub pat (c_str m).

(** [strchr(m, c)] for a non-NUL [c]. *)
Definition c_strchr (m : list byte) (c : byte) : option nat := find_sub [c] (c_str m).

(** Offset of the last occurrence of byte [c] in [l]. *)
Fixpoint find_last (c : byte) (l : list byte) : option nat :=
  match l with
  | [] => None
  | b :: l' =>
      match find_last c l' with
      | Some k => Some (S k)
      | None => if b =? c then Some 0%nat else None
      end
  end.

(** [strrchr(m, c)] for a non-NUL [c]. *)
Definition c_strrchr (m : list byte) (c : byte) : option nat := find_last c (c_str m).

(** [strncpy(dst, src, n); dst[n] = 0] into a zero-filled [dst], read back
    as a C string: at most [n] bytes of the C string at [src]. *)
Definition c_strncpy (src : list byte) (n : nat) : list byte := firstn n (c_str src).

Definition is_space (b : byte) : bool :=
  (b =? SPACE) || ((TAB <=? b) && (b <=? CR)).

Definition is_digit (b : byte) : bool := (48 <=? b) && (b <=? 57).

Fixpoint skip_spaces (l : list byte) : list byte :=
  match l with
  | b :: l' => if is_space b then skip_spaces l' else l
  | [] => []
  end.

Fixpoint digits_value (acc : Z) (l : list byte) : Z :=
  match l with
  | b :: l' => if is_digit b then digits_value (acc * 10 + (b - 48)) l' else acc
  | [] => acc
  end.

Definition INT_MAX : Z := 2 ^ 31 - 1.
Definition INT_MIN : Z := - 2 ^ 31.

Definition clamp_int (z : Z) : Z := Z.max INT_MIN (Z.min INT_MAX z).

(** [atoi]: newlib's [(int) strtol(s, NULL, 10)] with a 32-bit [long]:
    leading white space, an optional sign, decimal digits, and saturation
    at the ends of the [int] range. *)
Definition atoi (m : list byte) : Z :=
  match skip_spaces (c_str m) with
  | b :: l' =>
      if b =? DASH then clamp_int (- digits_value 0 l')
      else if b =? PLUS then clamp_int (digits_value 0 l')
      else clamp_int (digits_value 0 (b :: l'))
  | [] => 0
  end.

(** ** ESP-IDF vocabulary *)

Inductive esp_err :=
| ESP_OK
| ESP_FAIL
| ESP_ERR_NO_MEM
| ESP_ERR_INVALID_ARG
| ESP_ERR_INVALID_SIZE
| ESP_ERR_NOT_FOUND
| ESP_ERR_OTA_VALIDATE_FAILED
| ESP_ERR_FLASH_OP_FAIL.

Definition esp_err_eqb (a b : esp_err) : bool :=
  match a, b with
  | ESP_OK, ESP_OK | ESP_FAIL, ESP_FAIL | ESP_ERR_NO_MEM, ESP_ERR_NO_MEM
  | ESP_ERR_INVALID_ARG, ESP_ERR_INVALID_ARG
  | ESP_ERR_INVALID_SIZE, ESP_ERR_INVALID_SIZE
  | ESP_ERR_NOT_FOUND, ESP_ERR_NOT_FOUND
  | ESP_ERR_OTA_VALIDATE_FAILED, ESP_ERR_OTA_VALIDATE_FAILED
  | ESP_ERR_FLASH_OP_FAIL, ESP_ERR_FLASH_OP_FAIL => true
  | _, _ => false
  end.

Inductive http_status :=
| HTTP_200
| HTTP_400
| HTTP_500
| HTTP_503.

(** What one [httpd_req_recv] call returns: a positive count with the
    bytes it stored, 0 when the peer closed ([RecvData []]),
    [HTTPD_SOCK_ERR_TIMEOUT], or another negative socket error. *)
Inductive recv_result :=
| RecvData (chunk : list byte)
| RecvTimeout
| RecvFail.

(** ** Relay objects ([relay_control_ui.c], [relay_hardware.c]) *)

(** [GPIO_NUM_NC] of ESP-IDF, the pin number of no pin; its value is the
    one the comment in [control_relay_gpio] gives. *)
Definition GPIO_NUM_NC : Z := -1.

Record relay_hardware_t := {
  gpio_pin : Z;
  led_pin : Z;
  (* the last [gpio_set_level] on the relay pin passed its ON level (0:
     the relay is active LOW) *)
  gpio_level_on : bool;
  (* the last [gpio_set_level] on the LED pin passed 1 *)
  led_on : bool;
  hw_state : bool                     (* [hw->state] *)
}.

Record relay_control_ui_t := {
  button : bool;                      (* [ui->button != NULL] *)
  state : bool;
  timer_running : bool;               (* [ui->timer != NULL] *)
  time_remaining : Z;
  hardware : option relay_hardware_t  (* [None] is a NULL [ui->hardware] *)
}.

Definition RELAY_TIMER_DURATION_SECONDS : Z := 10.

(** [control_relay_gpio] (relay_hardware.c, lines 43-71): without a relay
    pin nothing is driven, the LED neither. *)
Definition control_relay_gpio (hw : relay_hardware_t) (st : bool)
  : esp_err * relay_hardware_t :=
  if (gpio_pin hw <? 0) || (gpio_pin hw =? GPIO_NUM_NC) then (ESP_OK, hw)
  else
    let hw1 := {| gpio_pin := gpio_pin hw; led_pin := led_pin hw; gpio_level_on := st;
                  led_on := led_on hw; hw_state := hw_state hw |} in
    if (0 <=? led_pin hw1) && negb (led_pin hw1 =? GPIO_NUM_NC) then
      (ESP_OK, {| gpio_pin := gpio_pin hw1; led_pin := led_pin hw1;
                  gpio_level_on := gpio_level_on hw1; led_on := st;
                  hw_state := hw_state hw1 |})
    else (ESP_OK, hw1).

(** [relay_hardware_set_state] (lines 331-344): [hw->state] is set when
    [control_relay_gpio] returns [ESP_OK].  The callers drop the result,
    and so does the model. *)
Definition relay_hardware_set_state (hw : relay_hardware_t) (st : bool) : relay_hardware_t :=
  let (ret, hw1) := control_relay_gpio hw st in
  if esp_err_eqb ret ESP_OK then
    {| gpio_pin := gpio_pin hw1; led_pin := led_pin hw1;
       gpio_level_on := gpio_level_on hw1; led_on := led_on hw1; hw_state := st |}
  else hw1.

Definition control_relay_hardware (ui : relay_control_ui_t) (st : bool) : relay_control_ui_t :=
  match hardware ui with
  | None => ui
  | Some hw =>
      {| button := button ui; state := state ui; timer_running := timer_running ui;
         time_remaining := time_remaining ui;
         hardware := Some (relay_hardware_set_state hw st) |}
  end.

(** [esp_timer_create]/[esp_timer_start_periodic] may fail; [timer_ok] is
    their joint result. *)
Definition start_timer (timer_ok : bool) (ui : relay_control_ui_t) : relay_control_ui_t :=
  {| button := button ui; state := state ui; timer_running := timer_ok;
     time_remaining := RELAY_TIMER_DURATION_SECONDS; hardware := hardware ui |}.

Definition stop_timer (ui : relay_control_ui_t) : relay_control_ui_t :=
  {| button := button ui; state := state ui; timer_running := false;
     time_remaining := 0; hardware := hardware ui |}.

Definition relay_control_ui_get_state (ui : option relay_control_ui_t) : bool :=
  match ui with
  | None => false
  | Some u => state u
  end.

Definition relay_control_ui_set_state (timer_ok : bool) (ui : relay_control_ui_t) (st : bool)
  : relay_control_ui_t :=
  if negb (button ui) then ui
  else
    let old_state := state ui in
    let ui1 := {| button := button ui; state := st; timer_running := timer_running ui;
                  time_remaining := time_remaining ui; hardware := hardware ui |} in
    let ui2 := control_relay_hardware ui1 st in
    if st && negb old_state then start_timer timer_ok ui2
    else if negb st && old_state then stop_timer ui2
    else ui2.

(** ** Relay set-up of [example_lvgl_demo_ui]

    The listing that goes with this [relay_hardware.c] (it calls
    [relay_hardware_create] with relay pin, LED pin, ADC unit and channel)
    stands behind the separator in [wifi_ota.h]; [main/lvgl_demo_ui.c] is
    an earlier one with five relays and the two-argument
    [relay_hardware_create]. *)




(** ** Relay endpoints ([relay_get_handler], [relay_post_handler];
    http_server.c, lines 180-279) *)

Inductive relay_reply :=
| ReplyInvalidURI            (* success:false, error: Invalid URI *)
| ReplyInvalidRelayId        (* success:false, error: Invalid relay ID *)
| ReplyNotInitialized        (* success:false, error: Relay not initialized *)
| ReplyNoData                (* success:false, error: No data received *)
| ReplyState (id : Z) (st : bool).  (* success:true, id, state *)

Inductive relay_effect :=
| Lookup (id : Z)                       (* [example_lvgl_get_relay_ui(id)] *)
| SetState (id : Z) (st : bool)         (* [relay_control_ui_set_state] *)
| Reply (status : http_status) (body : relay_reply).

(** The relay table behind [example_lvgl_get_relay_ui]; that function is
    declared [extern] in [http_server.c] and is taken as given. *)
Definition relay_table := Z -> option relay_control_ui_t.

Definition update_relay (t : relay_table) (id : Z) (ui : relay_control_ui_t) : relay_table :=
  fun i => if i =? id then Some ui else t i.

Record relay_outcome := {
  r_effects : list relay_effect;
  r_ret : esp_err;
  r_table : relay_table
}.

(** [atoi(id_start)] of the GET handler; [None] when the URI has no slash. *)
Definition get_relay_id (uri : list byte) : option Z :=
  match c_strrchr uri SLASH with
  | None => None
  | Some k => Some (atoi (skipn (S k) uri))
  end.

(** [atoi(relay_id_str)] of the POST handler, [relay_id_str] being an
    8-byte zero-filled array that receives at most 7 bytes of the id. *)
Definition post_relay_id (uri : list byte) : Z :=
  atoi (match c_strrchr uri SLASH with
        | Some k => c_strncpy (skipn (S k) uri) 7
        | None => []
        end).

(** The URIs [http_server_start] registers both handlers for. *)
Definition relay_uris : list (list byte) :=
  map bytes_of_string
      ["/api/relay/1"; "/api/relay/2"; "/api/relay/3";
       "/api/relay/4"; "/api/relay/5"; "/api/relay/6"]%string.

Definition relay_get_handler (t : relay_table) (uri : list byte) : relay_outcome :=
  match get_relay_id uri with
  | None =>
      {| r_effects := [Reply HTTP_400 ReplyInvalidURI]; r_ret := ESP_FAIL; r_table := t |}
  | Some relay_id =>
      if (relay_id <? 1) || (relay_id >? 6) then
        {| r_effects := [Reply HTTP_400 ReplyInvalidRelayId]; r_ret := ESP_FAIL; r_table := t |}
      else
        match t relay_id with
        | None =>
            {| r_effects := [Lookup relay_id; Reply HTTP_503 ReplyNotInitialized];
               r_ret := ESP_OK; r_table := t |}
        | Some ui =>
            let st := relay_control_ui_get_state (Some ui) in
            {| r_effects := [Lookup relay_id; Reply HTTP_200 (ReplyState relay_id st)];
               r_ret := ESP_OK; r_table := t |}
        end
  end.

Definition state_true_dq : list byte :=
  [DQUOTE] ++ bytes_of_string "state" ++ [DQUOTE] ++ bytes_of_string ":true".
Definition state_true_sq : list byte :=
  [SQUOTE] ++ bytes_of_string "state" ++ [SQUOTE] ++ bytes_of_string ":true".
Definition state_false_dq : list byte :=
  [DQUOTE] ++ bytes_of_string "state" ++ [DQUOTE] ++ bytes_of_string ":false".
Definition state_false_sq : list byte :=
  [SQUOTE] ++ bytes_of_string "state" ++ [SQUOTE] ++ bytes_of_string ":false".

Definition is_found (o : option nat) : bool :=
  match o with Some _ => true | None => false end.

(** [content] is the 128-byte zero-filled array after
    [httpd_req_recv(req, content, 127)] stored [chunk] in it. *)
Definition content_after_recv (chunk : list byte) : list byte :=
  firstn 127 chunk ++ repeat NUL (128 - length (firstn 127 chunk)).

Definition relay_post_handler (timer_ok : bool) (t : relay_table) (uri : list byte)
    (body : recv_result) : relay_outcome :=
  let relay_id := post_relay_id uri in
  if (relay_id <? 1) || (relay_id >? 6) then
    {| r_effects := [Reply HTTP_400 ReplyInvalidRelayId]; r_ret := ESP_FAIL; r_table := t |}
  else
    match t relay_id with
    | None =>
        {| r_effects := [Lookup relay_id; Reply HTTP_503 ReplyNotInitialized];
           r_ret := ESP_OK; r_table := t |}
    | Some ui =>
        match body with
        | RecvTimeout | RecvFail | RecvData [] =>
            {| r_effects := [Lookup relay_id; Reply HTTP_400 ReplyNoData];
               r_ret := ESP_FAIL; r_table := t |}
        | RecvData chunk =>
            let content := content_after_recv chunk in
            let new_state :=
              if is_found (c_strstr content state_true_dq)
                 || is_found (c_strstr content state_true_sq) then true
              else if is_found (c_strstr content state_false_dq)
                      || is_found (c_strstr content state_false_sq) then false
              else negb (relay_control_ui_get_state (Some ui)) in
            let ui' := relay_control_ui_set_state timer_ok ui new_state in
            {| r_effects := [Lookup relay_id; SetState relay_id new_state;
                             Reply HTTP_200 (ReplyState relay_id new_state)];
               r_ret := ESP_OK; r_table := update_relay t relay_id ui' |}
        end
    end.

(** ** Firmware upload ([update_post_handler]) *)

Definition buf_size : Z := 4096.

(** First byte of an ESP32 application image. *)
Definition IMAGE_MAGIC : byte := 233.

(** The three log messages of the connection-closed branch of the
    multipart loop. *)
Inductive close_verdict :=
| CloseLikelyComplete   (* within the boundary overhead of content_length *)
| CloseNoLength         (* no content length: all data assumed received *)
| CloseMissingData.     (* may be missing significant data *)

(** What the handler does to the outside world, in order.  [OtaWrite]
    carries the size passed to [esp_ota_write], its result, and the value
    of [received] once the statement that follows the call has run. *)
Inductive effect :=
| OtaBegin (r : esp_err)
| OtaWrite (n : Z) (r : esp_err) (received_after : Z)
| OtaAbort
| OtaEnd (r : esp_err)
| Respond (status : http_status) (body : string)
| SetBootPartition (r : esp_err)
| Restart
| ConnectionClosed (v : close_verdict).

(** Answers of ESP-IDF to the calls of one upload. *)
Record platform := {
  (* first [esp_ota_get_next_update_partition(NULL)] is not NULL *)
  update_partition : bool;
  ota_begin : esp_err;
  (* [malloc(buf_size)]: NULL, or the bytes the fresh allocation holds *)
  malloc_buf : option (list byte);
  (* size of the update partition *)
  capacity : Z;
  (* result of a flash write that fits: written so far, new data *)
  flash_write : list byte -> list byte -> esp_err;
  (* byte 0 of the partition while nothing has been written to it *)
  unwritten_byte : byte;
  (* [esp_partition_read] returns [ESP_OK] *)
  partition_read_ok : bool;
  (* [esp_ota_end]: image verification of the written bytes *)
  ota_end : list byte -> esp_err;
  (* second [esp_ota_get_next_update_partition(NULL)] is not NULL *)
  next_update_partition_again : bool;
  (* the [esp_partition_find_first] fallback is not NULL *)
  find_first_partition : bool;
  set_boot_partition : esp_err
}.

Record request := {
  req_content_len : Z;                       (* [req->content_len] *)
  hdr_content_length : option (list byte);   (* Content-Length header *)
  hdr_content_type : option (list byte);     (* Content-Type header *)
  (* results of the successive [httpd_req_recv(req, buf, buf_size)] calls;
     each chunk has at most [buf_size] bytes; once the list is used up
     the peer has closed and every call returns 0 *)
  socket : list recv_result
}.

Record session := {
  buf : list byte;       (* the 4 KB receive buffer *)
  received : Z;          (* [size_t received] *)
  flash : list byte;     (* bytes accepted by [esp_ota_write] so far *)
  trace : list effect
}.

(** [ret = None]: the handler does not return ([esp_restart]). *)
Record outcome := {
  ret : option esp_err;
  final : session
}.

Definition emit (e : effect) (s : session) : session :=
  {| buf := buf s; received := received s; flash := flash s; trace := trace s ++ [e] |}.

(** [free(buf); esp_ota_abort(ota_handle); set status; send; return err]. *)
Definition abort_with (s : session) (st : http_status) (msg : string) (e : esp_err) : outcome :=
  {| ret := Some e; final := emit (Respond st msg) (emit OtaAbort s) |}.

(** [httpd_req_get_hdr_value_str] into a zero-filled array of [size]
    bytes: [ESP_OK] and the value, or not [ESP_OK] and either nothing
    (header absent) or a truncated copy (value too long). *)
Definition get_hdr (h : option (list byte)) (size : nat) : bool * list byte :=
  match h with
  | None => (false, [])
  | Some v =>
      if (length (c_str v) <? size)%nat then (true, c_str v)
      else (false, firstn (size - 1) (c_str v))
  end.

Definition effective_content_len (req : request) : Z :=
  let content_len := req_content_len req in
  match get_hdr (hdr_content_length req) 32 with
  | (true, v) =>
      let header_content_len := wrap32 (atoi v) in
      if (0 <? header_content_len) && (content_len =? 0) then header_content_len
      else content_len
  | (false, _) => content_len
  end.

(** [httpd_req_recv] stores the chunk at the start of the buffer; the
    bytes behind it keep their old value. *)
Definition store (b chunk : list byte) : list byte :=
  chunk ++ skipn (length chunk) b.

(** [size] bytes of memory from [src]; the model reads NUL past the end
    of the allocation (C leaves such a read undefined). *)
Definition mem_read (src : list byte) (size : nat) : list byte :=
  firstn size src ++ repeat NUL (size - length src).

(** Modelled from the spec: [esp_ota_write] belongs to ESP-IDF and is not
    among the sources.  As the flash sink of the design document has it
    (section 4.3), a write that would exceed the capacity of the region
    is rejected; a write that fits succeeds or fails as the platform
    says, and an accepted write appends its [size] bytes. *)
Definition esp_ota_write (pf : platform) (fl src : list byte) (size : Z)
  : esp_err * list byte :=
  if capacity pf <? len fl + size then (ESP_ERR_INVALID_SIZE, fl)
  else
    let data := mem_read src (Z.to_nat size) in
    let r := flash_write pf fl data in
    if esp_err_eqb r ESP_OK then (ESP_OK, fl ++ data) else (r, fl).

(** [if (n > 0) { err = esp_ota_write(handle, buf + off, n);
    if (err != ESP_OK) { abort, 500, return err; }  received += n; }]
    followed by [k]. *)
Definition write_then (pf : platform) (s : session) (off : nat) (n : Z)
    (k : session -> outcome + session) : outcome + session :=
  if 0 <? n then
    match esp_ota_write pf (flash s) (skipn off (buf s)) n with
    | (ESP_OK, fl) =>
        let r := wrap32 (received s + n) in
        k {| buf := buf s; received := r; flash := fl;
             trace := trace s ++ [OtaWrite n ESP_OK r] |}
    | (e, _) =>
        inl (abort_with (emit (OtaWrite n e (received s)) s)
                        HTTP_500 "OTA write failed" e)
    end
  else k s.

Fixpoint skip_blank (l : list byte) : list byte :=
  match l with
  | b :: l' => if (b =? SPACE) || (b =? TAB) then skip_blank l' else l
  | [] => []
  end.

Definition is_trailing_ws (b : byte) : bool :=
  (b =? SPACE) || (b =? TAB) || (b =? CR) || (b =? LF).

(** [while (end > start && is_trailing_ws(end[-1])) end--]. *)
Fixpoint trim_end (p : list byte) (e : nat) : nat :=
  match e with
  | O => O
  | S e' => if is_trailing_ws (nth e' p NUL) then trim_end p e' else e
  end.

(** Boundary taken from the [boundary=] parameter of Content-Type
    (http_server.c, lines 382-414). *)
Definition boundary_from_header (content_type : list byte) : list byte :=
  match c_strstr content_type (bytes_of_string "boundary=") with
  | None => []
  | Some k =>
      let p0 := skip_blank (skipn (k + 9) (c_str content_type)) in
      let p := match p0 with
               | b :: p' => if b =? DQUOTE then p' else p0
               | [] => []
               end in
      let e0 := match c_strchr p SEMI with
                | Some j => j
                | None => length (c_str p)
                end in
      let e1 := if (0 <? e0)%nat && (nth (e0 - 1) p NUL =? DQUOTE)
                then (e0 - 1)%nat else e0 in
      let e2 := trim_end p e1 in
      c_strncpy p (Nat.min e2 127)
  end.

(** Boundary taken from the data, [buf] starting with two dashes
    (lines 417-443). *)
Definition boundary_from_data (b : list byte) : list byte :=
  match c_strstr (skipn 2 b) CRLF with
  | Some k => c_strncpy (skipn 2 b) (Nat.min k 127)
  | None =>
      match c_strstr b CRLF with
      | Some h =>
          if (2 <? h)%nat then c_strncpy (skipn 2 b) (Nat.min (h - 2) 127) else []
      | None => []
      end
  end.

(** Offset of [binary_start] in the first chunk (lines 463-503). *)
Definition locate_binary_start (boundary b : list byte) (initial_recv : Z) : option nat :=
  if 0 <? len boundary then
    let boundary_marker := DASHDASH ++ boundary in
    if (len boundary_marker <=? initial_recv) && starts_with boundary_marker b then
      let after_boundary :=
        if (len boundary_marker + 2 <=? initial_recv)
           && starts_with CRLF (skipn (length boundary_marker) b)
        then (length boundary_marker + 2)%nat else length boundary_marker in
      option_map (fun k => (after_boundary + k + 4)%nat)
                 (c_strstr (skipn after_boundary b) CRLFCRLF)
    else option_map (fun k => (k + 4)%nat) (c_strstr b CRLFCRLF)
  else option_map (fun k => (k + 4)%nat) (c_strstr b CRLFCRLF).

(** The first chunk of a multipart body: find the start of the binary
    data and write everything behind it (lines 461-583). *)
Definition multipart_first_chunk (pf : platform) (boundary : list byte)
    (s : session) (initial_recv : Z) : outcome + session :=
  let invalid_format :=
    inl (abort_with s HTTP_400 "Invalid multipart data format" ESP_ERR_INVALID_ARG) in
  match locate_binary_start boundary (buf s) initial_recv with
  | None => invalid_format
  | Some off0 =>
      let data_size0 := wrap32 (initial_recv - Z.of_nat off0) in
      if 0 <? data_size0 then
        let moved :=
          if nth off0 (buf s) NUL =? DASH then
            match c_strstr (skipn (S off0) (buf s)) CRLFCRLF with
            | Some k =>
                let off := (off0 + 1 + k + 4)%nat in
                Some (off, wrap32 (initial_recv - Z.of_nat off))
            | None => None
            end
          else Some (off0, data_size0) in
        match moved with
        | None => invalid_format
        | Some (off, data_size) =>
            let boundary_check := DASHDASH ++ boundary in
            if (0 <? len boundary) && (len boundary_check <=? data_size)
               && starts_with boundary_check (skipn off (buf s))
            then inl (abort_with s HTTP_500 "Invalid multipart data" ESP_FAIL)
            else write_then pf s off data_size inr
        end
      else invalid_format
  end.

(** What the search for an end boundary in one chunk finds
    (lines 630-681). *)
Inductive scan_result :=
| FinalBoundary (data_to_write : Z)
| PartBoundary (data_to_write : Z)
| NoBoundary.

Definition scan_chunk (boundary b : list byte) (recv_len : Z) : scan_result :=
  if 0 <? len boundary then
    match c_strstr b (CRLF ++ DASHDASH ++ boundary ++ DASHDASH) with
    | Some k => FinalBoundary (Z.of_nat k)
    | None =>
        let final_boundary_start := DASHDASH ++ boundary ++ DASHDASH in
        if (len final_boundary_start <=? recv_len) && starts_with final_boundary_start b
        then FinalBoundary 0
        else
          match c_strstr b (CRLF ++ DASHDASH ++ boundary ++ CRLF) with
          | Some k => PartBoundary (Z.of_nat k)
          | None => NoBoundary
          end
    end
  else
    match c_strstr b (CRLF ++ DASHDASH) with
    | Some k =>
        if (Z.of_nat k + 2 <? recv_len)
           && (nth (k + 2) b NUL =? DASH) && (nth (k + 3) b NUL =? DASH)
        then FinalBoundary (Z.of_nat k) else PartBoundary (Z.of_nat k)
    | None =>
        if (2 <=? recv_len) && starts_with DASHDASH b
           && (4 <=? recv_len)
           && (nth (Z.to_nat (recv_len - 2)) b NUL =? DASH)
           && (nth (Z.to_nat (recv_len - 1)) b NUL =? DASH)
        then FinalBoundary 0 else NoBoundary
    end.

(** [write_len] when a boundary is found at offset [i]: a CRLF in front
    of it is dropped too. *)
Definition cut_before (b : list byte) (i : nat) : Z :=
  if (2 <=? i)%nat && (nth (i - 2) b NUL =? CR) && (nth (i - 1) b NUL =? LF)
  then Z.of_nat i - 2 else Z.of_nat i.

(** The loop [for (i = check_start; i < recv_len - 1; i++)] over the end
    of a chunk in which no boundary was found; [n] iterations are left.
    The result is [write_len] when [found_final_boundary] gets set. *)
Fixpoint tail_scan (boundary_start boundary_final b : list byte) (recv_len : Z)
    (i n : nat) : option Z :=
  match n with
  | O => None
  | S n' =>
      if (nth i b NUL =? DASH) && (nth (i + 1) b NUL =? DASH) then
        if (Z.of_nat i + len boundary_final <=? recv_len)
           && starts_with boundary_final (skipn i b)
        then Some (cut_before b i)
        else if (Z.of_nat i + len boundary_start <=? recv_len)
                && starts_with boundary_start (skipn i b)
        then Some (cut_before b i)
        else tail_scan boundary_start boundary_final b recv_len (S i) n'
      else tail_scan boundary_start boundary_final b recv_len (S i) n'
  end.

(** The check of the last 200 bytes of a chunk without end boundary
    (lines 720-771). *)
Definition check_chunk_end (boundary b : list byte) (recv_len : Z) : option Z :=
  if (0 <? len boundary) && (4 <? recv_len) then
    let check_start := Z.max 0 (recv_len - 200) in
    tail_scan (DASHDASH ++ boundary) (DASHDASH ++ boundary ++ DASHDASH) b recv_len
              (Z.to_nat check_start) (Z.to_nat (recv_len - 1 - check_start))
  else None.

(** Which of the three messages the connection-closed branch logs
    (lines 602-627); all three end in [break]. *)
Definition classify_close (boundary : list byte) (content_length rcvd : Z)
  : close_verdict :=
  let boundary_overhead := if 0 <? len boundary then len boundary + 6 else 200 in
  if (0 <? content_length)
     && (wrap32 (content_length - boundary_overhead - 100) <=? rcvd)
  then CloseLikelyComplete
  else if content_length =? 0 then CloseNoLength
  else CloseMissingData.

(** The receive loop of a multipart body, after the first chunk
    (lines 585-793).  [inr] is a [break] towards finalisation, [inl] an
    early [return]. *)
Fixpoint multipart_loop (pf : platform) (boundary : list byte) (content_length : Z)
    (s : session) (sock : list recv_result) : outcome + session :=
  if (content_length =? 0) || (received s <? content_length) then
    match sock with
    | RecvTimeout :: sock' => multipart_loop pf boundary content_length s sock'
    | RecvFail :: _ => inl (abort_with s HTTP_500 "Receive failed" ESP_FAIL)
    | [] | RecvData [] :: _ =>
        inr (emit (ConnectionClosed (classify_close boundary content_length (received s))) s)
    | RecvData chunk :: sock' =>
        let recv_len := len chunk in
        let s1 := {| buf := store (buf s) chunk; received := received s;
                     flash := flash s; trace := trace s |} in
        match scan_chunk boundary (buf s1) recv_len with
        | FinalBoundary data_to_write => write_then pf s1 0 data_to_write inr
        | PartBoundary data_to_write =>
            write_then pf s1 0 data_to_write
              (fun s2 => multipart_loop pf boundary content_length s2 sock')
        | NoBoundary =>
            match check_chunk_end boundary (buf s1) recv_len with
            | Some write_len => write_then pf s1 0 write_len inr
            | None =>
                write_then pf s1 0 recv_len
                  (fun s2 => multipart_loop pf boundary content_length s2 sock')
            end
        end
    end
  else inr s.

(** The receive loop of a raw body (lines 794-829). *)
Fixpoint raw_loop (pf : platform) (content_length : Z)
    (s : session) (sock : list recv_result) : outcome + session :=
  if (content_length =? 0) || (received s <? content_length) then
    match sock with
    | RecvTimeout :: sock' => raw_loop pf content_length s sock'
    | RecvFail :: _ => inl (abort_with s HTTP_500 "Receive failed" ESP_FAIL)
    | [] | RecvData [] :: _ => inr s
    | RecvData chunk :: sock' =>
        let s1 := {| buf := store (buf s) chunk; received := received s;
                     flash := flash s; trace := trace s |} in
        match esp_ota_write pf (flash s1) (buf s1) (len chunk) with
        | (ESP_OK, fl) =>
            let r := wrap32 (received s1 + len chunk) in
            raw_loop pf content_length
              {| buf := buf s1; received := r; flash := fl;
                 trace := trace s1 ++ [OtaWrite (len chunk) ESP_OK r] |} sock'
        | (e, _) =>
            inl (abort_with (emit (OtaWrite (len chunk) e (received s1)) s1)
                            HTTP_500 "OTA write failed" e)
        end
    end
  else inr s.

(** [magic_byte] after [esp_partition_read(update_partition, 0, &magic_byte, 1)]:
    byte 0 of the partition, or the initial 0 when the read fails. *)
Definition read_magic_byte (pf : platform) (s : session) : byte :=
  if partition_read_ok pf then nth 0 (flash s) (unwritten_byte pf) else 0.

(** [read_err == ESP_OK && magic_byte == 0xE9]. *)
Definition magic_ok (pf : platform) (s : session) : bool :=
  partition_read_ok pf && (read_magic_byte pf s =? IMAGE_MAGIC).

(** Everything behind the receive loops (lines 831-924): magic byte,
    [esp_ota_end], the 200 response, the boot partition and the restart. *)
Definition finalize (pf : platform) (s : session) : outcome :=
  if magic_ok pf s then
    let err := ota_end pf (flash s) in
    let s1 := emit (OtaEnd err) s in
    match err with
    | ESP_OK =>
        let s2 := emit (Respond HTTP_200
                          "Firmware update successful! Device will reboot...") s1 in
        if next_update_partition_again pf || find_first_partition pf then
          let e := set_boot_partition pf in
          let s3 := emit (SetBootPartition e) s2 in
          match e with
          | ESP_OK => {| ret := None; final := emit Restart s3 |}
          | _ => {| ret := Some e; final := s3 |}
          end
        else
          {| ret := Some ESP_ERR_NOT_FOUND;
             final := emit (Respond HTTP_500 "Could not find boot partition") s2 |}
    | ESP_ERR_OTA_VALIDATE_FAILED =>
        {| ret := Some err;
           final := emit (Respond HTTP_400 "Image validation failed") s1 |}
    | _ =>
        {| ret := Some err; final := emit (Respond HTTP_500 "OTA end failed") s1 |}
    end
  else
    abort_with s HTTP_400 "Image validation failed - invalid magic byte"
               ESP_ERR_INVALID_ARG.

Definition starts_with_dashes (b : list byte) (initial_recv : Z) : bool :=
  (2 <=? initial_recv) && (nth 0 b NUL =? DASH) && (nth 1 b NUL =? DASH).

Definition then_finalize (pf : platform) (r : outcome + session) : outcome :=
  match r with
  | inl o => o
  | inr s => finalize pf s
  end.

(** The session before anything has happened. *)
Definition fresh_session : session :=
  {| buf := []; received := 0; flash := []; trace := [] |}.

(** The handler up to the end of its receive loop (lines 284-829, the
    multipart and raw branches being the functions above): [inl] is an
    early [return], [inr] the session that goes on to finalisation. *)
Definition receive_phase (pf : platform) (req : request) : outcome + session :=
  let content_len := effective_content_len req in
  if negb (update_partition pf) then
    inl {| ret := Some ESP_FAIL;
           final := emit (Respond HTTP_500 "No OTA partition found") fresh_session |}
  else
    match ota_begin pf with
    | ESP_OK =>
        let s0 := emit (OtaBegin ESP_OK) fresh_session in
        match malloc_buf pf with
        | None => inl (abort_with s0 HTTP_500 "Memory allocation failed" ESP_ERR_NO_MEM)
        | Some fresh =>
            let content_length := content_len in
            let (ct_ok, content_type) := get_hdr (hdr_content_type req) 128 in
            let by_header :=
              ct_ok && is_found (c_strstr content_type
                                          (bytes_of_string "multipart/form-data")) in
            let first := match socket req with
                         | [] => RecvData []
                         | r :: _ => r
                         end in
            let sock' := tl (socket req) in
            match first with
            | RecvTimeout | RecvFail =>
                inl (abort_with s0 HTTP_500 "Receive failed" ESP_FAIL)
            | RecvData chunk =>
                let initial_recv := len chunk in
                let s1 := {| buf := store fresh chunk; received := 0;
                             flash := []; trace := trace s0 |} in
                let is_multipart :=
                  by_header || starts_with_dashes (buf s1) initial_recv in
                if is_multipart then
                  let boundary0 :=
                    if 0 <? c_strlen content_type
                    then boundary_from_header content_type else [] in
                  let boundary :=
                    if (len boundary0 =? 0) && starts_with_dashes (buf s1) initial_recv
                    then boundary_from_data (buf s1) else boundary0 in
                  match multipart_first_chunk pf boundary s1 initial_recv with
                  | inl o => inl o
                  | inr s2 => multipart_loop pf boundary content_length s2 sock'
                  end
                else raw_loop pf content_length s1 sock'
            end
        end
    | err =>
        inl {| ret := Some err;
               final := emit (Respond HTTP_500 "OTA begin failed")
                             (emit (OtaBegin err) fresh_session) |}
    end.

Definition update_post_handler (pf : platform) (req : request) : outcome :=
  then_finalize pf (receive_phase pf req).

(** ** Vocabulary of the properties *)

(** [pat] occurs in [l] as a contiguous run of bytes. *)
Definition occurs (pat l : list byte) : Prop :=
  exists pre post, l = pre ++ pat ++ post.

(** A multipart body with one part, in the layout the comments of the
    handler describe: two dashes and the boundary, CRLF, the part
    headers, a blank line, the binary data, and the final boundary (CRLF,
    two dashes, boundary, two dashes) followed by CRLF. *)
Definition part_preamble (part_headers boundary : list byte) : list byte :=
  DASHDASH ++ boundary ++ CRLF ++ part_headers ++ CRLFCRLF.

Definition closing_delimiter (boundary : list byte) : list byte :=
  CRLF ++ DASHDASH ++ boundary ++ DASHDASH.

Definition wrap_multipart (part_headers F boundary : list byte) : list byte :=
  part_preamble part_headers boundary ++ F ++ closing_delimiter boundary ++ CRLF.

(** Length of the suffix the design document wants held back when a chunk
    shows no boundary. *)
Definition held_back_by_design (boundary carry chunk : list byte) : Z :=
  Z.min (len (carry ++ chunk)) (len boundary + 4).

(** The HTTP responses of a run, in order. *)
Fixpoint responses (tr : list effect) : list (http_status * string) :=
  match tr with
  | [] => []
  | Respond st msg :: tr' => (st, msg) :: responses tr'
  | _ :: tr' => responses tr'
  end.

Definition success_message : string :=
  "Firmware update successful! Device will reboot...".

Definition is_set_boot (e : effect) : bool :=
  match e with SetBootPartition _ => true | _ => false end.
Definition is_abort (e : effect) : bool :=
  match e with OtaAbort => true | _ => false end.
Definition is_restart (e : effect) : bool :=
  match e with Restart => true | _ => false end.
Definition is_rejected_write (e : effect) : bool :=
  match e with
  | OtaWrite _ r _ => negb (esp_err_eqb r ESP_OK)
  | _ => false
  end.
Definition is_failed_end (e : effect) : bool :=
  match e with
  | OtaEnd ESP_OK => false
  | OtaEnd _ => true
  | _ => false
  end.

(** [esp_ota_set_boot_partition] was called. *)
Definition boot_switch_attempted (tr : list effect) : bool := existsb is_set_boot tr.
(** The update partition was made the next boot target. *)
Definition boot_target_set (tr : list effect) : bool :=
  existsb (fun e => match e with SetBootPartition ESP_OK => true | _ => false end) tr.
(** [esp_ota_abort] was called. *)
Definition aborted (tr : list effect) : bool := existsb is_abort tr.
Definition restarted (tr : list effect) : bool := existsb is_restart tr.
Definition write_rejected (tr : list effect) : bool := existsb is_rejected_write tr.

(** The handle is gone and no valid image stands behind it:
    [esp_ota_abort] was called, or [esp_ota_end] returned an error
    ([esp_ota_end] releases the handle whatever it returns). *)
Definition region_discarded (tr : list effect) : bool :=
  aborted tr || existsb is_failed_end tr.

(** The counter values a trace reports follow from the accepted writes:
    starting from [r], an accepted write of [n] bytes is followed by the
    value [r + n], a rejected one leaves the counter alone. *)
Fixpoint counter_follows (r : Z) (tr : list effect) : Prop :=
  match tr with
  | [] => True
  | OtaWrite n ESP_OK r' :: tr' => 0 < n /\ r' = r + n /\ counter_follows r' tr'
  | OtaWrite n _ r' :: tr' => r' = r /\ counter_follows r tr'
  | _ :: tr' => counter_follows r tr'
  end.

(** The counter value a trace leaves behind, starting from [r]. *)
Fixpoint counter_after (r : Z) (tr : list effect) : Z :=
  match tr with
  | [] => r
  | OtaWrite _ ESP_OK r' :: tr' => counter_after r' tr'
  | _ :: tr' => counter_after r tr'
  end.

(** The socket results [n] consecutive timeouts long. *)
Definition timeouts (n : nat) : list recv_result := repeat RecvTimeout n.

(** ** Shape of a run *)

(** Effects of the receive phase while nothing has gone wrong. *)
Definition is_receiving (e : effect) : bool :=
  match e with
  | OtaBegin ESP_OK | OtaWrite _ ESP_OK _ | ConnectionClosed _ => true
  | _ => false
  end.

(** A session in the receive phase: only successful effects so far, and
    (on a partition smaller than 4 GB) [received] is the counter the
    trace reports and the number of bytes in flash. *)
Definition receiving (pf : platform) (s : session) : Prop :=
  forallb is_receiving (trace s) = true
  /\ (capacity pf < 2 ^ 32 ->
      counter_follows 0 (trace s)
      /\ counter_after 0 (trace s) = received s
      /\ received s = len (flash s)).

(** The ways the receive phase returns early. *)
Inductive left_early (pf : platform) : outcome -> Prop :=
| LeftNoPartition :
    left_early pf {| ret := Some ESP_FAIL;
                     final := emit (Respond HTTP_500 "No OTA partition found")
                                   fresh_session |}
| LeftBeginFailed (err : esp_err) :
    err <> ESP_OK ->
    left_early pf {| ret := Some err;
                     final := emit (Respond HTTP_500 "OTA begin failed")
                                   (emit (OtaBegin err) fresh_session) |}
| LeftAbort (s : session) (st : http_status) (msg : string) (e : esp_err) :
    receiving pf s -> st <> HTTP_200 ->
    left_early pf (abort_with s st msg e)
| LeftWrite (s : session) (n : Z) (e : esp_err) :
    receiving pf s -> e <> ESP_OK -> 0 < n ->
    left_early pf (abort_with (emit (OtaWrite n e (received s)) s)
                              HTTP_500 "OTA write failed" e).

Definition phase_ok (pf : platform) (r : outcome + session) : Prop :=
  match r with
  | inl o => left_early pf o
  | inr s => receiving pf s
  end.

(** The six ways finalisation ends. *)
Inductive finalized (pf : platform) (s : session) : outcome -> Prop :=
| FinBadMagic :
    magic_ok pf s = false ->
    finalized pf s
      (abort_with s HTTP_400 "Image validation failed - invalid magic byte"
                  ESP_ERR_INVALID_ARG)
| FinInvalidImage :
    magic_ok pf s = true ->
    ota_end pf (flash s) = ESP_ERR_OTA_VALIDATE_FAILED ->
    finalized pf s
      {| ret := Some ESP_ERR_OTA_VALIDATE_FAILED;
         final := emit (Respond HTTP_400 "Image validation failed")
                       (emit (OtaEnd ESP_ERR_OTA_VALIDATE_FAILED) s) |}
| FinEndFailed (e : esp_err) :
    magic_ok pf s = true ->
    ota_end pf (flash s) = e -> e <> ESP_OK -> e <> ESP_ERR_OTA_VALIDATE_FAILED ->
    finalized pf s
      {| ret := Some e;
         final := emit (Respond HTTP_500 "OTA end failed") (emit (OtaEnd e) s) |}
| FinNoBootPartition :
    magic_ok pf s = true ->
    ota_end pf (flash s) = ESP_OK ->
    next_update_partition_again pf || find_first_partition pf = false ->
    finalized pf s
      {| ret := Some ESP_ERR_NOT_FOUND;
         final := emit (Respond HTTP_500 "Could not find boot partition")
                       (emit (Respond HTTP_200 success_message)
                             (emit (OtaEnd ESP_OK) s)) |}
| FinBootFailed (e : esp_err) :
    magic_ok pf s = true ->
    ota_end pf (flash s) = ESP_OK ->
    next_update_partition_again pf || find_first_partition pf = true ->
    set_boot_partition pf = e -> e <> ESP_OK ->
    finalized pf s
      {| ret := Some e;
         final := emit (SetBootPartition e)
                       (emit (Respond HTTP_200 success_message)
                             (emit (OtaEnd ESP_OK) s)) |}
| FinRestart :
    magic_ok pf s = true ->
    ota_end pf (flash s) = ESP_OK ->
    next_update_partition_again pf || find_first_partition pf = true ->
    set_boot_partition pf = ESP_OK ->
    finalized pf s
      {| ret := None;
         final := emit Restart
                       (emit (SetBootPartition ESP_OK)
                             (emit (Respond HTTP_200 success_message)
                                   (emit (OtaEnd ESP_OK) s))) |}.

(** ** Sample inputs *)

(** The hardware object [relay_hardware_create] returns once
    [init_relay_gpio] has set the relay pin and the LED pin to OFF. *)
Definition relay_hardware_create (gpio led : Z) : relay_hardware_t :=
  {| gpio_pin := gpio; led_pin := led; gpio_level_on := false; led_on := false;
     hw_state := false |}.

(** The first hardware object of the set-up, and one without pins. *)
Definition relay_1_hw : relay_hardware_t := relay_hardware_create 35 48.

Definition relay_off : relay_control_ui_t :=
  {| button := true; state := false; timer_running := false; time_remaining := 0;
     hardware := Some relay_1_hw |}.

(** A relay table in which the relays 1 to 5 are in place and relay 6 is
    not (yet). *)
Definition five_relays : relay_table :=
  fun i => if (1 <=? i) && (i <=? 5) then Some relay_off else None.

(** A platform on which every call succeeds, with a zero-filled buffer
    and a 1 MB update partition. *)
Definition healthy_platform : platform :=
  {| update_partition := true; ota_begin := ESP_OK;
     malloc_buf := Some (repeat NUL (Z.to_nat buf_size));
     capacity := 1048576; flash_write := fun _ _ => ESP_OK;
     unwritten_byte := 255; partition_read_ok := true;
     ota_end := fun _ => ESP_OK;
     next_update_partition_again := true; find_first_partition := true;
     set_boot_partition := ESP_OK |}.

(** The same platform with a boot-partition switch that fails. *)
Definition boot_switch_fails : platform :=
  {| update_partition := true; ota_begin := ESP_OK;
     malloc_buf := Some (repeat NUL (Z.to_nat buf_size));
     capacity := 1048576; flash_write := fun _ _ => ESP_OK;
     unwritten_byte := 255; partition_read_ok := true;
     ota_end := fun _ => ESP_OK;
     next_update_partition_again := true; find_first_partition := true;
     set_boot_partition := ESP_FAIL |}.

(** The same platform with an image verification that fails. *)
Definition integrity_check_fails : platform :=
  {| update_partition := true; ota_begin := ESP_OK;
     malloc_buf := Some (repeat NUL (Z.to_nat buf_size));
     capacity := 1048576; flash_write := fun _ _ => ESP_OK;
     unwritten_byte := 255; partition_read_ok := true;
     ota_end := fun _ => ESP_ERR_OTA_VALIDATE_FAILED;
     next_update_partition_again := true; find_first_partition := true;
     set_boot_partition := ESP_OK |}.

(** The same platform with a two-byte update partition. *)
Definition tiny_partition : platform :=
  {| update_partition := true; ota_begin := ESP_OK;
     malloc_buf := Some (repeat NUL (Z.to_nat buf_size));
     capacity := 2; flash_write := fun _ _ => ESP_OK;
     unwritten_byte := 255; partition_read_ok := true;
     ota_end := fun _ => ESP_OK;
     next_update_partition_again := true; find_first_partition := true;
     set_boot_partition := ESP_OK |}.

Definition boundary_X : list byte := bytes_of_string "X".

Definition sample_part_headers : list byte :=
  bytes_of_string "Content-Disposition: form-data; name=firmware".

Definition multipart_X : list byte :=
  bytes_of_string "multipart/form-data; boundary=X".

(** Number of body bytes a list of socket results delivers. *)
Fixpoint body_length (sock : list recv_result) : Z :=
  match sock with
  | [] => 0
  | RecvData chunk :: sock' => len chunk + body_length sock'
  | _ :: sock' => body_length sock'
  end.

(** A multipart upload with boundary X whose content length is the
    length of the body the socket delivers. *)
Definition upload_of (sock : list recv_result) : request :=
  {| req_content_len := body_length sock; hdr_content_length := None;
     hdr_content_type := Some multipart_X; socket := sock |}.

(** Scenario B of the design document: the payload E9 01 02 arrives
    split over two reads. *)
Definition scenario_B_chunk1 : list byte :=
  part_preamble sample_part_headers boundary_X ++ [233; 1].

Definition scenario_B_chunk2 : list byte :=
  [2] ++ closing_delimiter boundary_X.

Definition scenario_B : request :=
  upload_of [RecvData scenario_B_chunk1; RecvData scenario_B_chunk2].

(** Scenario B with [n] read timeouts between its two chunks. *)
Definition scenario_B_with_timeouts (n : nat) : request :=
  upload_of (RecvData scenario_B_chunk1 :: timeouts n ++ [RecvData scenario_B_chunk2]).

(** Scenario D: the payload starts with 00 instead of E9. *)
Definition scenario_D : request :=
  upload_of [RecvData (part_preamble sample_part_headers boundary_X ++ [0; 1]);
             RecvData scenario_B_chunk2].

(** The session scenario B is in after its first chunk, and a chunk
    without any boundary. *)
Definition after_first_chunk : session :=
  {| buf := store (repeat NUL (Z.to_nat buf_size)) scenario_B_chunk1; received := 2;
     flash := [233; 1]; trace := [OtaBegin ESP_OK; OtaWrite 2 ESP_OK 2] |}.

Definition plain_chunk : list byte := [2; 3; 4; 5; 6; 7; 8; 9; 10; 11].

Definition small_firmware : list byte := [233; 1; 2].

Definition small_body : list byte :=
  wrap_multipart sample_part_headers small_firmware boundary_X.

(** [small_body] cut inside the closing delimiter, after its first dash. *)
Definition split_body_1 : list byte :=
  part_preamble sample_part_headers boundary_X ++ small_firmware ++ CRLF ++ [DASH].

Definition split_body_2 : list byte :=
  [DASH] ++ boundary_X ++ DASHDASH ++ CRLF.

(** An upload whose second window has no NUL in it: the window ends with
    CRLF and a dash, and the bytes the first window left behind it in the
    buffer go on with a dash, X and two dashes. *)
Definition stale_first_payload : list byte := [233; 1; 2; 3; 45; 88; 45; 45; 5].

Definition stale_middle_window : list byte :=
  repeat 65 (length (part_preamble sample_part_headers boundary_X) + 1)
  ++ [CR; LF; DASH].

Definition stale_upload : request :=
  upload_of [RecvData (part_preamble sample_part_headers boundary_X
                       ++ stale_first_payload);
             RecvData stale_middle_window;
             RecvData ([7] ++ closing_delimiter boundary_X ++ CRLF)].

(** ** The relay button and its countdown ([relay_control_ui.c]) *)

(** [relay_control_ui_toggle]: flips the state and starts or stops the
    countdown.  It tests only [ui] against NULL and makes no call to
    [control_relay_hardware]. *)
Definition relay_control_ui_toggle (timer_ok : bool) (ui : relay_control_ui_t)
  : relay_control_ui_t :=
  let old_state := state ui in
  let ui1 := {| button := button ui; state := negb (state ui);
                timer_running := timer_running ui;
                time_remaining := time_remaining ui; hardware := hardware ui |} in
  if state ui1 && negb old_state then start_timer timer_ok ui1
  else if negb (state ui1) && old_state then stop_timer ui1
  else ui1.

(** [timer_callback]: one tick of the one-second timer.  At zero the relay
    is switched off and the timer stopped; [esp_timer_stop] leaves
    [ui->timer] in place.  The [update_needed] flag, which only asks the
    LVGL timer to redraw, is left out. *)
Definition timer_callback (ui : relay_control_ui_t) : relay_control_ui_t :=
  if 0 <? time_remaining ui then
    let ui1 := {| button := button ui; state := state ui;
                  timer_running := timer_running ui;
                  time_remaining := time_remaining ui - 1; hardware := hardware ui |} in
    if time_remaining ui1 =? 0 then
      control_relay_hardware
        {| button := button ui1; state := false; timer_running := timer_running ui1;
           time_remaining := time_remaining ui1; hardware := hardware ui1 |} false
    else ui1
  else ui.

Inductive lv_event_code_t :=
| LV_EVENT_CLICKED
| LV_EVENT_LONG_PRESSED
| LV_EVENT_PRESSED.      (* any other event code *)

(** A relay object together with the [long_press_active] flag of
    [struct relay_control_ui_s], which only the button callback uses. *)
Record relay_button := {
  ui_obj : relay_control_ui_t;
  long_press_active : bool
}.

(** [relay_button_cb] (lines 393-461 of the listing). *)
Definition relay_button_cb (timer_ok : bool) (code : lv_event_code_t) (b : relay_button)
  : relay_button :=
  let ui := ui_obj b in
  match code with
  | LV_EVENT_LONG_PRESSED =>
      if negb (state ui) then
        let ui1 := {| button := button ui; state := true;
                      timer_running := timer_running ui;
                      time_remaining := time_remaining ui; hardware := hardware ui |} in
        {| ui_obj := control_relay_hardware ui1 (state ui1); long_press_active := true |}
      else b
  | LV_EVENT_CLICKED =>
      if long_press_active b then {| ui_obj := ui; long_press_active := false |}
      else
        let old_state := state ui in
        let ui1 := {| button := button ui; state := negb (state ui);
                      timer_running := timer_running ui;
                      time_remaining := time_remaining ui; hardware := hardware ui |} in
        let ui2 := control_relay_hardware ui1 (state ui1) in
        {| ui_obj := if state ui2 && negb old_state then start_timer timer_ok ui2
                     else if negb (state ui2) && old_state then stop_timer ui2
                     else ui2;
           long_press_active := long_press_active b |}
  | LV_EVENT_PRESSED => b
  end.

(** The object [relay_control_ui_create] returns when it succeeds: the
    state is read from the hardware, no timer exists. *)
Definition relay_control_ui_create (hw : option relay_hardware_t) : relay_button :=
  {| ui_obj := {| button := true;
                  state := match hw with Some h => hw_state h | None => false end;
                  timer_running := false; time_remaining := 0; hardware := hw |};
     long_press_active := false |}.

(** What can happen to a relay object: an LVGL event on its button, a
    tick of its timer, or a call of its programming interface. *)
Inductive relay_event :=
| ButtonEvent (code : lv_event_code_t) (timer_ok : bool)
| TimerTick
| ApiSetState (st : bool) (timer_ok : bool)
| ApiToggle (timer_ok : bool).

(** A tick reaches [timer_callback] only while a timer exists. *)
Definition relay_step (b : relay_button) (e : relay_event) : relay_button :=
  match e with
  | ButtonEvent code timer_ok => relay_button_cb timer_ok code b
  | TimerTick =>
      if timer_running (ui_obj b)
      then {| ui_obj := timer_callback (ui_obj b);
              long_press_active := long_press_active b |}
      else b
  | ApiSetState st timer_ok =>
      {| ui_obj := relay_control_ui_set_state timer_ok (ui_obj b) st;
         long_press_active := long_press_active b |}
  | ApiToggle timer_ok =>
      {| ui_obj := relay_control_ui_toggle timer_ok (ui_obj b);
         long_press_active := long_press_active b |}
  end.

Definition relay_run (b : relay_button) (events : list relay_event) : relay_button :=
  fold_left relay_step events b.


(** The relay pin and the recorded hardware state agree with the state
    the object shows. *)
Definition hardware_follows (ui : relay_control_ui_t) : Prop :=
  match hardware ui with
  | Some hw => gpio_level_on hw = state ui /\ hw_state hw = state ui
  | None => True
  end.

Definition has_relay_pin (hw : relay_hardware_t) : bool :=
  negb ((gpio_pin hw <? 0) || (gpio_pin hw =? GPIO_NUM_NC)).
Definition has_led_pin (hw : relay_hardware_t) : bool :=
  (0 <=? led_pin hw) && negb (led_pin hw =? GPIO_NUM_NC).




(** The countdown is within its range and an OFF relay shows none. *)
Definition countdown_ok (ui : relay_control_ui_t) : Prop :=
  0 <= time_remaining ui <= RELAY_TIMER_DURATION_SECONDS
  /\ (state ui = false -> time_remaining ui = 0).

(** ** The master button ([master_button_ui.c]) *)

Inductive master_appearance :=
| MasterOn      (* green, label Master ON *)
| MasterOff.    (* red, label Master OFF *)

(** [controlled] lists the relays of [master->controlled_relays] by their
    place in the relay table; an entry the table does not know is a NULL
    pointer.  [shown] is what the button displays. *)
Record master_button_ui_t := {
  m_button : bool;     (* [master->button != NULL] *)
  m_label : bool;      (* [master->label != NULL] *)
  controlled : list Z;
  shown : master_appearance
}.

(** The test of the loop of [master_button_ui_update_appearance]:
    [relay != NULL && relay->button != NULL && relay_control_ui_get_state(relay)]. *)
Definition relay_is_on (t : relay_table) (id : Z) : bool :=
  match t id with
  | Some relay => button relay && relay_control_ui_get_state (Some relay)
  | None => false
  end.

Definition master_button_ui_update_appearance (master : master_button_ui_t)
    (t : relay_table) : master_button_ui_t :=
  if negb (m_button master) || negb (m_label master) then master
  else
    let any_on := existsb (relay_is_on t) (controlled master) in
    {| m_button := m_button master; m_label := m_label master;
       controlled := controlled master;
       shown := if any_on then MasterOn else MasterOff |}.

(** The loop of [master_button_cb] over the controlled relays. *)
Fixpoint turn_off_relays (timer_ok : bool) (t : relay_table) (ids : list Z)
  : relay_table :=
  match ids with
  | [] => t
  | id :: ids' =>
      match t id with
      | None => turn_off_relays timer_ok t ids'
      | Some relay =>
          if negb (button relay) then turn_off_relays timer_ok t ids'
          else if relay_control_ui_get_state (Some relay) then
            turn_off_relays timer_ok
              (update_relay t id (relay_control_ui_set_state timer_ok relay false)) ids'
          else turn_off_relays timer_ok t ids'
      end
  end.

Definition master_button_cb (timer_ok : bool) (code : lv_event_code_t)
    (master : master_button_ui_t) (t : relay_table)
  : master_button_ui_t * relay_table :=
  match code with
  | LV_EVENT_CLICKED =>
      if negb (m_button master) then (master, t)
      else
        let t' := turn_off_relays timer_ok t (controlled master) in
        (master_button_ui_update_appearance master t', t')
  | _ => (master, t)
  end.

(** ** Static files ([get_content_type], [file_handler]) *)

Definition DOT : byte := 46.

Fixpoint bytes_eqb (a b : list byte) : bool :=
  match a, b with
  | [], [] => true
  | x :: a', y :: b' => (x =? y) && bytes_eqb a' b'
  | _, _ => false
  end.

(** [strcmp(m, lit) == 0] for a string literal [lit]. *)
Definition c_streq (m : list byte) (lit : string) : bool :=
  bytes_eqb (c_str m) (bytes_of_string lit).

Definition get_content_type (filename : list byte) : string :=
  match c_strrchr filename DOT with
  | None => "application/octet-stream"
  | Some k =>
      let ext := skipn k filename in
      if c_streq ext ".html" || c_streq ext ".htm" then "text/html"
      else if c_streq ext ".css" then "text/css"
      else if c_streq ext ".js" then "application/javascript"
      else if c_streq ext ".json" then "application/json"
      else if c_streq ext ".png" then "image/png"
      else if c_streq ext ".jpg" || c_streq ext ".jpeg" then "image/jpeg"
      else if c_streq ext ".gif" then "image/gif"
      else if c_streq ext ".svg" then "image/svg+xml"
      else if c_streq ext ".ico" then "image/x-icon"
      else "application/octet-stream"
  end.

(** What [file_handler] does, in order. *)
Inductive file_effect :=
| Fopen (path : list byte)
| Fclose
| RespStatus (status : string)        (* [httpd_resp_set_status] *)
| RespSend (body : string)            (* [httpd_resp_send] *)
| RespType (content_type : string)    (* [httpd_resp_set_type] *)
| RespChunk (data : list byte) (r : esp_err)   (* [httpd_resp_send_chunk] with data *)
| RespLastChunk.                      (* [httpd_resp_send_chunk(req, NULL, 0)] *)

(** The SPIFFS files by path ([None]: [fopen] returns NULL; reads do not
    fail), and the result of the [i]-th [httpd_resp_send_chunk]. *)
Record file_platform := {
  fopen : list byte -> option (list byte);
  resp_send_chunk : nat -> esp_err
}.

Definition FILEPATH_SIZE : Z := 256.
Definition CHUNK_SIZE : nat := 1024.

(** [snprintf(filepath, sizeof(filepath), fmt, uri)] with the format
    /spiffs followed by a string: at most 255 bytes are stored. *)
Definition snprintf_spiffs (uri : list byte) : list byte :=
  firstn (Z.to_nat (FILEPATH_SIZE - 1)) (bytes_of_string "/spiffs" ++ c_str uri).

(** The [do ... while (read_bytes > 0)] loop over the bytes [rest] still
    unread, [i] chunks having been sent; [false] is the early return on a
    failed send.  Every turn with data consumes some, so [length rest]
    turns are enough. *)
Fixpoint send_file (fp : file_platform) (i : nat) (rest : list byte) (turns : nat)
  : list file_effect * bool :=
  match turns with
  | O => ([], true)
  | S turns' =>
      match firstn CHUNK_SIZE rest with
      | [] => ([], true)
      | chunk =>
          let r := resp_send_chunk fp i in
          if esp_err_eqb r ESP_OK then
            let (es, ok) := send_file fp (S i) (skipn CHUNK_SIZE rest) turns' in
            (RespChunk chunk r :: es, ok)
          else ([RespChunk chunk r], false)
      end
  end.

Definition file_handler (fp : file_platform) (uri : list byte)
  : list file_effect * esp_err :=
  let filepath :=
    if c_streq uri "/" then Some (bytes_of_string "/spiffs/index.html")
    else if FILEPATH_SIZE - 8 <? c_strlen uri then None
    else Some (snprintf_spiffs uri) in
  match filepath with
  | None => ([RespStatus "414 URI Too Long"; RespSend "URI too long"], ESP_FAIL)
  | Some path =>
      match fopen fp path with
      | None =>
          ([Fopen path; RespStatus "404 Not Found"; RespSend "File not found"],
           ESP_FAIL)
      | Some content =>
          let (es, ok) := send_file fp 0 content (length content) in
          if ok then
            ([Fopen path; RespType (get_content_type path)] ++ es
             ++ [Fclose; RespLastChunk], ESP_OK)
          else
            ([Fopen path; RespType (get_content_type path)] ++ es ++ [Fclose],
             ESP_FAIL)
      end
  end.

Definition control_page_handler := file_handler.
Definition update_page_handler := file_handler.

(** The path [file_handler] opens for a URI that is not too long. *)
Definition path_of (uri : list byte) : list byte :=
  if c_streq uri "/" then bytes_of_string "/spiffs/index.html"
  else bytes_of_string "/spiffs" ++ c_str uri.

(** The data of the chunks sent, in order. *)
Fixpoint chunks_sent (es : list file_effect) : list (list byte) :=
  match es with
  | [] => []
  | RespChunk data ESP_OK :: es' => data :: chunks_sent es'
  | _ :: es' => chunks_sent es'
  end.

Definition is_fopen (e : file_effect) : bool :=
  match e with Fopen _ => true | _ => false end.
Definition is_chunk (e : file_effect) : Prop := exists d r, e = RespChunk d r.

(** ** Starting and stopping the server ([http_server_start],
    [http_server_stop], [http_server_is_running]) *)

Inductive http_method := HTTP_GET | HTTP_POST.

Inductive uri_handler :=
| h_control_page
| h_update_page
| h_update_post
| h_relay_get
| h_relay_post.

Definition route : Type := list byte * http_method * uri_handler.

(** The two static variables of [http_server.c] and the handlers the
    running [httpd] knows. *)
Record server_state := {
  server_running : bool;
  server_handle : bool;         (* [server_handle != NULL] *)
  routes : list route
}.

(** Answers of ESP-IDF to one call of [http_server_start]. *)
Record httpd_platform := {
  spiffs_register : esp_err;
  httpd_start : esp_err;
  handle_stored : bool;         (* [httpd_start] stored a non-NULL handle *)
  httpd_register_uri_handler : route -> esp_err
}.

Definition max_uri_handlers : Z := 30.

Definition register (hp : httpd_platform) (rs : list route) (r : route) : list route :=
  if esp_err_eqb (httpd_register_uri_handler hp r) ESP_OK then rs ++ [r] else rs.

(** The registrations of [http_server_start], in order. *)
Definition registrations : list route :=
  [(bytes_of_string "/", HTTP_GET, h_control_page);
   (bytes_of_string "/update", HTTP_GET, h_update_page);
   (bytes_of_string "/update", HTTP_POST, h_update_post)]
  ++ flat_map (fun u => [(u, HTTP_GET, h_relay_get); (u, HTTP_POST, h_relay_post)])
              relay_uris.

Definition http_server_start (hp : httpd_platform) (s : server_state)
  : esp_err * server_state :=
  if server_running s then (ESP_OK, s)
  else
    match httpd_start hp with
    | ESP_OK =>
        if handle_stored hp then
          (ESP_OK, {| server_running := true; server_handle := true;
                      routes := fold_left (register hp) registrations [] |})
        else
          (ESP_FAIL, {| server_running := server_running s; server_handle := false;
                        routes := routes s |})
    | start_err => (start_err, s)
    end.

Definition http_server_stop (s : server_state) : esp_err * server_state :=
  if negb (server_running s) || negb (server_handle s) then (ESP_OK, s)
  else (ESP_OK, {| server_running := false; server_handle := false; routes := [] |}).

Definition http_server_is_running (s : server_state) : bool := server_running s.

Inductive server_call :=
| CallStart (hp : httpd_platform)
| CallStop.

Definition server_step (s : server_state) (c : server_call) : server_state :=
  match c with
  | CallStart hp => snd (http_server_start hp s)
  | CallStop => snd (http_server_stop s)
  end.

(** The state before the first call: both statics at their initialisers. *)
Definition server_initial : server_state :=
  {| server_running := false; server_handle := false; routes := [] |}.

(** ** WiFi events ([wifi_event_handler], wifi_ota.c) *)

Definition WIFI_MAXIMUM_RETRY : Z := 5.

Inductive wifi_event :=
| WIFI_EVENT_STA_START
| WIFI_EVENT_STA_DISCONNECTED
| IP_EVENT_STA_GOT_IP
| WIFI_EVENT_OTHER.      (* any other WiFi event *)

(** The statics of [wifi_ota.c], the two bits of [s_wifi_event_group], and
    the number of [esp_wifi_connect] calls made so far. *)
Record wifi_state := {
  s_retry_num : Z;
  s_wifi_connected : bool;
  WIFI_CONNECTED_BIT : bool;
  WIFI_FAIL_BIT : bool;
  connect_calls : Z
}.

Definition wifi_event_handler (s : wifi_state) (e : wifi_event) : wifi_state :=
  match e with
  | WIFI_EVENT_STA_START =>
      {| s_retry_num := s_retry_num s; s_wifi_connected := s_wifi_connected s;
         WIFI_CONNECTED_BIT := WIFI_CONNECTED_BIT s; WIFI_FAIL_BIT := WIFI_FAIL_BIT s;
         connect_calls := connect_calls s + 1 |}
  | WIFI_EVENT_STA_DISCONNECTED =>
      if s_retry_num s <? WIFI_MAXIMUM_RETRY then
        {| s_retry_num := s_retry_num s + 1; s_wifi_connected := false;
           WIFI_CONNECTED_BIT := WIFI_CONNECTED_BIT s; WIFI_FAIL_BIT := WIFI_FAIL_BIT s;
           connect_calls := connect_calls s + 1 |}
      else
        {| s_retry_num := s_retry_num s; s_wifi_connected := false;
           WIFI_CONNECTED_BIT := WIFI_CONNECTED_BIT s; WIFI_FAIL_BIT := true;
           connect_calls := connect_calls s |}
  | IP_EVENT_STA_GOT_IP =>
      {| s_retry_num := 0; s_wifi_connected := true;
         WIFI_CONNECTED_BIT := true; WIFI_FAIL_BIT := WIFI_FAIL_BIT s;
         connect_calls := connect_calls s |}
  | WIFI_EVENT_OTHER => s
  end.

Definition wifi_run (s : wifi_state) (events : list wifi_event) : wifi_state :=
  fold_left wifi_event_handler events s.

(** The statics at their initialisers, the event group freshly created. *)
Definition wifi_initial : wifi_state :=
  {| s_retry_num := 0; s_wifi_connected := false;
     WIFI_CONNECTED_BIT := false; WIFI_FAIL_BIT := false; connect_calls := 0 |}.

(** ** Further sample inputs *)

(** A raw upload: no Content-Type, the body E9 01 02 03 in two reads. *)
Definition raw_upload : request :=
  {| req_content_len := 4; hdr_content_length := None; hdr_content_type := None;
     socket := [RecvData [233; 1]; RecvData [2; 3]] |}.

Definition relay_on_counting : relay_control_ui_t :=
  relay_control_ui_set_state true relay_off true.

(** A file system that holds the two pages, 1500 bytes of index.html. *)
Definition two_pages : file_platform :=
  {| fopen := fun path =>
       if bytes_eqb path (bytes_of_string "/spiffs/index.html")
       then Some (repeat 60 1500)
       else if bytes_eqb path (bytes_of_string "/spiffs/update")
       then Some (bytes_of_string "<html></html>")
       else None;
     resp_send_chunk := fun _ => ESP_OK |}.


Definition httpd_healthy : httpd_platform :=
  {| spiffs_register := ESP_OK; httpd_start := ESP_OK; handle_stored := true;
     httpd_register_uri_handler := fun _ => ESP_OK |}.

(* ================================================================== *)
(** * Part II.  Properties                                             *)
(* ================================================================== *)

(** ** Byte strings *)

Lemma len_app (a b : list byte) : len (a ++ b) = len a + len b.
Proof. unfold len. rewrite length_app. lia. Qed.

Lemma len_nonneg (a : list byte) : 0 <= len a.
Proof. unfold len. lia. Qed.

Lemma starts_with_spec (p m : list byte) :
  starts_with p m = true <-> exists rest, m = p ++ rest.
Proof.
  revert m. induction p as [|a p IH]; intros m; simpl.
  - split; [intros _; now exists m | reflexivity].
  - destruct m as [|b m].
    + split; [discriminate | intros [rest H]; discriminate].
    + rewrite andb_true_iff, Z.eqb_eq, IH. split.
      * intros [-> [rest ->]]. now exists rest.
      * intros [rest H]. injection H as -> ->. split; [reflexivity | now exists rest].
Qed.

Lemma starts_with_app (p rest : list byte) : starts_with p (p ++ rest) = true.
Proof. apply starts_with_spec. now exists rest. Qed.

Lemma starts_with_false (p m : list byte) :
  starts_with p m = false <-> ~ exists rest, m = p ++ rest.
Proof.
  rewrite <- starts_with_spec. destruct (starts_with p m).
  - split; [discriminate | intros H; now destruct H].
  - split; [intros _ H; discriminate | reflexivity].
Qed.

Lemma occurs_app_l (pat a b : list byte) : occurs pat a -> occurs pat (a ++ b).
Proof.
  intros (pre & post & ->). exists pre, (post ++ b). now rewrite <- !app_assoc.
Qed.

Lemma occurs_app_r (pat a b : list byte) : occurs pat b -> occurs pat (a ++ b).
Proof.
  intros (pre & post & ->). exists (a ++ pre), post. now rewrite <- !app_assoc.
Qed.

Lemma occurs_cons (pat : list byte) (b : byte) (l : list byte) :
  occurs pat l -> occurs pat (b :: l).
Proof. apply (occurs_app_r pat [b] l). Qed.

Lemma occurs_inner (pat a b c : list byte) :
  occurs pat b -> occurs pat (a ++ b ++ c).
Proof. intros H. apply occurs_app_r, occurs_app_l, H. Qed.

(** A match of a longer pattern contains a match of each of its pieces. *)
Lemma occurs_trans (p q l : list byte) : occurs p q -> occurs q l -> occurs p l.
Proof.
  intros (a & b & ->) (pre & post & ->).
  exists (pre ++ a), (b ++ post). now rewrite <- !app_assoc.
Qed.

Lemma find_sub_some (pat l : list byte) (k : nat) :
  find_sub pat l = Some k ->
  exists post, l = firstn k l ++ pat ++ post /\ (k + length pat <= length l)%nat.
Proof.
  revert k. induction l as [|b l IH]; intros k; simpl.
  - destruct (starts_with pat []) eqn:E; [|discriminate].
    intros [= <-]. apply starts_with_spec in E as [rest E].
    exists rest. split; [exact E|].
    apply (f_equal (@length byte)) in E. rewrite length_app in E. simpl in E. lia.
  - destruct (starts_with pat (b :: l)) eqn:E.
    + intros [= <-]. apply starts_with_spec in E as [rest E].
      exists rest. split; [exact E|].
      apply (f_equal (@length byte)) in E. rewrite length_app in E. simpl in E. lia.
    + destruct (find_sub pat l) as [j|] eqn:F; [|discriminate].
      simpl. intros [= <-]. destruct (IH j eq_refl) as (post & H1 & H2).
      exists post. simpl. split; [now rewrite <- H1 | lia].
Qed.

Lemma find_sub_occurs (pat l : list byte) (k : nat) :
  find_sub pat l = Some k -> occurs pat l.
Proof.
  intros H. destruct (find_sub_some _ _ _ H) as (post & E & _).
  now exists (firstn k l), post.
Qed.

Lemma find_sub_none (pat l : list byte) :
  find_sub pat l = None <-> ~ occurs pat l.
Proof.
  induction l as [|b l IH]; simpl.
  - destruct (starts_with pat []) eqn:E.
    + split; [discriminate|]. intros H. exfalso. apply H.
      apply starts_with_spec in E as [rest E]. now exists [], rest.
    + split; [|reflexivity]. intros _ (pre & post & H).
      apply starts_with_false in E. apply E.
      destruct pre; [now exists post | discriminate].
  - destruct (starts_with pat (b :: l)) eqn:E.
    + split; [discriminate|]. intros H. exfalso. apply H.
      apply starts_with_spec in E as [rest E]. now exists [], rest.
    + destruct (find_sub pat l) as [j|] eqn:F; simpl.
      * split; [discriminate|]. intros H. exfalso. apply H.
        apply occurs_cons. eapply find_sub_occurs; eassumption.
      * split; [|reflexivity]. intros _ (pre & post & H).
        destruct pre as [|c pre].
        -- apply starts_with_false in E. apply E. now exists post.
        -- injection H as _ H. apply (proj1 IH eq_refl). now exists pre, post.
Qed.

Lemma starts_with_shorten (p x y : list byte) :
  starts_with p (x ++ y) = true -> (length p <= length x)%nat ->
  starts_with p x = true.
Proof.
  revert x. induction p as [|a p IH]; intros x; simpl; [reflexivity|].
  destruct x as [|c x]; simpl; [lia|].
  rewrite !andb_true_iff. intros [H1 H2] Hl. split; [exact H1|].
  apply IH; [exact H2 | lia].
Qed.

Lemma starts_with_occurs (p m : list byte) : starts_with p m = true -> occurs p m.
Proof. intros H. apply starts_with_spec in H as [rest ->]. now exists [], rest. Qed.

Lemma length_removelast_pat (pat : list byte) :
  pat <> [] -> length pat = S (length (removelast pat)).
Proof.
  intros H. assert (E := app_removelast_last 0 H).
  apply (f_equal (@length byte)) in E. rewrite length_app in E. simpl in E. lia.
Qed.

(** The first occurrence: when nothing matches at a smaller offset,
    [find_sub] returns the offset of the match that is known. *)
Lemma find_sub_unfold (pat l : list byte) :
  find_sub pat l =
  if starts_with pat l then Some 0%nat
  else match l with
       | [] => None
       | _ :: l' => option_map S (find_sub pat l')
       end.
Proof. destruct l; reflexivity. Qed.

Lemma find_sub_first (pat pre post : list byte) :
  pat <> [] -> ~ occurs pat (pre ++ removelast pat) ->
  find_sub pat (pre ++ pat ++ post) = Some (length pre).
Proof.
  intros Hne. induction pre as [|b pre IH]; intros Hno; rewrite find_sub_unfold.
  - simpl app. now rewrite starts_with_app.
  - destruct (starts_with pat ((b :: pre) ++ pat ++ post)) eqn:E.
    + exfalso. apply Hno. apply starts_with_occurs.
      apply (starts_with_shorten pat ((b :: pre) ++ removelast pat)
                                 ([last pat 0] ++ post)).
      * rewrite <- app_assoc, (app_assoc (removelast pat)).
        rewrite <- (app_removelast_last 0 Hne). exact E.
      * rewrite length_app, (length_removelast_pat pat Hne). simpl. lia.
    + cbn [app]. rewrite IH; [reflexivity|].
      intros H. apply Hno. now apply occurs_cons.
Qed.

Lemma c_str_prefix (m : list byte) : exists rest, m = c_str m ++ rest.
Proof.
  induction m as [|b m [rest IH]]; simpl.
  - now exists [].
  - destruct (b =? NUL); [now exists (b :: m)|].
    exists rest. simpl. now rewrite <- IH.
Qed.

Lemma c_str_app_nul (l rest : list byte) : c_str (l ++ NUL :: rest) = c_str l.
Proof.
  induction l as [|b l IH]; simpl; [reflexivity|].
  destruct (b =? NUL); [reflexivity | now rewrite IH].
Qed.

Lemma c_str_no_nul (l : list byte) : ~ In NUL l -> c_str l = l.
Proof.
  induction l as [|b l IH]; simpl; intros H; [reflexivity|].
  destruct (Z.eqb_spec b NUL) as [->|_]; [exfalso; now apply H; left|].
  rewrite IH; [reflexivity | intros Hin; apply H; now right].
Qed.

Lemma c_str_app_no_nul (l rest : list byte) :
  ~ In NUL l -> c_str (l ++ rest) = l ++ c_str rest.
Proof.
  induction l as [|b l IH]; simpl; intros H; [reflexivity|].
  destruct (Z.eqb_spec b NUL) as [->|_]; [exfalso; now apply H; left|].
  rewrite IH; [reflexivity | intros Hin; apply H; now right].
Qed.

(** ** Relay endpoints *)

Lemma c_strstr_content_none (chunk pat : list byte) :
  ~ occurs pat chunk -> c_strstr (content_after_recv chunk) pat = None.
Proof.
  intros H. unfold c_strstr, content_after_recv.
  assert (Hl : (length (firstn 127 chunk) <= 127)%nat) by apply firstn_le_length.
  destruct (128 - length (firstn 127 chunk))%nat as [|n] eqn:E; [lia|].
  cbn [repeat]. rewrite c_str_app_nul. apply find_sub_none. intros Ho. apply H.
  rewrite <- (firstn_skipn 127 chunk). apply occurs_app_l.
  destruct (c_str_prefix (firstn 127 chunk)) as [rest Er]. rewrite Er.
  now apply occurs_app_l.
Qed.

Lemma set_state_sets (timer_ok : bool) (ui : relay_control_ui_t) (st : bool) :
  button ui = true -> state (relay_control_ui_set_state timer_ok ui st) = st.
Proof.
  intros Hb. unfold relay_control_ui_set_state. rewrite Hb. cbn [negb].
  unfold control_relay_hardware, start_timer, stop_timer. cbn [hardware state].
  destruct (hardware ui), st, (state ui); reflexivity.
Qed.

Lemma range_check_false (id : Z) : 1 <= id <= 6 -> (id <? 1) || (id >? 6) = false.
Proof.
  intros H. apply orb_false_iff. rewrite Z.gtb_ltb.
  split; apply Z.ltb_ge; lia.
Qed.




(** C10.  A POST to a relay endpoint whose id is valid and whose relay is
    initialised, with a non-empty body in which none of the tokens the
    handler recognises occurs (state:true or state:false, the key in
    double or in single quotes), toggles the relay: it sets the relay to
    the negation of its current state and answers 200 with the new
    state. *)
Theorem relay_post_without_state_token_toggles :
  forall (timer_ok : bool) (t : relay_table) (uri chunk : list byte)
         (ui : relay_control_ui_t),
    1 <= post_relay_id uri <= 6 ->
    t (post_relay_id uri) = Some ui ->
    button ui = true ->
    chunk <> [] ->
    ~ occurs state_true_dq chunk -> ~ occurs state_true_sq chunk ->
    ~ occurs state_false_dq chunk -> ~ occurs state_false_sq chunk ->
    let id := post_relay_id uri in
    let o := relay_post_handler timer_ok t uri (RecvData chunk) in
    r_effects o = [Lookup id; SetState id (negb (state ui));
                   Reply HTTP_200 (ReplyState id (negb (state ui)))]
    /\ r_ret o = ESP_OK
    /\ option_map state (r_table o id) = Some (negb (state ui)).
Proof.
  intros timer_ok t uri chunk ui Hid Ht Hb Hne H1 H2 H3 H4 id o.
  subst id o. unfold relay_post_handler.
  rewrite (range_check_false _ Hid), Ht.
  destruct chunk as [|b chunk]; [congruence|].
  rewrite !c_strstr_content_none by assumption. cbn [is_found orb].
  cbn [r_effects r_ret r_table relay_control_ui_get_state].
  repeat split. unfold update_relay. rewrite Z.eqb_refl. cbn [option_map].
  now rewrite set_state_sets.
Qed.

Lemma relay_post_without_state_token_toggles_witness :
  let o := relay_post_handler true five_relays (bytes_of_string "/api/relay/2")
                              (RecvData (bytes_of_string "{}")) in
  r_effects o = [Lookup 2; SetState 2 true; Reply HTTP_200 (ReplyState 2 true)]
  /\ r_ret o = ESP_OK
  /\ option_map state (r_table o 2) = Some true.
Proof.
  apply (relay_post_without_state_token_toggles true five_relays
           (bytes_of_string "/api/relay/2") (bytes_of_string "{}") relay_off).
  - vm_compute. split; discriminate.
  - reflexivity.
  - reflexivity.
  - discriminate.
  - apply find_sub_none. reflexivity.
  - apply find_sub_none. reflexivity.
  - apply find_sub_none. reflexivity.
  - apply find_sub_none. reflexivity.
Defined.

(** ** The receive phase keeps its invariant *)

Lemma counter_after_app (r : Z) (tr tr' : list effect) :
  counter_after r (tr ++ tr') = counter_after (counter_after r tr) tr'.
Proof.
  revert r. induction tr as [|e tr IH]; intros r; [reflexivity|].
  destruct e as [| n [] r' | | | | | |]; simpl; apply IH.
Qed.

Lemma counter_follows_app (r : Z) (tr tr' : list effect) :
  counter_follows r (tr ++ tr') <->
  counter_follows r tr /\ counter_follows (counter_after r tr) tr'.
Proof.
  revert r. induction tr as [|e tr IH]; intros r; [simpl; tauto|].
  destruct e as [| n [] r' | | | | | |]; simpl; rewrite ?IH; tauto.
Qed.

Lemma length_mem_read (src : list byte) (n : nat) : length (mem_read src n) = n.
Proof.
  unfold mem_read. rewrite length_app, length_firstn, repeat_length. lia.
Qed.

Lemma esp_ota_write_cases (pf : platform) (fl src : list byte) (n : Z) :
  0 < n ->
  (exists data, len data = n /\ len fl + n <= capacity pf
                /\ esp_ota_write pf fl src n = (ESP_OK, fl ++ data))
  \/ (exists e, e <> ESP_OK /\ esp_ota_write pf fl src n = (e, fl)).
Proof.
  intros Hn. unfold esp_ota_write.
  destruct (Z.ltb_spec (capacity pf) (len fl + n)).
  - right. exists ESP_ERR_INVALID_SIZE. split; [discriminate | reflexivity].
  - destruct (flash_write pf fl (mem_read src (Z.to_nat n))) eqn:E; cbn [esp_err_eqb];
      try (right; eexists; split; [|reflexivity]; discriminate).
    left. eexists. split; [|split; [eassumption | reflexivity]].
    unfold len. rewrite length_mem_read. lia.
Qed.

(** A write that does not fit in the partition is rejected. *)
Lemma esp_ota_write_beyond_capacity (pf : platform) (fl src : list byte) (n : Z) :
  capacity pf < len fl + n ->
  esp_ota_write pf fl src n = (ESP_ERR_INVALID_SIZE, fl).
Proof.
  intros H. unfold esp_ota_write.
  destruct (Z.ltb_spec (capacity pf) (len fl + n)); [reflexivity | lia].
Qed.

Lemma receiving_emit (pf : platform) (s : session) (e : effect) :
  receiving pf s -> is_receiving e = true ->
  (forall n r, e <> OtaWrite n ESP_OK r) ->
  receiving pf (emit e s).
Proof.
  intros [Hq Hc] He Hw. split; cbn [emit trace received flash].
  - rewrite forallb_app, Hq. simpl. now rewrite He.
  - intros Hcap. destruct (Hc Hcap) as (H1 & H2 & H3).
    rewrite counter_follows_app, counter_after_app, H2.
    destruct e as [| n [] r' | | | | | |]; try discriminate; simpl; try tauto.
    exfalso. now apply (Hw n r').
Qed.

Lemma receiving_write (pf : platform) (s : session) (b data : list byte) (n : Z) :
  receiving pf s -> 0 < n -> len data = n -> len (flash s) + n <= capacity pf ->
  receiving pf {| buf := b; received := wrap32 (received s + n);
                  flash := flash s ++ data;
                  trace := trace s ++ [OtaWrite n ESP_OK (wrap32 (received s + n))] |}.
Proof.
  intros [Hq Hc] Hn Hd Hfit. split; cbn [trace received flash].
  - rewrite forallb_app, Hq. reflexivity.
  - intros Hcap. destruct (Hc Hcap) as (H1 & H2 & H3).
    assert (Hw : wrap32 (received s + n) = received s + n).
    { unfold wrap32. apply Z.mod_small. rewrite H3.
      pose proof (len_nonneg (flash s)). lia. }
    rewrite counter_follows_app, counter_after_app, H2, Hw. simpl.
    rewrite len_app, Hd, H3. repeat split; try assumption; lia.
Qed.

Lemma write_then_ok (pf : platform) (s : session) (off : nat) (n : Z)
    (k : session -> outcome + session) :
  receiving pf s ->
  (forall s', receiving pf s' -> phase_ok pf (k s')) ->
  phase_ok pf (write_then pf s off n k).
Proof.
  intros Hs Hk. unfold write_then.
  destruct (Z.ltb_spec 0 n) as [Hn|Hn]; [|now apply Hk].
  destruct (esp_ota_write_cases pf (flash s) (skipn off (buf s)) n Hn)
    as [(data & Hd & Hfit & ->) | (e & He & ->)].
  - apply Hk. now apply receiving_write.
  - destruct e; try congruence; now apply LeftWrite.
Qed.

Lemma multipart_first_chunk_ok (pf : platform) (boundary : list byte)
    (s : session) (initial_recv : Z) :
  receiving pf s -> phase_ok pf (multipart_first_chunk pf boundary s initial_recv).
Proof.
  intros Hs. unfold multipart_first_chunk.
  assert (Hbad : forall st msg e, st <> HTTP_200 ->
                   phase_ok pf (inl (abort_with s st msg e)))
    by (intros; now apply LeftAbort).
  destruct (locate_binary_start boundary (buf s) initial_recv) as [off0|];
    [|apply Hbad; discriminate].
  destruct (0 <? wrap32 (initial_recv - Z.of_nat off0)); [|apply Hbad; discriminate].
  destruct (nth off0 (buf s) NUL =? DASH).
  - destruct (c_strstr (skipn (S off0) (buf s)) CRLFCRLF); [|apply Hbad; discriminate].
    match goal with |- context [if ?c then _ else _] => destruct c end;
      [apply Hbad; discriminate|].
    apply write_then_ok; [exact Hs | intros s' Hs'; exact Hs'].
  - match goal with |- context [if ?c then _ else _] => destruct c end;
      [apply Hbad; discriminate|].
    apply write_then_ok; [exact Hs | intros s' Hs'; exact Hs'].
Qed.

Lemma multipart_loop_ok (pf : platform) (boundary : list byte) (content_length : Z)
    (sock : list recv_result) :
  forall s, receiving pf s ->
            phase_ok pf (multipart_loop pf boundary content_length s sock).
Proof.
  induction sock as [|r sock IH]; intros s Hs; cbn [multipart_loop];
    destruct ((content_length =? 0) || (received s <? content_length));
    try exact Hs.
  - apply receiving_emit; [exact Hs | reflexivity | discriminate].
  - destruct r as [[|b chunk]| |].
    + apply receiving_emit; [exact Hs | reflexivity | discriminate].
    + set (s1 := {| buf := store (buf s) (b :: chunk); received := received s;
                    flash := flash s; trace := trace s |}).
      assert (Hs1 : receiving pf s1) by exact Hs.
      destruct (scan_chunk boundary (buf s1) (len (b :: chunk))).
      * apply write_then_ok; [exact Hs1 | intros s' Hs'; exact Hs'].
      * apply write_then_ok; [exact Hs1 | intros s' Hs'; now apply IH].
      * destruct (check_chunk_end boundary (buf s1) (len (b :: chunk))).
        -- apply write_then_ok; [exact Hs1 | intros s' Hs'; exact Hs'].
        -- apply write_then_ok; [exact Hs1 | intros s' Hs'; now apply IH].
    + now apply IH.
    + apply LeftAbort; [exact Hs | discriminate].
Qed.

Lemma raw_loop_ok (pf : platform) (content_length : Z) (sock : list recv_result) :
  forall s, receiving pf s -> phase_ok pf (raw_loop pf content_length s sock).
Proof.
  induction sock as [|r sock IH]; intros s Hs; cbn [raw_loop];
    destruct ((content_length =? 0) || (received s <? content_length));
    try exact Hs.
  destruct r as [[|b chunk]| |]; [exact Hs | | now apply IH
                                 | apply LeftAbort; [exact Hs | discriminate]].
  set (s1 := {| buf := store (buf s) (b :: chunk); received := received s;
                flash := flash s; trace := trace s |}).
  assert (Hs1 : receiving pf s1) by exact Hs.
  assert (Hn : 0 < len (b :: chunk)) by (unfold len; simpl; lia).
  destruct (esp_ota_write_cases pf (flash s1) (buf s1) (len (b :: chunk)) Hn)
    as [(data & Hd & Hfit & ->) | (e & He & ->)].
  - apply IH. now apply receiving_write.
  - destruct e; try congruence; now apply LeftWrite.
Qed.

Lemma receive_phase_ok (pf : platform) (req : request) :
  phase_ok pf (receive_phase pf req).
Proof.
  assert (H0 : receiving pf (emit (OtaBegin ESP_OK) fresh_session)).
  { split; [reflexivity|]. intros _. cbn. repeat split. }
  unfold receive_phase.
  destruct (update_partition pf); cbn [negb]; [|apply LeftNoPartition].
  destruct (ota_begin pf) eqn:Eb; try (apply LeftBeginFailed; discriminate).
  destruct (malloc_buf pf) as [fresh|]; [|apply LeftAbort; [exact H0 | discriminate]].
  destruct (get_hdr (hdr_content_type req) 128) as [ct_ok content_type].
  destruct (socket req) as [|[chunk| |] sock];
    try (apply LeftAbort; [exact H0 | discriminate]); cbn [tl].
  - match goal with |- context [if ?c then _ else _] => destruct c end.
    + match goal with |- context [multipart_first_chunk pf ?b ?s ?n] =>
        pose proof (multipart_first_chunk_ok pf b s n H0) as Hf;
        destruct (multipart_first_chunk pf b s n) as [o|s2]
      end; [exact Hf | now apply multipart_loop_ok].
    + apply raw_loop_ok. exact H0.
  - match goal with |- context [if ?c then _ else _] => destruct c end.
    + match goal with |- context [multipart_first_chunk pf ?b ?s ?n] =>
        pose proof (multipart_first_chunk_ok pf b s n H0) as Hf;
        destruct (multipart_first_chunk pf b s n) as [o|s2]
      end; [exact Hf | now apply multipart_loop_ok].
    + apply raw_loop_ok. exact H0.
Qed.

(** ** Finalisation *)

Lemma finalize_cases (pf : platform) (s : session) : finalized pf s (finalize pf s).
Proof.
  unfold finalize. destruct (magic_ok pf s) eqn:Em; [|now apply FinBadMagic].
  destruct (ota_end pf (flash s)) eqn:Ee;
    try (apply FinEndFailed; [assumption | assumption | discriminate | discriminate]).
  - destruct (next_update_partition_again pf || find_first_partition pf) eqn:Ep;
      [|now apply FinNoBootPartition].
    destruct (set_boot_partition pf) eqn:Es;
      try (apply FinBootFailed; [assumption | assumption | assumption | assumption
                                | discriminate]).
    now apply FinRestart.
  - now apply FinInvalidImage.
Qed.

(** ** Reading traces *)

Lemma responses_app (a b : list effect) : responses (a ++ b) = responses a ++ responses b.
Proof.
  induction a as [|e a IH]; [reflexivity|].
  destruct e; simpl; now rewrite ?IH.
Qed.

Lemma quiet_trace (tr : list effect) :
  forallb is_receiving tr = true ->
  responses tr = [] /\ aborted tr = false /\ boot_switch_attempted tr = false
  /\ boot_target_set tr = false /\ restarted tr = false
  /\ write_rejected tr = false /\ region_discarded tr = false.
Proof.
  unfold region_discarded, aborted, boot_switch_attempted, boot_target_set,
    restarted, write_rejected.
  induction tr as [|e tr IH]; [now repeat split|].
  cbn [forallb]. rewrite andb_true_iff. intros [He Htr].
  destruct (IH Htr) as (H1 & H2 & H3 & H4 & H5 & H6 & H7).
  apply orb_false_iff in H7 as [_ H7].
  destruct e as [[]| n [] r | | | | | |]; try discriminate; cbn;
    rewrite ?H1, ?H2, ?H3, ?H4, ?H5, ?H6, ?H7; repeat split.
Qed.

Lemma quiet_no_set_boot (tr : list effect) (e : esp_err) :
  forallb is_receiving tr = true -> ~ In (SetBootPartition e) tr.
Proof.
  intros H Hin. rewrite forallb_forall in H. now specialize (H _ Hin).
Qed.

Lemma after_quiet (tr tail : list effect) :
  forallb is_receiving tr = true ->
  responses (tr ++ tail) = responses tail
  /\ aborted (tr ++ tail) = aborted tail
  /\ boot_switch_attempted (tr ++ tail) = boot_switch_attempted tail
  /\ boot_target_set (tr ++ tail) = boot_target_set tail
  /\ restarted (tr ++ tail) = restarted tail
  /\ write_rejected (tr ++ tail) = write_rejected tail
  /\ region_discarded (tr ++ tail) = region_discarded tail.
Proof.
  intros H. destruct (quiet_trace tr H) as (H1 & H2 & H3 & H4 & H5 & H6 & H7).
  unfold region_discarded in *. apply orb_false_iff in H7 as [_ H7].
  unfold aborted, boot_switch_attempted, boot_target_set, restarted,
    write_rejected in *.
  rewrite responses_app, !existsb_app, H1, H2, H3, H4, H5, H6, H7.
  now repeat split.
Qed.

Ltac norm_trace :=
  cbn [emit trace final abort_with ret received flash fresh_session];
  rewrite <- ?app_assoc; cbn [app].

Ltac quiet_tail Hq :=
  match goal with
  | |- context [?tr ++ ?tail] =>
      let R1 := fresh "R" in let R2 := fresh "R" in let R3 := fresh "R" in
      let R4 := fresh "R" in let R5 := fresh "R" in let R6 := fresh "R" in
      let R7 := fresh "R" in
      destruct (after_quiet tr tail Hq) as (R1 & R2 & R3 & R4 & R5 & R6 & R7);
      rewrite ?R1, ?R2, ?R3, ?R4, ?R5, ?R6, ?R7;
      clear R1 R2 R3 R4 R5 R6 R7
  end.

Lemma magic_mismatch (pf : platform) (s : session) :
  nth 0 (flash s) (unwritten_byte pf) <> IMAGE_MAGIC -> magic_ok pf s = false.
Proof.
  intros H. unfold magic_ok, read_magic_byte.
  destruct (partition_read_ok pf); [|reflexivity].
  cbn [andb]. now apply Z.eqb_neq.
Qed.

Lemma magic_match (pf : platform) (s : session) :
  partition_read_ok pf = true ->
  nth 0 (flash s) (unwritten_byte pf) = IMAGE_MAGIC -> magic_ok pf s = true.
Proof.
  intros Hr He. unfold magic_ok, read_magic_byte. rewrite Hr, He. reflexivity.
Qed.

(** ** The validator and the committer *)

Lemma quiet_no_ota_end (tr : list effect) (r : esp_err) :
  forallb is_receiving tr = true -> ~ In (OtaEnd r) tr.
Proof.
  intros Hq Hin. rewrite forallb_forall in Hq. apply Hq in Hin. discriminate.
Qed.

(** C6, as the handler has it.  When the receive phase has ended and the
    first byte of the written region is not 0xE9, or [esp_ota_end]
    reports that the image failed validation, the handler answers 400 and
    returns an error, and [esp_ota_set_boot_partition] is never called,
    so the region never becomes the boot target and the device does not
    restart.  The region is aborted on the first path only: when the
    first byte is not 0xE9 the handler calls [esp_ota_abort] and never
    reaches [esp_ota_end]; when the byte is read back as 0xE9 and
    [esp_ota_end] fails, the handler answers and returns without calling
    [esp_ota_abort]. *)
Theorem invalid_image_is_rejected_and_never_boots :
  forall (pf : platform) (req : request) (s : session),
    receive_phase pf req = inr s ->
    nth 0 (flash s) (unwritten_byte pf) <> IMAGE_MAGIC
    \/ ota_end pf (flash s) = ESP_ERR_OTA_VALIDATE_FAILED ->
    let o := update_post_handler pf req in
    let tr := trace (final o) in
    (exists msg, responses tr = [(HTTP_400, msg)])
    /\ (exists e, ret o = Some e /\ e <> ESP_OK)
    /\ boot_switch_attempted tr = false
    /\ boot_target_set tr = false
    /\ restarted tr = false
    /\ (nth 0 (flash s) (unwritten_byte pf) <> IMAGE_MAGIC ->
        aborted tr = true
        /\ (forall r, ~ In (OtaEnd r) tr)
        /\ responses tr
           = [(HTTP_400, "Image validation failed - invalid magic byte"%string)])
    /\ (partition_read_ok pf = true ->
        nth 0 (flash s) (unwritten_byte pf) = IMAGE_MAGIC ->
        aborted tr = false
        /\ In (OtaEnd ESP_ERR_OTA_VALIDATE_FAILED) tr
        /\ responses tr = [(HTTP_400, "Image validation failed"%string)]).
Proof.
  intros pf req s Hphase Hbad o tr. subst tr o. unfold update_post_handler.
  pose proof (receive_phase_ok pf req) as Hok. rewrite Hphase in *.
  cbn [then_finalize phase_ok] in *. destruct Hok as [Hq _].
  destruct (finalize_cases pf s) as [Hm | Hm He | e Hm He Hne Hnv | Hm He Hp
                                    | e Hm He Hp Hs Hne | Hm He Hp Hs];
    try (exfalso; destruct Hbad as [Hx | Hx];
         [apply magic_mismatch in Hx | ]; congruence).
  - assert (Hnoend : forall r, ~ In (OtaEnd r)
                                 (trace s ++ [OtaAbort;
                                    Respond HTTP_400
                                      "Image validation failed - invalid magic byte"])).
    { intros r Hin. apply in_app_or in Hin as [Hin|Hin];
        [now apply (quiet_no_ota_end _ r Hq)|].
      destruct Hin as [H|[H|[]]]; discriminate. }
    norm_trace. quiet_tail Hq. cbn [responses existsb is_abort is_set_boot is_restart orb].
    split; [eauto|]. split; [eexists; split; [reflexivity | discriminate]|].
    split; [reflexivity|]. split; [reflexivity|]. split; [reflexivity|].
    split.
    + intros _. split; [reflexivity|]. split; [exact Hnoend | reflexivity].
    + intros Hr Hb. rewrite (magic_match pf s Hr Hb) in Hm. discriminate.
  - norm_trace. quiet_tail Hq. cbn [responses existsb is_abort is_set_boot is_restart orb].
    split; [eauto|]. split; [eexists; split; [reflexivity | discriminate]|].
    split; [reflexivity|]. split; [reflexivity|]. split; [reflexivity|].
    split; [intros Hx; apply magic_mismatch in Hx; congruence|].
    intros _ _. split; [reflexivity|]. split; [|reflexivity].
    apply in_or_app. right. now left.
Qed.

(** C4, as the handler has it.  When [esp_ota_set_boot_partition] fails,
    the only response the client has been sent is the 200 success
    message, and it went out before the call: in the order of the
    handler's effects the 200 stands directly in front of the one attempt
    to switch, which ends the run.  The error reaches the HTTP server
    only as the return value of the handler.  The image stays as
    validated ([esp_ota_end] succeeded, [esp_ota_abort] is not called),
    it is not made the boot target, and the device does not restart. *)
Theorem boot_switch_failure_follows_success_response :
  forall (pf : platform) (req : request) (e : esp_err),
    let o := update_post_handler pf req in
    let tr := trace (final o) in
    In (SetBootPartition e) tr -> e <> ESP_OK ->
    responses tr = [(HTTP_200, success_message)]
    /\ ret o = Some e
    /\ In (OtaEnd ESP_OK) tr
    /\ aborted tr = false
    /\ boot_target_set tr = false
    /\ restarted tr = false
    /\ (exists before,
          tr = before ++ [Respond HTTP_200 success_message; SetBootPartition e]
          /\ boot_switch_attempted before = false
          /\ responses before = []).
Proof.
  intros pf req e o tr Hin Hne. subst tr o. revert Hin. unfold update_post_handler.
  pose proof (receive_phase_ok pf req) as Hok.
  destruct (receive_phase pf req) as [o|s]; cbn [then_finalize phase_ok] in *.
  - destruct Hok as [ | err Herr | s st msg e' [Hq _] Hst | s n e' [Hq _] He' Hn];
      norm_trace; intros Hin; exfalso.
    + destruct Hin as [Hin|[]]; discriminate.
    + destruct Hin as [Hin|[Hin|[]]]; discriminate.
    + apply in_app_or in Hin as [Hin|Hin]; [now apply (quiet_no_set_boot _ _ Hq Hin)|].
      destruct Hin as [Hin|[Hin|[]]]; discriminate.
    + apply in_app_or in Hin as [Hin|Hin]; [now apply (quiet_no_set_boot _ _ Hq Hin)|].
      destruct Hin as [Hin|[Hin|[Hin|[]]]]; discriminate.
  - destruct Hok as [Hq _].
    destruct (finalize_cases pf s) as [Hm | Hm He | e' Hm He Hne' Hnv | Hm He Hp
                                      | e' Hm He Hp Hs Hne' | Hm He Hp Hs];
      norm_trace; intros Hin;
      (apply in_app_or in Hin as [Hin|Hin];
       [exfalso; now apply (quiet_no_set_boot _ _ Hq Hin)|]).
    + exfalso. destruct Hin as [Hin|[Hin|[]]]; discriminate.
    + exfalso. destruct Hin as [Hin|[Hin|[]]]; discriminate.
    + exfalso. destruct Hin as [Hin|[Hin|[]]]; discriminate.
    + exfalso. destruct Hin as [Hin|[Hin|[Hin|[]]]]; discriminate.
    + destruct Hin as [Hin|[Hin|[Hin|[]]]]; try discriminate.
      injection Hin as <-.
      assert (Horder : exists before,
                 trace s ++ [OtaEnd ESP_OK; Respond HTTP_200 success_message;
                             SetBootPartition e']
                 = before ++ [Respond HTTP_200 success_message; SetBootPartition e']
                 /\ boot_switch_attempted before = false
                 /\ responses before = []).
      { exists (trace s ++ [OtaEnd ESP_OK]). rewrite <- app_assoc.
        split; [reflexivity|].
        destruct (after_quiet (trace s) [OtaEnd ESP_OK] Hq) as (R1 & _ & R3 & _).
        rewrite R1, R3. split; reflexivity. }
      quiet_tail Hq.
      split; [reflexivity|]. split; [reflexivity|].
      split; [apply in_or_app; right; now left|].
      split; [reflexivity|]. split; [cbn; now destruct e'|].
      split; [reflexivity | exact Horder].
    + exfalso. destruct Hin as [Hin|[Hin|[Hin|[Hin|[]]]]]; try discriminate.
      injection Hin as <-. now apply Hne.
Qed.

Lemma invalid_image_is_rejected_and_never_boots_witness :
  (exists s,
     receive_phase healthy_platform scenario_D = inr s
     /\ flash s = [0; 1; 2]
     /\ let o := update_post_handler healthy_platform scenario_D in
        let tr := trace (final o) in
        (exists msg, responses tr = [(HTTP_400, msg)])
        /\ (exists e, ret o = Some e /\ e <> ESP_OK)
        /\ boot_switch_attempted tr = false
        /\ boot_target_set tr = false
        /\ restarted tr = false
        /\ (nth 0 (flash s) (unwritten_byte healthy_platform) <> IMAGE_MAGIC ->
            aborted tr = true
            /\ (forall r, ~ In (OtaEnd r) tr)
            /\ responses tr
               = [(HTTP_400, "Image validation failed - invalid magic byte"%string)])
        /\ (partition_read_ok healthy_platform = true ->
            nth 0 (flash s) (unwritten_byte healthy_platform) = IMAGE_MAGIC ->
            aborted tr = false
            /\ In (OtaEnd ESP_ERR_OTA_VALIDATE_FAILED) tr
            /\ responses tr = [(HTTP_400, "Image validation failed"%string)]))
  /\ (exists s,
        receive_phase integrity_check_fails scenario_B = inr s
        /\ flash s = [233; 1; 2]
        /\ let o := update_post_handler integrity_check_fails scenario_B in
           let tr := trace (final o) in
           (exists msg, responses tr = [(HTTP_400, msg)])
           /\ (exists e, ret o = Some e /\ e <> ESP_OK)
           /\ boot_switch_attempted tr = false
           /\ boot_target_set tr = false
           /\ restarted tr = false
           /\ (nth 0 (flash s) (unwritten_byte integrity_check_fails) <> IMAGE_MAGIC ->
               aborted tr = true
               /\ (forall r, ~ In (OtaEnd r) tr)
               /\ responses tr
                  = [(HTTP_400,
                      "Image validation failed - invalid magic byte"%string)])
           /\ (partition_read_ok integrity_check_fails = true ->
               nth 0 (flash s) (unwritten_byte integrity_check_fails) = IMAGE_MAGIC ->
               aborted tr = false
               /\ In (OtaEnd ESP_ERR_OTA_VALIDATE_FAILED) tr
               /\ responses tr = [(HTTP_400, "Image validation failed"%string)])).
Proof.
  split.
  - eexists. split; [vm_compute; reflexivity|]. split; [reflexivity|].
    apply (invalid_image_is_rejected_and_never_boots healthy_platform scenario_D).
    + vm_compute. reflexivity.
    + left. vm_compute. discriminate.
  - eexists. split; [vm_compute; reflexivity|]. split; [reflexivity|].
    apply (invalid_image_is_rejected_and_never_boots integrity_check_fails scenario_B).
    + vm_compute. reflexivity.
    + right. reflexivity.
Defined.

(** C6, counterexample.  Scenario B on a platform whose [esp_ota_end]
    reports a failed validation: the image starts with E9, so the magic
    byte test passes, [esp_ota_end] fails, and the handler answers 400
    and returns the error; [esp_ota_abort] is not among its calls. *)
Lemma failed_integrity_check_is_not_aborted :
  let o := update_post_handler integrity_check_fails scenario_B in
  trace (final o) =
    [OtaBegin ESP_OK; OtaWrite 2 ESP_OK 2; OtaWrite 1 ESP_OK 3;
     OtaEnd ESP_ERR_OTA_VALIDATE_FAILED; Respond HTTP_400 "Image validation failed"]
  /\ flash (final o) = [233; 1; 2]
  /\ ret o = Some ESP_ERR_OTA_VALIDATE_FAILED
  /\ aborted (trace (final o)) = false
  /\ ~ In OtaAbort (trace (final o)).
Proof.
  vm_compute. split; [reflexivity|]. split; [reflexivity|]. split; [reflexivity|].
  split; [reflexivity|].
  intros [H|[H|[H|[H|[H|[]]]]]]; discriminate.
Qed.

Lemma boot_switch_failure_follows_success_response_witness :
  let o := update_post_handler boot_switch_fails scenario_B in
  let tr := trace (final o) in
  responses tr = [(HTTP_200, success_message)]
  /\ ret o = Some ESP_FAIL
  /\ In (OtaEnd ESP_OK) tr
  /\ aborted tr = false
  /\ boot_target_set tr = false
  /\ restarted tr = false
  /\ (exists before,
        tr = before ++ [Respond HTTP_200 success_message; SetBootPartition ESP_FAIL]
        /\ boot_switch_attempted before = false
        /\ responses before = []).
Proof.
  apply (boot_switch_failure_follows_success_response boot_switch_fails scenario_B ESP_FAIL).
  - vm_compute. tauto.
  - discriminate.
Defined.

(** C4, counterexample.  With a boot-partition switch that fails, the
    upload of scenario B ends with the handler returning [ESP_FAIL], yet
    the one response the client receives is the 200 success message: no
    response carries the error. *)
Lemma boot_switch_error_not_sent_to_client :
  let o := update_post_handler boot_switch_fails scenario_B in
  trace (final o) =
    [OtaBegin ESP_OK; OtaWrite 2 ESP_OK 2; OtaWrite 1 ESP_OK 3; OtaEnd ESP_OK;
     Respond HTTP_200 success_message; SetBootPartition ESP_FAIL]
  /\ ret o = Some ESP_FAIL
  /\ flash (final o) = [233; 1; 2]
  /\ ~ (exists st msg, In (st, msg) (responses (trace (final o))) /\ st <> HTTP_200).
Proof.
  vm_compute. repeat split. intros (st & msg & [H|[]] & Hst).
  injection H as <- _. now apply Hst.
Qed.

(** ** The flash sink *)

Lemma counters_after (pf : platform) (s : session) (tail : list effect) :
  receiving pf s -> capacity pf < 2 ^ 32 ->
  counter_follows (received s) tail -> counter_after (received s) tail = received s ->
  counter_follows 0 (trace s ++ tail)
  /\ counter_after 0 (trace s ++ tail) = received s
  /\ received s = len (flash s).
Proof.
  intros [_ Hc] Hcap Hf Ha. destruct (Hc Hcap) as (H1 & H2 & H3).
  rewrite counter_follows_app, counter_after_app, H2. repeat split; assumption.
Qed.

(** C8.  On a partition smaller than 4 GB, in every run of the handler
    each accepted [esp_ota_write] of [n] bytes (always with [0 < n])
    moves [received] from [r] to exactly [r + n], a rejected write leaves
    it alone, and at the end [received] is the number of bytes in flash;
    so the counter never decreases.  A write beyond the capacity of the
    partition is rejected, and after any rejected write the handler calls
    [esp_ota_abort], answers 500 and returns the error, without calling
    [esp_ota_set_boot_partition] and without restarting. *)
Theorem received_counts_accepted_writes :
  forall (pf : platform) (req : request),
    capacity pf < 2 ^ 32 ->
    let o := update_post_handler pf req in
    let tr := trace (final o) in
    counter_follows 0 tr
    /\ counter_after 0 tr = received (final o)
    /\ received (final o) = len (flash (final o))
    /\ (forall fl src n, capacity pf < len fl + n ->
                         esp_ota_write pf fl src n = (ESP_ERR_INVALID_SIZE, fl))
    /\ (write_rejected tr = true ->
        aborted tr = true
        /\ boot_switch_attempted tr = false
        /\ boot_target_set tr = false
        /\ restarted tr = false
        /\ responses tr = [(HTTP_500, "OTA write failed"%string)]
        /\ exists e, ret o = Some e /\ e <> ESP_OK).
Proof.
  intros pf req Hcap o tr. subst tr o. unfold update_post_handler.
  pose proof (receive_phase_ok pf req) as Hok.
  assert (Hcapw : forall fl src n, capacity pf < len fl + n ->
                    esp_ota_write pf fl src n = (ESP_ERR_INVALID_SIZE, fl))
    by (intros; now apply esp_ota_write_beyond_capacity).
  destruct (receive_phase pf req) as [o|s]; cbn [then_finalize phase_ok] in *.
  - destruct Hok as [ | err Herr | s st msg e' Hs Hst | s n e' Hs He' Hn].
    + cbn. refine (conj I (conj eq_refl (conj eq_refl (conj Hcapw _)))).
      intros Hrej. discriminate Hrej.
    + cbn. refine (conj I (conj eq_refl (conj eq_refl (conj Hcapw _)))).
      intros Hrej. discriminate Hrej.
    + norm_trace.
      destruct (counters_after pf s [OtaAbort; Respond st msg] Hs Hcap)
        as (H1 & H2 & H3); [exact I | reflexivity |].
      destruct Hs as [Hq _]. refine (conj H1 (conj H2 (conj H3 (conj Hcapw _)))).
      quiet_tail Hq. cbn. intros Hrej. discriminate Hrej.
    + norm_trace.
      destruct (counters_after pf s
                  [OtaWrite n e' (received s); OtaAbort;
                   Respond HTTP_500 "OTA write failed"] Hs Hcap)
        as (H1 & H2 & H3);
        [destruct e'; cbn; try tauto; congruence
        | destruct e'; cbn; try reflexivity; congruence |].
      destruct Hs as [Hq _]. refine (conj H1 (conj H2 (conj H3 (conj Hcapw _)))).
      quiet_tail Hq. intros _. cbn. repeat split; try reflexivity.
      exists e'. now split.
  - destruct (finalize_cases pf s) as [Hm | Hm He | e' Hm He Hne' Hnv | Hm He Hp
                                      | e' Hm He Hp Hs Hne' | Hm He Hp Hs];
      norm_trace;
      match goal with
      | |- context [trace s ++ ?tail] =>
          destruct (counters_after pf s tail Hok Hcap) as (H1 & H2 & H3);
          [cbn; tauto | reflexivity |]
      end;
      destruct Hok as [Hq _];
      refine (conj H1 (conj H2 (conj H3 (conj Hcapw _))));
      quiet_tail Hq; cbn; intros Hrej; discriminate Hrej.
Qed.

Lemma received_counts_accepted_writes_witness :
  let o := update_post_handler tiny_partition scenario_B in
  let tr := trace (final o) in
  tr = [OtaBegin ESP_OK; OtaWrite 2 ESP_OK 2; OtaWrite 1 ESP_ERR_INVALID_SIZE 2;
        OtaAbort; Respond HTTP_500 "OTA write failed"]
  /\ counter_follows 0 tr
  /\ received (final o) = len (flash (final o))
  /\ aborted tr = true
  /\ boot_switch_attempted tr = false.
Proof.
  assert (Hcap : capacity tiny_partition < 2 ^ 32) by (vm_compute; reflexivity).
  destruct (received_counts_accepted_writes tiny_partition scenario_B Hcap)
    as (H1 & _ & H3 & _ & H5).
  destruct H5 as (H6 & H7 & _); [vm_compute; reflexivity|].
  split; [vm_compute; reflexivity|]. repeat split; assumption.
Defined.

(** ** End of stream and timeouts *)

(** C7.  While the multipart loop is still reading, a read that returns 0
    (the peer closed, no end boundary found yet) ends the loop and hands
    the session, unchanged but for the log entry, to finalisation: no
    error is reported.  With no content length the close is logged as
    all data received; with a content length and [received] within the
    boundary overhead plus 100 bytes of it, as a complete image. *)
Theorem connection_close_ends_the_stream :
  forall (pf : platform) (boundary : list byte) (content_length : Z)
         (s : session) (sock : list recv_result),
    (content_length =? 0) || (received s <? content_length) = true ->
    let closed := emit (ConnectionClosed
                          (classify_close boundary content_length (received s))) s in
    multipart_loop pf boundary content_length s (RecvData [] :: sock) = inr closed
    /\ multipart_loop pf boundary content_length s [] = inr closed
    /\ then_finalize pf (multipart_loop pf boundary content_length s
                                        (RecvData [] :: sock))
       = finalize pf closed
    /\ (content_length = 0 ->
        classify_close boundary content_length (received s) = CloseNoLength)
    /\ (0 < content_length ->
        wrap32 (content_length
                - (if 0 <? len boundary then len boundary + 6 else 200) - 100)
        <= received s ->
        classify_close boundary content_length (received s) = CloseLikelyComplete).
Proof.
  intros pf boundary content_length s sock Hloop closed. subst closed.
  cbn [multipart_loop]. rewrite Hloop. cbn [then_finalize].
  repeat split.
  - intros ->. reflexivity.
  - intros Hpos Htol. unfold classify_close.
    destruct (Z.ltb_spec 0 content_length); [|lia].
    destruct (Z.leb_spec
                (wrap32 (content_length
                         - (if 0 <? len boundary then len boundary + 6 else 200) - 100))
                (received s)); [reflexivity | lia].
Qed.

Lemma connection_close_ends_the_stream_witness :
  let s := {| buf := []; received := 900; flash := repeat 233 900; trace := [] |} in
  multipart_loop healthy_platform boundary_X 1000 s [RecvData []]
  = inr (emit (ConnectionClosed CloseLikelyComplete) s).
Proof.
  intros s.
  destruct (connection_close_ends_the_stream healthy_platform boundary_X 1000 s [])
    as (H1 & _ & _ & _ & H5); [reflexivity|].
  rewrite H1, H5; [reflexivity | lia | vm_compute; discriminate].
Defined.

Lemma multipart_loop_timeouts (pf : platform) (boundary : list byte)
    (content_length : Z) (s : session) (n : nat) (sock : list recv_result) :
  multipart_loop pf boundary content_length s (timeouts n ++ sock)
  = multipart_loop pf boundary content_length s sock.
Proof.
  induction n as [|n IH]; [reflexivity|].
  cbn [timeouts repeat app multipart_loop]. fold (timeouts n). rewrite IH.
  destruct ((content_length =? 0) || (received s <? content_length)) eqn:E;
    [reflexivity|].
  destruct sock; cbn [multipart_loop]; now rewrite E.
Qed.

Lemma raw_loop_timeouts (pf : platform) (content_length : Z) (s : session)
    (n : nat) (sock : list recv_result) :
  raw_loop pf content_length s (timeouts n ++ sock) = raw_loop pf content_length s sock.
Proof.
  induction n as [|n IH]; [reflexivity|].
  cbn [timeouts repeat app raw_loop]. fold (timeouts n). rewrite IH.
  destruct ((content_length =? 0) || (received s <? content_length)) eqn:E;
    [reflexivity|].
  destruct sock; cbn [raw_loop]; now rewrite E.
Qed.

Lemma body_length_timeouts (n : nat) (sock : list recv_result) :
  body_length (timeouts n ++ sock) = body_length sock.
Proof. induction n as [|n IH]; [reflexivity | exact IH]. Qed.

Lemma receive_phase_timeouts (pf : platform) (cl : Z) (h1 h2 : option (list byte))
    (r : recv_result) (n : nat) (sock : list recv_result) :
  receive_phase pf {| req_content_len := cl; hdr_content_length := h1;
                      hdr_content_type := h2; socket := r :: timeouts n ++ sock |}
  = receive_phase pf {| req_content_len := cl; hdr_content_length := h1;
                        hdr_content_type := h2; socket := r :: sock |}.
Proof.
  unfold receive_phase, effective_content_len.
  cbn [socket tl hdr_content_type hdr_content_length req_content_len].
  destruct (update_partition pf); [|reflexivity]. cbn [negb].
  destruct (ota_begin pf); try reflexivity.
  destruct (malloc_buf pf); [|reflexivity].
  destruct (get_hdr h2 128). destruct r; try reflexivity.
  rewrite raw_loop_timeouts.
  match goal with |- context [if ?c then _ else _] => destruct c end; [|reflexivity].
  match goal with |- context [multipart_first_chunk pf ?b ?s ?k] =>
    destruct (multipart_first_chunk pf b s k) end; [reflexivity|].
  apply multipart_loop_timeouts.
Qed.

(** C5, as the handler has it.  A timeout of a read inside either
    receive loop is retried and leaves no trace: any number of
    consecutive timeouts in front of the remaining socket results gives
    the run those results give alone, so no count of retries makes the
    handler give up.  A timeout of the very first read is different: it
    ends the session at once with [esp_ota_abort] and a 500. *)
Theorem read_timeouts_are_retried_without_bound :
  forall (pf : platform) (boundary : list byte) (content_length : Z)
         (s : session) (n : nat) (sock : list recv_result),
    multipart_loop pf boundary content_length s (timeouts n ++ sock)
    = multipart_loop pf boundary content_length s sock
    /\ raw_loop pf content_length s (timeouts n ++ sock)
       = raw_loop pf content_length s sock
    /\ (forall (req : request) (fresh : list byte) (rest : list recv_result),
          update_partition pf = true -> ota_begin pf = ESP_OK ->
          malloc_buf pf = Some fresh ->
          socket req = RecvTimeout :: rest ->
          update_post_handler pf req
          = abort_with (emit (OtaBegin ESP_OK) fresh_session)
                       HTTP_500 "Receive failed" ESP_FAIL).
Proof.
  intros pf boundary content_length s n sock.
  split; [apply multipart_loop_timeouts|].
  split; [apply raw_loop_timeouts|].
  intros req fresh rest Hp Hb Hm Hs.
  unfold update_post_handler, receive_phase. rewrite Hp, Hb, Hm, Hs. cbn [negb].
  now destruct (get_hdr (hdr_content_type req) 128).
Qed.

Lemma read_timeouts_are_retried_without_bound_witness :
  update_post_handler healthy_platform (upload_of [RecvTimeout; RecvData scenario_B_chunk1])
  = abort_with (emit (OtaBegin ESP_OK) fresh_session) HTTP_500 "Receive failed" ESP_FAIL.
Proof.
  destruct (read_timeouts_are_retried_without_bound healthy_platform boundary_X 0
              fresh_session 0 []) as (_ & _ & H).
  apply (H _ (repeat NUL (Z.to_nat buf_size)) [RecvData scenario_B_chunk1]); reflexivity.
Defined.

(** C5, counterexample.  No bound on the number of consecutive timeouts
    makes the session abort: scenario B with any number of timeouts
    between its two chunks runs exactly as scenario B does, to the
    restart. *)
Lemma no_bound_on_timeout_retries :
  ~ exists N : nat,
      forall n : nat, (N <= n)%nat ->
        aborted (trace (final (update_post_handler healthy_platform
                                 (scenario_B_with_timeouts n)))) = true.
Proof.
  intros [N H]. specialize (H N (le_n N)).
  unfold update_post_handler, scenario_B_with_timeouts, upload_of in H.
  rewrite receive_phase_timeouts in H. cbn [body_length] in H.
  rewrite body_length_timeouts in H. vm_compute in H. discriminate H.
Qed.

(** ** The boundary scanner: a chunk without boundary *)

Lemma starts_with_app_l (p q m : list byte) :
  starts_with (p ++ q) m = true -> starts_with p m = true.
Proof.
  intros H. apply starts_with_spec in H as [rest ->].
  rewrite <- app_assoc. apply starts_with_app.
Qed.

Lemma occurs_skipn (pat l : list byte) (i : nat) :
  occurs pat (skipn i l) -> occurs pat l.
Proof.
  intros H. rewrite <- (firstn_skipn i l). now apply occurs_app_r.
Qed.

(** A match that ends inside the chunk is a match in the chunk. *)
Lemma starts_with_within (pat chunk stale : list byte) (i : nat) :
  starts_with pat (skipn i (chunk ++ stale)) = true ->
  (i + length pat <= length chunk)%nat ->
  occurs pat chunk.
Proof.
  intros H Hl. apply (occurs_skipn pat chunk i), starts_with_occurs.
  apply (starts_with_shorten pat (skipn i chunk) stale).
  - rewrite skipn_app in H.
    replace (i - length chunk)%nat with 0%nat in H by lia. exact H.
  - rewrite length_skipn. lia.
Qed.

Lemma tail_scan_none (marker chunk stale : list byte) (recv_len : Z) :
  recv_len = len chunk -> ~ occurs marker chunk ->
  forall n i,
    tail_scan marker (marker ++ DASHDASH) (chunk ++ stale) recv_len i n = None.
Proof.
  intros -> Hno. induction n as [|n IH]; intros i; [reflexivity|].
  cbn [tail_scan].
  destruct ((nth i (chunk ++ stale) NUL =? DASH)
            && (nth (i + 1) (chunk ++ stale) NUL =? DASH)); [|apply IH].
  destruct ((Z.of_nat i + len (marker ++ DASHDASH) <=? len chunk)
            && starts_with (marker ++ DASHDASH) (skipn i (chunk ++ stale))) eqn:E1.
  - exfalso. apply andb_true_iff in E1 as [E1 E2]. apply Z.leb_le in E1.
    apply Hno. apply (starts_with_within marker chunk stale i).
    + eapply starts_with_app_l. exact E2.
    + rewrite len_app in E1. unfold len in E1. lia.
  - destruct ((Z.of_nat i + len marker <=? len chunk)
              && starts_with marker (skipn i (chunk ++ stale))) eqn:E2; [|apply IH].
    exfalso. apply andb_true_iff in E2 as [E2 E3]. apply Z.leb_le in E2.
    apply Hno. apply (starts_with_within marker chunk stale i E3).
    unfold len in E2. lia.
Qed.

Lemma find_sub_none_in (marker pat l : list byte) :
  occurs marker pat -> ~ occurs marker l -> find_sub pat l = None.
Proof.
  intros Hm Hno. apply find_sub_none. intros Ho. apply Hno.
  eapply occurs_trans; eassumption.
Qed.

Lemma marker_in_final (boundary : list byte) :
  occurs (DASHDASH ++ boundary) (CRLF ++ DASHDASH ++ boundary ++ DASHDASH).
Proof. exists CRLF, DASHDASH. now rewrite <- !app_assoc. Qed.

Lemma marker_in_part (boundary : list byte) :
  occurs (DASHDASH ++ boundary) (CRLF ++ DASHDASH ++ boundary ++ CRLF).
Proof. exists CRLF, CRLF. now rewrite <- !app_assoc. Qed.

(** With the marker (two dashes and the boundary) neither in the chunk
    nor in the C string the buffer holds after the read, no step of the
    scanner finds a boundary. *)
Lemma scan_without_marker (boundary chunk stale : list byte) :
  ~ occurs (DASHDASH ++ boundary) chunk ->
  ~ occurs (DASHDASH ++ boundary) (c_str (chunk ++ stale)) ->
  scan_chunk boundary (chunk ++ stale) (len chunk) = NoBoundary
  /\ check_chunk_end boundary (chunk ++ stale) (len chunk) = None.
Proof.
  intros Hc Hs. split.
  - unfold scan_chunk. destruct (0 <? len boundary) eqn:Eb.
    + unfold c_strstr.
      rewrite (find_sub_none_in _ _ _ (marker_in_final boundary) Hs).
      rewrite (find_sub_none_in _ _ _ (marker_in_part boundary) Hs).
      destruct ((len (DASHDASH ++ boundary ++ DASHDASH) <=? len chunk)
                && starts_with (DASHDASH ++ boundary ++ DASHDASH) (chunk ++ stale))
        eqn:E; [|reflexivity].
      exfalso. apply andb_true_iff in E as [E1 E2]. apply Z.leb_le in E1.
      apply Hc. apply (starts_with_within (DASHDASH ++ boundary) chunk stale 0).
      * apply (starts_with_app_l _ DASHDASH). now rewrite <- app_assoc.
      * rewrite !len_app in E1. rewrite length_app. unfold len in E1. lia.
    + assert (boundary = []) as ->.
      { apply Z.ltb_ge in Eb. destruct boundary; [reflexivity|].
        unfold len in Eb. simpl in Eb. lia. }
      rewrite app_nil_r in Hc, Hs. unfold c_strstr.
      rewrite (find_sub_none_in DASHDASH (CRLF ++ DASHDASH) _); [|now exists CRLF, []|exact Hs].
      destruct ((2 <=? len chunk) && starts_with DASHDASH (chunk ++ stale)) eqn:E;
        [|reflexivity].
      exfalso. apply andb_true_iff in E as [E1 E2]. apply Z.leb_le in E1.
      apply Hc. apply (starts_with_within DASHDASH chunk stale 0 E2).
      unfold len in E1. simpl. lia.
  - unfold check_chunk_end.
    destruct ((0 <? len boundary) && (4 <? len chunk)); [|reflexivity].
    replace (DASHDASH ++ boundary ++ DASHDASH) with ((DASHDASH ++ boundary) ++ DASHDASH)
      by now rewrite <- app_assoc.
    now apply tail_scan_none.
Qed.

Lemma mem_read_store (b chunk : list byte) :
  mem_read (skipn 0 (store b chunk)) (Z.to_nat (len chunk)) = chunk.
Proof.
  unfold mem_read, store, len. rewrite Nat2Z.id. cbn [skipn].
  rewrite firstn_app, Nat.sub_diag, firstn_all. cbn [firstn].
  rewrite app_nil_r, length_app.
  replace (length chunk - (length chunk + length (skipn (length chunk) b)))%nat
    with 0%nat by lia.
  apply app_nil_r.
Qed.

(** C3, as the handler has it.  There is no carry: when the marker (two
    dashes and the boundary) occurs neither in the chunk just read nor in
    the C string the buffer then holds, the handler passes the whole
    chunk to [esp_ota_write] at once and holds nothing back; when the
    write is accepted, the next read starts from a session whose flash
    has grown by exactly the chunk. *)
Theorem chunk_without_boundary_is_written_whole :
  forall (pf : platform) (boundary : list byte) (content_length : Z)
         (s : session) (chunk : list byte) (sock : list recv_result),
    chunk <> [] ->
    (content_length =? 0) || (received s <? content_length) = true ->
    ~ occurs (DASHDASH ++ boundary) chunk ->
    ~ occurs (DASHDASH ++ boundary) (c_str (store (buf s) chunk)) ->
    let s1 := {| buf := store (buf s) chunk; received := received s;
                 flash := flash s; trace := trace s |} in
    multipart_loop pf boundary content_length s (RecvData chunk :: sock)
    = write_then pf s1 0 (len chunk)
        (fun s2 => multipart_loop pf boundary content_length s2 sock)
    /\ (len (flash s) + len chunk <= capacity pf ->
        flash_write pf (flash s) chunk = ESP_OK ->
        let r := wrap32 (received s + len chunk) in
        multipart_loop pf boundary content_length s (RecvData chunk :: sock)
        = multipart_loop pf boundary content_length
            {| buf := buf s1; received := r; flash := flash s ++ chunk;
               trace := trace s ++ [OtaWrite (len chunk) ESP_OK r] |} sock).
Proof.
  intros pf boundary content_length s chunk sock Hne Hloop Hc Hs s1.
  assert (Hstep :
    multipart_loop pf boundary content_length s (RecvData chunk :: sock)
    = write_then pf s1 0 (len chunk)
        (fun s2 => multipart_loop pf boundary content_length s2 sock)).
  { destruct chunk as [|b chunk]; [congruence|].
    cbn [multipart_loop]. rewrite Hloop. fold s1. cbn [buf s1].
    unfold store in *.
    destruct (scan_without_marker boundary (b :: chunk)
                (skipn (length (b :: chunk)) (buf s)) Hc Hs) as [-> ->].
    reflexivity. }
  split; [exact Hstep|].
  intros Hfit Hw r. rewrite Hstep. unfold write_then.
  assert (Hn : (0 <? len chunk) = true).
  { apply Z.ltb_lt. destruct chunk; [congruence|]. unfold len. simpl. lia. }
  rewrite Hn. subst s1. cbn [flash buf received trace] in *.
  unfold esp_ota_write.
  destruct (Z.ltb_spec (capacity pf) (len (flash s) + len chunk)); [lia|].
  rewrite mem_read_store, Hw. reflexivity.
Qed.

Lemma chunk_without_boundary_is_written_whole_witness :
  multipart_loop healthy_platform boundary_X 200 after_first_chunk
                 [RecvData plain_chunk; RecvFail]
  = multipart_loop healthy_platform boundary_X 200
      {| buf := store (buf after_first_chunk) plain_chunk; received := 12;
         flash := [233; 1] ++ plain_chunk;
         trace := trace after_first_chunk ++ [OtaWrite 10 ESP_OK 12] |} [RecvFail].
Proof.
  destruct (chunk_without_boundary_is_written_whole healthy_platform boundary_X 200
              after_first_chunk plain_chunk [RecvFail]) as [_ H].
  - discriminate.
  - reflexivity.
  - apply find_sub_none. vm_compute. reflexivity.
  - apply find_sub_none. vm_compute. reflexivity.
  - apply H; [vm_compute; discriminate | reflexivity].
Defined.

(** C3, counterexample.  After the first chunk of scenario B, a ten-byte
    chunk without any boundary is read.  The design calls for holding
    back its last five bytes ([min(10, len(boundary) + 4)]); the handler
    writes all ten bytes to flash before the next read (which fails
    here, so that nothing else is written). *)
Lemma whole_chunk_written_nothing_held_back :
  ~ occurs (DASHDASH ++ boundary_X) plain_chunk
  /\ held_back_by_design boundary_X [] plain_chunk = 5
  /\ len plain_chunk - held_back_by_design boundary_X [] plain_chunk = 5
  /\ exists o,
       multipart_loop healthy_platform boundary_X 200 after_first_chunk
                      [RecvData plain_chunk; RecvFail] = inl o
       /\ flash (final o) = [233; 1] ++ plain_chunk
       /\ trace (final o) =
            [OtaBegin ESP_OK; OtaWrite 2 ESP_OK 2; OtaWrite 10 ESP_OK 12;
             OtaAbort; Respond HTTP_500 "Receive failed"].
Proof.
  split; [apply find_sub_none; vm_compute; reflexivity|].
  split; [reflexivity|]. split; [reflexivity|].
  eexists. split; [vm_compute; reflexivity|]. split; reflexivity.
Qed.

(** ** The boundary scanner: the closing delimiter *)

Lemma starts_with_split (q x y : list byte) :
  starts_with q (x ++ y) = true ->
  starts_with q x = true
  \/ exists q2, q = x ++ q2 /\ q2 <> [] /\ starts_with q2 y = true.
Proof.
  revert x. induction q as [|a q IH]; intros x H; [now left|].
  destruct x as [|b x].
  - right. exists (a :: q). repeat split; [discriminate | exact H].
  - cbn [app starts_with] in H. apply andb_true_iff in H as [Hab H].
    apply Z.eqb_eq in Hab as ->.
    destruct (IH x H) as [Hx | (q2 & -> & Hne & Hq2)].
    + left. cbn [starts_with]. now rewrite Z.eqb_refl.
    + right. now exists q2.
Qed.

(** A pattern that does not occur in [x] and does not contain [c] cannot
    start inside [x] and run over a [c] behind it. *)
Lemma no_start_across (m x rest : list byte) (c : byte) :
  ~ occurs m x -> ~ In c m -> starts_with m (x ++ c :: rest) = false.
Proof.
  intros Hno Hc. destruct (starts_with m (x ++ c :: rest)) eqn:E; [|reflexivity].
  exfalso. destruct (starts_with_split _ _ _ E) as [Hx | (q2 & -> & Hne & Hq2)].
  - apply Hno. now apply starts_with_occurs.
  - destruct q2 as [|d q2]; [congruence|].
    cbn [starts_with] in Hq2. apply andb_true_iff in Hq2 as [Hd _].
    apply Z.eqb_eq in Hd as ->. apply Hc, in_or_app. right. now left.
Qed.

Lemma find_sub_unique_head (c : byte) (q pre post : list byte) :
  ~ In c q -> ~ occurs (c :: q) pre ->
  find_sub (c :: q) (pre ++ (c :: q) ++ post) = Some (length pre).
Proof.
  intros Hc. induction pre as [|b pre IH]; intros Hno; rewrite find_sub_unfold.
  - cbn [app]. change (c :: q ++ post) with ((c :: q) ++ post).
    now rewrite starts_with_app.
  - destruct (starts_with (c :: q) ((b :: pre) ++ (c :: q) ++ post)) eqn:E.
    + exfalso. cbn [app starts_with] in E. apply andb_true_iff in E as [Hcb E].
      apply Z.eqb_eq in Hcb as <-.
      destruct (starts_with_split q pre _ E) as [Hx | (q2 & -> & Hne & Hq2)].
      * apply Hno. apply starts_with_occurs. cbn [starts_with].
        now rewrite Z.eqb_refl.
      * destruct q2 as [|d q2]; [congruence|].
        cbn [starts_with] in Hq2. apply andb_true_iff in Hq2 as [Hd _].
        apply Z.eqb_eq in Hd as ->. apply Hc, in_or_app. right. now left.
    + change ((b :: pre) ++ (c :: q) ++ post) with (b :: (pre ++ (c :: q) ++ post)).
      cbv beta iota. rewrite IH; [reflexivity|].
      intros H. apply Hno. now apply occurs_cons.
Qed.

Lemma skipn_exact (a b : list byte) : skipn (length a) (a ++ b) = b.
Proof. rewrite skipn_app, skipn_all, Nat.sub_diag. reflexivity. Qed.

Lemma skipn_past (a b : list byte) (k : nat) :
  skipn (length a + k) (a ++ b) = skipn k b.
Proof.
  rewrite skipn_app, skipn_all2 by lia.
  replace (length a + k - length a)%nat with k by lia. reflexivity.
Qed.

Lemma skipn_inside (a b : list byte) (i : nat) :
  (i <= length a)%nat -> skipn i (a ++ b) = skipn i a ++ b.
Proof.
  intros H. rewrite skipn_app. replace (i - length a)%nat with 0%nat by lia.
  reflexivity.
Qed.

Lemma mem_read_prefix (x y : list byte) : mem_read (x ++ y) (length x) = x.
Proof.
  unfold mem_read. rewrite firstn_app, Nat.sub_diag, firstn_all. cbn [firstn].
  rewrite app_nil_r, length_app.
  replace (length x - (length x + length y))%nat with 0%nat by lia.
  apply app_nil_r.
Qed.

Lemma c_str_with_nul (m rest : list byte) : In NUL m -> c_str (m ++ rest) = c_str m.
Proof.
  induction m as [|b m IH]; intros H; [destruct H|].
  cbn [app c_str]. destruct (Z.eqb_spec b NUL) as [_|Hb]; [reflexivity|].
  rewrite IH; [reflexivity|]. destruct H as [H|H]; [congruence | exact H].
Qed.

Lemma occurs_c_str (pat m : list byte) : occurs pat (c_str m) -> occurs pat m.
Proof.
  intros H. destruct (c_str_prefix m) as [rest E]. rewrite E. now apply occurs_app_l.
Qed.

Section ClosingDelimiter.

Variables (B Fl post : list byte).
Hypothesis B_no_nul : ~ In NUL B.
Hypothesis B_no_cr : ~ In CR B.
Hypothesis Fl_clean : ~ occurs (DASH :: DASH :: B) Fl.

(** The buffer from the start of the last chunk on: the rest of the
    payload, the closing delimiter, and whatever follows. *)
Let b : list byte := Fl ++ CR :: LF :: DASH :: DASH :: B ++ DASH :: DASH :: post.

Let marker : list byte := DASH :: DASH :: B.
Let final_pat : list byte := CR :: LF :: DASH :: DASH :: B ++ [DASH; DASH].

Lemma marker_no_cr : ~ In CR marker.
Proof.
  unfold marker. intros [H|[H|H]]; try discriminate. now apply B_no_cr.
Qed.

Lemma final_pat_no_nul : ~ In NUL final_pat.
Proof.
  unfold final_pat. intros [H|[H|[H|[H|H]]]]; try discriminate.
  apply in_app_or in H as [H|[H|[H|[]]]]; try discriminate. now apply B_no_nul.
Qed.

Lemma b_final_pat : b = Fl ++ final_pat ++ post.
Proof.
  unfold b, final_pat. cbn [app]. now rewrite <- app_assoc.
Qed.

Lemma final_pat_not_in_payload : ~ occurs final_pat Fl.
Proof.
  intros H. apply Fl_clean. eapply occurs_trans; [|exact H].
  exists [CR; LF], [DASH; DASH]. reflexivity.
Qed.

(** With no NUL in the rest of the payload, [strstr] finds the closing
    delimiter right behind it. *)
Lemma strstr_finds_closing_delimiter :
  ~ In NUL Fl -> c_strstr b final_pat = Some (length Fl).
Proof.
  intros Hnul. unfold c_strstr. rewrite b_final_pat.
  rewrite (c_str_app_no_nul Fl _ Hnul), (c_str_app_no_nul final_pat _ final_pat_no_nul).
  unfold final_pat. apply find_sub_unique_head.
  - intros [H|[H|[H|H]]]; try discriminate.
    apply in_app_or in H as [H|[H|[H|[]]]]; try discriminate. now apply B_no_cr.
  - exact final_pat_not_in_payload.
Qed.

(** Nothing that looks like the marker starts before the real one. *)
Lemma marker_not_before (i : nat) :
  (i < length Fl + 2)%nat -> starts_with marker (skipn i b) = false.
Proof.
  intros Hi. unfold b. destruct (Nat.le_gt_cases i (length Fl)) as [Hle|Hgt].
  - rewrite skipn_inside by exact Hle. apply no_start_across.
    + intros H. apply Fl_clean. now apply (occurs_skipn _ _ i).
    + exact marker_no_cr.
  - replace i with (length Fl + 1)%nat by lia. rewrite skipn_past. reflexivity.
Qed.

Lemma marker_not_at_start : starts_with marker b = false.
Proof. apply (marker_not_before 0). lia. Qed.

Lemma tail_scan_finds (recv_len : Z) (n i : nat) :
  Z.of_nat (length Fl) + len B + 6 <= recv_len ->
  (i <= length Fl + 2)%nat -> (length Fl + 2 < i + n)%nat ->
  tail_scan marker (marker ++ DASHDASH) b recv_len i n = Some (len Fl).
Proof.
  intros Hlen. revert i. induction n as [|n IH]; intros i Hi Hn; [lia|].
  cbn [tail_scan].
  destruct (Nat.eq_dec i (length Fl + 2)) as [->|Hne].
  - unfold b at 1 2. rewrite !app_nth2_plus.
    replace (length Fl + 2 + 1)%nat with (length Fl + 3)%nat by lia.
    rewrite app_nth2_plus. cbn [nth]. cbn [Z.eqb Pos.eqb DASH andb].
    unfold b at 1. rewrite skipn_past. cbn [skipn].
    replace (DASH :: DASH :: B ++ DASH :: DASH :: post)
      with ((marker ++ DASHDASH) ++ post)
      by (unfold marker, DASHDASH; cbn [app]; now rewrite <- app_assoc).
    rewrite starts_with_app, andb_true_r.
    assert (Hfit : (Z.of_nat (length Fl + 2) + len (marker ++ DASHDASH) <=? recv_len)
                   = true).
    { apply Z.leb_le. rewrite len_app. unfold marker, len in *.
      cbn [length DASHDASH]. lia. }
    rewrite Hfit. f_equal. unfold cut_before.
    replace (length Fl + 2 - 2)%nat with (length Fl + 0)%nat by lia.
    replace (length Fl + 2 - 1)%nat with (length Fl + 1)%nat by lia.
    unfold b. rewrite !app_nth2_plus. cbn [nth].
    replace (2 <=? length Fl + 2)%nat with true
      by (symmetry; apply Nat.leb_le; lia).
    cbn. unfold len. lia.
  - assert (Hlt : (i < length Fl + 2)%nat) by lia.
    pose proof (marker_not_before i Hlt) as Hm.
    assert (Hf : starts_with (marker ++ DASHDASH) (skipn i b) = false).
    { destruct (starts_with (marker ++ DASHDASH) (skipn i b)) eqn:E; [|reflexivity].
      apply starts_with_app_l in E. congruence. }
    rewrite Hm, Hf, !andb_false_r.
    destruct ((nth i b NUL =? DASH) && (nth (i + 1) b NUL =? DASH));
      apply IH; lia.
Qed.

End ClosingDelimiter.

(** What the scanner decides on the chunk that carries the closing
    delimiter: the payload in front of it is all that gets written. *)
Lemma last_window_scan (B Fl tail stale : list byte) :
  B <> [] -> ~ In NUL B -> ~ In CR B ->
  ~ occurs (DASHDASH ++ B) Fl ->
  len B + len tail <= 196 ->
  let wl := Fl ++ closing_delimiter B ++ tail in
  scan_chunk B (wl ++ stale) (len wl) = FinalBoundary (len Fl)
  \/ (scan_chunk B (wl ++ stale) (len wl) = NoBoundary
      /\ check_chunk_end B (wl ++ stale) (len wl) = Some (len Fl)).
Proof.
  intros HB Hnul Hcr Hclean Hshort wl.
  assert (Hb : wl ++ stale
               = Fl ++ CR :: LF :: DASH :: DASH :: B ++ DASH :: DASH :: (tail ++ stale)).
  { unfold wl, closing_delimiter, CRLF, DASHDASH. cbn [app].
    rewrite <- !app_assoc. cbn [app]. rewrite <- !app_assoc. reflexivity. }
  assert (Hlen : len wl = len Fl + len B + 6 + len tail).
  { unfold wl, closing_delimiter, CRLF, DASHDASH. rewrite !len_app.
    unfold len. cbn [length]. lia. }
  assert (HBpos : (0 <? len B) = true).
  { apply Z.ltb_lt. destruct B; [congruence|]. unfold len. cbn [length]. lia. }
  change (DASHDASH ++ B) with (DASH :: DASH :: B) in Hclean.
  rewrite Hb. unfold scan_chunk. rewrite HBpos.
  destruct (In_dec Z.eq_dec NUL Fl) as [Hin|Hnin].
  - right.
    assert (Hcs : ~ occurs (DASHDASH ++ B)
                    (c_str (Fl ++ CR :: LF :: DASH :: DASH :: B
                               ++ DASH :: DASH :: (tail ++ stale)))).
    { rewrite (c_str_with_nul Fl _ Hin). intros H. apply Hclean.
      now apply occurs_c_str. }
    unfold c_strstr.
    rewrite (find_sub_none_in _ _ _ (marker_in_final B) Hcs).
    rewrite (find_sub_none_in _ _ _ (marker_in_part B) Hcs).
    assert (Hst : starts_with (DASHDASH ++ B ++ DASHDASH)
                    (Fl ++ CR :: LF :: DASH :: DASH :: B
                        ++ DASH :: DASH :: (tail ++ stale)) = false).
    { match goal with |- ?x = false => destruct x eqn:E end; [|reflexivity].
      change (DASHDASH ++ B ++ DASHDASH) with ((DASH :: DASH :: B) ++ DASHDASH) in E.
      apply starts_with_app_l in E.
      rewrite (marker_not_at_start B Fl _ Hcr Hclean) in E. discriminate. }
    rewrite Hst, andb_false_r. split; [reflexivity|].
    unfold check_chunk_end. rewrite HBpos.
    assert (H4 : (4 <? len wl) = true).
    { apply Z.ltb_lt. pose proof (len_nonneg Fl). pose proof (len_nonneg tail).
      apply Z.ltb_lt in HBpos. lia. }
    rewrite H4. cbn [andb].
    change (DASHDASH ++ B ++ DASHDASH) with ((DASH :: DASH :: B) ++ DASHDASH).
    change (DASHDASH ++ B) with (DASH :: DASH :: B).
    pose proof (len_nonneg Fl). pose proof (len_nonneg tail).
    apply Z.ltb_lt in HBpos.
    apply (tail_scan_finds B Fl (tail ++ stale) Hcr Hclean).
    + unfold len in *. lia.
    + unfold len in *. lia.
    + unfold len in *. lia.
  - left. unfold c_strstr.
    change (CRLF ++ DASHDASH ++ B ++ DASHDASH)
      with (CR :: LF :: DASH :: DASH :: B ++ [DASH; DASH]).
    pose proof (strstr_finds_closing_delimiter B Fl (tail ++ stale) Hnul Hcr Hclean Hnin)
      as H. unfold c_strstr in H. rewrite H. reflexivity.
Qed.

(** ** The receive loop, step by step *)

Lemma multipart_loop_data (pf : platform) (B : list byte) (cl : Z) (s : session)
    (chunk : list byte) (sock : list recv_result) :
  chunk <> [] ->
  (cl =? 0) || (received s <? cl) = true ->
  multipart_loop pf B cl s (RecvData chunk :: sock) =
  let s1 := {| buf := store (buf s) chunk; received := received s;
               flash := flash s; trace := trace s |} in
  match scan_chunk B (buf s1) (len chunk) with
  | FinalBoundary d => write_then pf s1 0 d inr
  | PartBoundary d => write_then pf s1 0 d (fun s2 => multipart_loop pf B cl s2 sock)
  | NoBoundary =>
      match check_chunk_end B (buf s1) (len chunk) with
      | Some w => write_then pf s1 0 w inr
      | None => write_then pf s1 0 (len chunk)
                           (fun s2 => multipart_loop pf B cl s2 sock)
      end
  end.
Proof.
  intros Hne Hloop. destruct chunk as [|b chunk]; [congruence|].
  cbn [multipart_loop]. rewrite Hloop. reflexivity.
Qed.

Lemma write_then_accepted (pf : platform) (s : session) (off : nat) (n : Z)
    (k : session -> outcome + session) (data : list byte) :
  0 < n -> len (flash s) + n <= capacity pf ->
  (forall fl d, flash_write pf fl d = ESP_OK) ->
  mem_read (skipn off (buf s)) (Z.to_nat n) = data ->
  write_then pf s off n k =
  k {| buf := buf s; received := wrap32 (received s + n); flash := flash s ++ data;
       trace := trace s ++ [OtaWrite n ESP_OK (wrap32 (received s + n))] |}.
Proof.
  intros Hn Hfit Hw Hd. unfold write_then, esp_ota_write.
  destruct (Z.ltb_spec 0 n); [|lia].
  destruct (Z.ltb_spec (capacity pf) (len (flash s) + n)); [lia|].
  rewrite Hd, Hw. reflexivity.
Qed.

Lemma write_then_nothing (pf : platform) (s : session) (off : nat)
    (k : session -> outcome + session) :
  write_then pf s off 0 k = k s.
Proof. reflexivity. Qed.

Lemma wrap32_small (z : Z) : 0 <= z < 2 ^ 32 -> wrap32 z = z.
Proof. intros H. unfold wrap32. now apply Z.mod_small. Qed.

Lemma len_concat_cons (m : list byte) (ms : list (list byte)) :
  len (concat (m :: ms)) = len m + len (concat ms).
Proof. cbn [concat]. apply len_app. Qed.

(** The windows between the first and the last: whole pieces of the
    payload, each with a NUL in it, are appended to flash one by one. *)
Lemma middle_windows_written (pf : platform) (B : list byte) (cl bound : Z)
    (sock : list recv_result) :
  (forall fl d, flash_write pf fl d = ESP_OK) ->
  bound <= capacity pf -> capacity pf < 2 ^ 32 ->
  cl = 0 \/ bound < cl ->
  forall (middles : list (list byte)) (s : session),
    Forall (fun m => In NUL m) middles ->
    Forall (fun m => ~ occurs (DASHDASH ++ B) m) middles ->
    received s = len (flash s) ->
    len (flash s) + len (concat middles) <= bound ->
    exists s',
      multipart_loop pf B cl s (map RecvData middles ++ sock)
      = multipart_loop pf B cl s' sock
      /\ flash s' = flash s ++ concat middles
      /\ received s' = len (flash s').
Proof.
  intros Hw Hcap H32 Hcl. induction middles as [|m middles IH];
    intros s Hnul Hclean Hrec Hfit.
  - exists s. cbn [map app concat]. rewrite app_nil_r. now repeat split.
  - apply Forall_cons_iff in Hnul as [Hm Hnul].
    apply Forall_cons_iff in Hclean as [Hcm Hclean].
    rewrite len_concat_cons in Hfit.
    pose proof (len_nonneg (flash s)). pose proof (len_nonneg (concat middles)).
    assert (Hmpos : 0 < len m).
    { destruct m; [destruct Hm|]. unfold len. cbn [length]. lia. }
    assert (Hloop : (cl =? 0) || (received s <? cl) = true).
    { destruct Hcl as [->|Hcl]; [reflexivity|]. apply orb_true_iff. right.
      apply Z.ltb_lt. lia. }
    cbn [map app]. rewrite multipart_loop_data; [|intros ->; destruct Hm | exact Hloop].
    cbv zeta. cbn [buf]. unfold store.
    destruct (scan_without_marker B m (skipn (length m) (buf s))) as [-> ->].
    + exact Hcm.
    + rewrite (c_str_with_nul m _ Hm). intros H'. apply Hcm. now apply occurs_c_str.
    + rewrite (write_then_accepted pf _ 0 (len m) _ m); cbn [flash buf received trace];
        [ | exact Hmpos | lia | exact Hw | apply (mem_read_store (buf s) m)].
      match goal with |- context [multipart_loop pf B cl ?s1 _] =>
        destruct (IH s1) as (s' & E & Hfl & Hrc) end;
        cbn [flash received]; try assumption.
      * rewrite len_app, Hrec. apply wrap32_small. lia.
      * rewrite len_app. lia.
      * exists s'. split; [exact E|]. split; [|exact Hrc].
        rewrite Hfl. cbn [flash concat]. now rewrite <- app_assoc.
Qed.

(** The window with the closing delimiter: the payload in front of the
    delimiter is written and the loop ends. *)
Lemma last_window_written (pf : platform) (B : list byte) (cl : Z) (s : session)
    (Fl tail : list byte) (sock : list recv_result) :
  B <> [] -> ~ In NUL B -> ~ In CR B ->
  ~ occurs (DASHDASH ++ B) Fl ->
  len B + len tail <= 196 ->
  (forall fl d, flash_write pf fl d = ESP_OK) ->
  len (flash s) + len Fl <= capacity pf -> capacity pf < 2 ^ 32 ->
  received s = len (flash s) ->
  cl = 0 \/ received s < cl ->
  exists s',
    multipart_loop pf B cl s (RecvData (Fl ++ closing_delimiter B ++ tail) :: sock)
    = inr s'
    /\ flash s' = flash s ++ Fl
    /\ received s' = len (flash s').
Proof.
  intros HB Hnul Hcr Hclean Hshort Hw Hfit H32 Hrec Hcl.
  assert (Hloop : (cl =? 0) || (received s <? cl) = true).
  { destruct Hcl as [->|Hcl]; [reflexivity|]. apply orb_true_iff. right.
    now apply Z.ltb_lt. }
  rewrite multipart_loop_data; [| | exact Hloop].
  2:{ unfold closing_delimiter, CRLF. destruct Fl; discriminate. }
  cbv zeta. cbn [buf]. unfold store.
  set (stale := skipn (length (Fl ++ closing_delimiter B ++ tail)) (buf s)).
  set (s1 := {| buf := (Fl ++ closing_delimiter B ++ tail) ++ stale;
                received := received s; flash := flash s; trace := trace s |}).
  assert (Hgoal : exists s', write_then pf s1 0 (len Fl) inr = inr s'
                             /\ flash s' = flash s ++ Fl
                             /\ received s' = len (flash s')).
  { pose proof (len_nonneg (flash s)). pose proof (len_nonneg Fl).
    destruct (Z.ltb_spec 0 (len Fl)) as [Hpos|Hzero].
    - rewrite (write_then_accepted pf s1 0 (len Fl) inr Fl);
        [ | exact Hpos | exact Hfit | exact Hw | ].
      + eexists. split; [reflexivity|]. cbn [flash received s1]. split; [reflexivity|].
        rewrite len_app, Hrec. apply wrap32_small. lia.
      + cbn [skipn buf s1]. rewrite <- app_assoc. unfold len. rewrite Nat2Z.id.
        apply mem_read_prefix.
    - assert (HFl : len Fl = 0) by lia. rewrite HFl.
      assert (Fl = []) as -> by (apply length_zero_iff_nil; unfold len in HFl; lia).
      exists s1. rewrite write_then_nothing. cbn [flash received].
      now rewrite app_nil_r. }
  destruct (last_window_scan B Fl tail stale HB Hnul Hcr Hclean Hshort)
    as [-> | [-> ->]]; exact Hgoal.
Qed.

Lemma hd_not_dash (F1 rest : list byte) (m : list byte) :
  F1 <> [] -> hd NUL F1 <> DASH -> starts_with (DASH :: m) (F1 ++ rest) = false.
Proof.
  intros Hne Hhd. destruct F1 as [|f F1]; [congruence|].
  cbn [app starts_with hd] in *. apply andb_false_iff. left.
  apply Z.eqb_neq. congruence.
Qed.

(** The first window: the part headers are skipped and the payload
    behind them is written. *)
Lemma first_chunk_written (pf : platform) (B H F1 fresh : list byte) (s : session) :
  B <> [] -> ~ In NUL H -> ~ occurs CRLFCRLF (H ++ [CR; LF; CR]) ->
  F1 <> [] -> hd NUL F1 <> DASH ->
  (forall fl d, flash_write pf fl d = ESP_OK) ->
  len F1 <= capacity pf -> capacity pf < 2 ^ 32 ->
  buf s = store fresh (part_preamble H B ++ F1) ->
  received s = 0 -> flash s = [] ->
  exists s',
    multipart_first_chunk pf B s (len (part_preamble H B ++ F1)) = inr s'
    /\ flash s' = F1 /\ received s' = len (flash s').
Proof.
  intros HB HHnul HHsep HF1 Hhd Hw Hfit H32 Hbuf Hrec Hfl.
  set (stale := skipn (length (part_preamble H B ++ F1)) fresh).
  set (marker := DASHDASH ++ B).
  assert (Hb1 : buf s = marker ++ CRLF ++ H ++ CRLFCRLF ++ F1 ++ stale).
  { rewrite Hbuf. unfold store. fold stale. unfold part_preamble, marker.
    now rewrite <- !app_assoc. }
  assert (Hb2 : skipn (length marker) (buf s) = CRLF ++ H ++ CRLFCRLF ++ F1 ++ stale)
    by (rewrite Hb1; apply skipn_exact).
  assert (Hb3 : skipn (length marker + 2) (buf s) = H ++ CRLFCRLF ++ F1 ++ stale).
  { rewrite Hb1, skipn_past. reflexivity. }
  assert (Hpre : length (part_preamble H B) = (length marker + 2 + length H + 4)%nat).
  { unfold part_preamble, marker. rewrite !length_app. cbn [length CRLF CRLFCRLF DASHDASH].
    lia. }
  assert (Hb4 : skipn (length marker + 2 + length H + 4) (buf s) = F1 ++ stale).
  { rewrite <- Hpre, Hbuf. unfold store. fold stale. rewrite <- app_assoc.
    apply skipn_exact. }
  assert (Hlen : len (part_preamble H B ++ F1)
                 = Z.of_nat (length marker + 2 + length H + 4) + len F1).
  { rewrite len_app. unfold len. rewrite Hpre. reflexivity. }
  assert (HF1pos : 0 < len F1).
  { destruct F1; [congruence|]. unfold len. cbn [length]. lia. }
  assert (HBpos : (0 <? len B) = true).
  { apply Z.ltb_lt. destruct B; [congruence|]. unfold len. cbn [length]. lia. }
  assert (Hfind : c_strstr (H ++ CRLFCRLF ++ F1 ++ stale) CRLFCRLF = Some (length H)).
  { unfold c_strstr. rewrite (c_str_app_no_nul H _ HHnul).
    rewrite (c_str_app_no_nul CRLFCRLF).
    - apply find_sub_first; [discriminate | exact HHsep].
    - intros [E|[E|[E|[E|[]]]]]; discriminate. }
  unfold multipart_first_chunk, locate_binary_start. rewrite HBpos. fold marker.
  assert (C1 : (len marker <=? len (part_preamble H B ++ F1)) = true).
  { apply Z.leb_le. rewrite Hlen. unfold len. lia. }
  assert (C2 : starts_with marker (buf s) = true)
    by (rewrite Hb1; apply starts_with_app).
  assert (C3 : (len marker + 2 <=? len (part_preamble H B ++ F1)) = true).
  { apply Z.leb_le. rewrite Hlen. unfold len. lia. }
  assert (C4 : starts_with CRLF (skipn (length marker) (buf s)) = true)
    by (rewrite Hb2; apply starts_with_app).
  rewrite C1, C2, C3, C4. cbn [andb]. rewrite Hb3, Hfind. cbn [option_map].
  rewrite Hlen.
  replace (Z.of_nat (length marker + 2 + length H + 4) + len F1
           - Z.of_nat (length marker + 2 + length H + 4)) with (len F1) by lia.
  rewrite (wrap32_small (len F1)) by lia.
  destruct (Z.ltb_spec 0 (len F1)) as [_|]; [|lia].
  assert (Hnth : nth (length marker + 2 + length H + 4) (buf s) NUL = hd NUL F1).
  { rewrite <- (firstn_skipn (length marker + 2 + length H + 4) (buf s)) at 1.
    rewrite Hb4.
    assert (Hl : length (firstn (length marker + 2 + length H + 4) (buf s))
                 = (length marker + 2 + length H + 4)%nat).
    { apply firstn_length_le. rewrite Hbuf. unfold store. rewrite !length_app. lia. }
    rewrite <- Hl at 1. rewrite <- (Nat.add_0_r (length (firstn _ _))).
    rewrite app_nth2_plus. destruct F1; [congruence | reflexivity]. }
  rewrite Hnth. destruct (Z.eqb_spec (hd NUL F1) DASH) as [E|_]; [congruence|].
  rewrite Hb4. unfold marker at 2. change (DASHDASH ++ B) with (DASH :: DASH :: B).
  rewrite (hd_not_dash F1 stale _ HF1 Hhd), andb_false_r.
  rewrite (write_then_accepted pf s _ (len F1) inr F1);
    [ | exact HF1pos | rewrite Hfl; unfold len at 1; cbn [length]; lia | exact Hw | ].
  - eexists. split; [reflexivity|]. cbn [flash received]. rewrite Hfl, Hrec.
    split; [reflexivity|]. cbn [app]. apply wrap32_small. lia.
  - rewrite Hb4. unfold len. rewrite Nat2Z.id. apply mem_read_prefix.
Qed.

Lemma occurs_concat (pat m : list byte) (ms : list (list byte)) :
  In m ms -> occurs pat m -> occurs pat (concat ms).
Proof.
  intros Hin Ho. apply in_split in Hin as (l1 & l2 & ->).
  rewrite concat_app. cbn [concat]. now apply occurs_inner.
Qed.

Lemma finalize_keeps_flash (pf : platform) (s : session) :
  flash (final (finalize pf s)) = flash s.
Proof. destruct (finalize_cases pf s); reflexivity. Qed.

Lemma occurs_length (pat l : list byte) : occurs pat l -> len pat <= len l.
Proof.
  intros (pre & post & ->). rewrite !len_app.
  pose proof (len_nonneg pre). pose proof (len_nonneg post). lia.
Qed.

(** ** Round trip *)

(** C1, as the handler has it.  Take a firmware image [F] that does not
    start with a dash and in which the marker (two dashes and the
    boundary) does not occur, and deliver [wrap_multipart(F, boundary)]
    in windows such that the first window holds the whole part header
    and at least one byte of [F], one later window holds the whole
    closing delimiter (CRLF, two dashes, boundary, two dashes) behind the
    last bytes of [F], and every window in between, a piece of [F],
    contains a NUL byte.  Then the receive phase ends normally with
    exactly [F] in flash, [received] equal to its length, and the
    handler goes on to validate that image.  (The boundary is the one
    the handler reads from Content-Type; it has at most 194 bytes and no
    NUL or CR; the part headers hold no NUL and end at the first blank
    line; the platform calls succeed and the partition can hold [F].) *)
Theorem multipart_round_trip_on_aligned_windows :
  forall (pf : platform) (req : request) (fresh ct B H F1 Fl tail : list byte)
         (middles rest : list (list byte)),
    update_partition pf = true -> ota_begin pf = ESP_OK ->
    malloc_buf pf = Some fresh ->
    (forall fl d, flash_write pf fl d = ESP_OK) ->
    capacity pf < 2 ^ 32 ->
    hdr_content_type req = Some ct -> ~ In NUL ct -> (length ct < 128)%nat ->
    occurs (bytes_of_string "multipart/form-data") ct ->
    boundary_from_header ct = B ->
    B <> [] -> ~ In NUL B -> ~ In CR B -> len B <= 194 ->
    ~ In NUL H -> ~ occurs CRLFCRLF (H ++ [CR; LF; CR]) ->
    let F := F1 ++ concat middles ++ Fl in
    F1 <> [] -> hd NUL F1 <> DASH ->
    ~ occurs (DASHDASH ++ B) F ->
    len F <= capacity pf ->
    Forall (fun m => In NUL m) middles ->
    effective_content_len req = 0 \/ len F < effective_content_len req ->
    let windows := (part_preamble H B ++ F1)
                   :: middles ++ (Fl ++ closing_delimiter B ++ tail) :: rest in
    tail ++ concat rest = CRLF ->
    socket req = map RecvData windows ->
    concat windows = wrap_multipart H F B
    /\ exists s,
         receive_phase pf req = inr s
         /\ flash s = F
         /\ received s = len F
         /\ update_post_handler pf req = finalize pf s
         /\ flash (final (update_post_handler pf req)) = F.
Proof.
  intros pf req fresh ct B H F1 Fl tail middles rest
         Hpart Hbegin Hmalloc Hw H32 Hct Hctnul Hctlen Hmp Hbound
         HB HBnul HBcr HBlen HHnul HHsep F HF1 Hhd Hclean Hfit Hmid Hcl
         windows Htail Hsock.
  split.
  { unfold windows, wrap_multipart, F, part_preamble, closing_delimiter.
    cbn [concat]. rewrite concat_app. cbn [concat].
    rewrite <- !app_assoc. rewrite Htail. reflexivity. }
  assert (HlenF : len F = len F1 + len (concat middles) + len Fl).
  { unfold F. rewrite !len_app. lia. }
  pose proof (len_nonneg F1). pose proof (len_nonneg (concat middles)).
  pose proof (len_nonneg Fl).
  assert (Htl : len tail <= 2).
  { apply (f_equal len) in Htail. rewrite len_app in Htail.
    pose proof (len_nonneg (concat rest)). unfold len in *. cbn [length CRLF] in Htail.
    lia. }
  assert (Hcm : Forall (fun m => ~ occurs (DASHDASH ++ B) m) middles).
  { apply Forall_forall. intros m Hin Ho. apply Hclean. unfold F.
    apply occurs_inner. eapply occurs_concat; eassumption. }
  assert (HcFl : ~ occurs (DASHDASH ++ B) Fl).
  { intros Ho. apply Hclean. unfold F. now apply occurs_app_r, occurs_app_r. }
  (* the first chunk *)
  set (s1 := {| buf := store fresh (part_preamble H B ++ F1); received := 0;
                flash := []; trace := trace (emit (OtaBegin ESP_OK) fresh_session) |}).
  destruct (first_chunk_written pf B H F1 fresh s1)
    as (s2 & E2 & Hfl2 & Hrc2); try assumption; try reflexivity; [lia|].
  (* the windows in between *)
  destruct (middle_windows_written pf B (effective_content_len req) (len F)
              (RecvData (Fl ++ closing_delimiter B ++ tail) :: map RecvData rest)
              Hw Hfit H32 Hcl middles s2 Hmid Hcm Hrc2)
    as (s3 & E3 & Hfl3 & Hrc3); [rewrite Hfl2; lia|].
  (* the window with the closing delimiter *)
  destruct (last_window_written pf B (effective_content_len req) s3 Fl tail
              (map RecvData rest))
    as (s4 & E4 & Hfl4 & Hrc4); try assumption.
  { lia. }
  { rewrite Hfl3, Hfl2, len_app. lia. }
  { rewrite Hrc3, Hfl3, Hfl2, len_app. destruct Hcl as [Hcl|Hcl]; [now left | right; lia]. }
  assert (Hphase : receive_phase pf req = inr s4).
  { unfold receive_phase. rewrite Hpart, Hbegin, Hmalloc, Hct, Hsock. cbn [negb].
    unfold get_hdr. rewrite (c_str_no_nul ct Hctnul).
    apply Nat.ltb_lt in Hctlen. rewrite Hctlen.
    unfold windows. cbn [map tl]. rewrite map_app. cbn [map].
    assert (Hfound : is_found (c_strstr ct (bytes_of_string "multipart/form-data"))
                     = true).
    { unfold c_strstr. rewrite (c_str_no_nul ct Hctnul).
      destruct (find_sub (bytes_of_string "multipart/form-data") ct) eqn:E;
        [reflexivity|]. apply find_sub_none in E. contradiction. }
    rewrite Hfound. cbn [andb orb].
    assert (Hctpos : (0 <? c_strlen ct) = true).
    { apply Z.ltb_lt. unfold c_strlen. rewrite (c_str_no_nul ct Hctnul).
      apply occurs_length in Hmp. unfold len in Hmp at 1. cbn in Hmp. lia. }
    rewrite Hctpos, Hbound.
    assert (HBz : (len B =? 0) = false).
    { apply Z.eqb_neq. destruct B; [congruence|]. unfold len. cbn [length]. lia. }
    rewrite HBz. cbn [andb]. fold s1. rewrite E2, E3. exact E4. }
  exists s4. unfold update_post_handler. rewrite Hphase. cbn [then_finalize].
  rewrite finalize_keeps_flash.
  assert (HflF : flash s4 = F).
  { rewrite Hfl4, Hfl3, Hfl2. unfold F. now rewrite <- !app_assoc. }
  repeat split; try assumption. now rewrite Hrc4, HflF.
Qed.

Lemma not_in_by_test (c : byte) (l : list byte) :
  forallb (fun x => negb (x =? c)) l = true -> ~ In c l.
Proof.
  intros H Hin. rewrite forallb_forall in H. specialize (H c Hin).
  now rewrite Z.eqb_refl in H.
Qed.

(** Why the windows in between need a NUL.  [strstr] reads the buffer as
    a C string, so behind a chunk without NUL it runs on into the bytes
    earlier reads left in the buffer.  In [stale_upload] the marker
    occurs nowhere in the payload and no window cuts the framing, yet the
    second window together with those stale bytes reads as a closing
    delimiter: the handler drops the last three bytes of that window,
    stops reading, and finalises 64 of the 68 payload bytes. *)
Lemma stale_buffer_bytes_read_as_boundary :
  let F := stale_first_payload ++ stale_middle_window ++ [7] in
  let o := update_post_handler healthy_platform stale_upload in
  ~ occurs (DASHDASH ++ boundary_X) F
  /\ ~ In NUL stale_middle_window
  /\ len F = 68
  /\ flash (final o) = firstn 64 F
  /\ ret o = None.
Proof.
  split; [apply find_sub_none; vm_compute; reflexivity|].
  split; [apply not_in_by_test; vm_compute; reflexivity|].
  vm_compute. repeat split.
Qed.

Lemma multipart_round_trip_on_aligned_windows_witness :
  let F := [233; 1] ++ concat [[0; 7]] ++ [2] in
  let windows := (part_preamble sample_part_headers boundary_X ++ [233; 1])
                 :: [[0; 7]] ++ ([2] ++ closing_delimiter boundary_X ++ []) :: [CRLF] in
  let req := upload_of (map RecvData windows) in
  concat windows = wrap_multipart sample_part_headers F boundary_X
  /\ exists s,
       receive_phase healthy_platform req = inr s
       /\ flash s = F
       /\ received s = len F
       /\ update_post_handler healthy_platform req = finalize healthy_platform s
       /\ flash (final (update_post_handler healthy_platform req)) = F.
Proof.
  apply (multipart_round_trip_on_aligned_windows healthy_platform
           (upload_of (map RecvData
              ((part_preamble sample_part_headers boundary_X ++ [233; 1])
               :: [[0; 7]] ++ ([2] ++ closing_delimiter boundary_X ++ []) :: [CRLF])))
           (repeat NUL (Z.to_nat buf_size)) multipart_X boundary_X sample_part_headers
           [233; 1] [2] [] [[0; 7]] [CRLF]).
  - reflexivity.
  - reflexivity.
  - reflexivity.
  - reflexivity.
  - vm_compute. reflexivity.
  - reflexivity.
  - apply not_in_by_test. vm_compute. reflexivity.
  - vm_compute. lia.
  - exists [], (bytes_of_string "; boundary=X"). reflexivity.
  - vm_compute. reflexivity.
  - discriminate.
  - apply not_in_by_test. vm_compute. reflexivity.
  - apply not_in_by_test. vm_compute. reflexivity.
  - vm_compute. discriminate.
  - apply not_in_by_test. vm_compute. reflexivity.
  - apply find_sub_none. vm_compute. reflexivity.
  - discriminate.
  - vm_compute. discriminate.
  - apply find_sub_none. vm_compute. reflexivity.
  - vm_compute. discriminate.
  - constructor; [left; reflexivity | constructor].
  - right. vm_compute. reflexivity.
  - reflexivity.
  - reflexivity.
Defined.

(** C1, counterexample.  The body [wrap_multipart(E9 01 02, X)] cut into
    one-byte windows: the first window holds no header separator, so the
    handler answers [400 Invalid multipart data format], aborts, and
    writes nothing at all. *)
Lemma one_byte_windows_are_rejected :
  let windows := map (fun b => [b]) small_body in
  let o := update_post_handler healthy_platform (upload_of (map RecvData windows)) in
  concat windows = wrap_multipart sample_part_headers small_firmware boundary_X
  /\ flash (final o) = []
  /\ flash (final o) <> small_firmware
  /\ ret o = Some ESP_ERR_INVALID_ARG
  /\ trace (final o) = [OtaBegin ESP_OK; OtaAbort;
                        Respond HTTP_400 "Invalid multipart data format"].
Proof.
  vm_compute. repeat split. discriminate.
Qed.

(** C2, the defect.  The boundary must never reach flash, and the
    handler means to keep it out (it cuts the data at every boundary it
    finds), yet the bytes of the closing delimiter are written in two
    situations it does not cover: when the delimiter arrives in the
    first read (the first chunk is never searched for an end boundary),
    and when a read ends inside the delimiter before the boundary token
    is complete (nothing is carried over to the next read).  In both
    runs below the body is [wrap_multipart(E9 01 02, X)]; flash ends up
    holding the payload followed by CRLF, two dashes, X, two dashes,
    CRLF, and the handler goes on to restart into that image. *)
Lemma closing_delimiter_written_to_flash :
  let leaked := small_firmware ++ closing_delimiter boundary_X ++ CRLF in
  let o1 := update_post_handler healthy_platform (upload_of [RecvData small_body]) in
  let o2 := update_post_handler healthy_platform
              (upload_of [RecvData split_body_1; RecvData split_body_2]) in
  small_body = wrap_multipart sample_part_headers small_firmware boundary_X
  /\ split_body_1 ++ split_body_2 = small_body
  /\ flash (final o1) = leaked /\ ret o1 = None
  /\ flash (final o2) = leaked /\ ret o2 = None
  /\ occurs (DASHDASH ++ boundary_X ++ DASHDASH) leaked
  /\ occurs boundary_X leaked.
Proof.
  vm_compute. repeat split.
  - exists [233; 1; 2; 13; 10], [13; 10]. reflexivity.
  - exists [233; 1; 2; 13; 10; 45; 45], [45; 45; 13; 10]. reflexivity.
Qed.

(* ================================================================== *)
(** * Part III.  Further properties of the code                        *)
(* ================================================================== *)

(** ** The firmware upload *)

Lemma c_str_clean (m : list byte) : ~ In NUL (c_str m).
Proof.
  induction m as [|b m IH]; cbn; [tauto|].
  destruct (Z.eqb_spec b NUL) as [->|Hb]; cbn; [tauto|].
  intros [H|H]; [now apply Hb | now apply IH].
Qed.

Lemma c_str_idem (m : list byte) : c_str (c_str m) = c_str m.
Proof. apply c_str_no_nul, c_str_clean. Qed.

Lemma starts_with_dashes_store (fresh chunk : list byte) :
  starts_with DASHDASH chunk = false ->
  starts_with_dashes (store fresh chunk) (len chunk) = false.
Proof.
  unfold starts_with_dashes, store, len.
  destruct chunk as [|a [|b r]]; cbn [length app nth]; intros H.
  - reflexivity.
  - reflexivity.
  - unfold DASHDASH in H. cbn [starts_with] in H. rewrite andb_true_r in H.
    rewrite (Z.eqb_sym a), (Z.eqb_sym b), <- andb_assoc, H.
    apply andb_false_r.
Qed.

Lemma esp_ota_write_chunk (pf : platform) (fl b chunk : list byte) :
  (forall fl d, flash_write pf fl d = ESP_OK) ->
  len fl + len chunk <= capacity pf ->
  esp_ota_write pf fl (store b chunk) (len chunk) = (ESP_OK, fl ++ chunk).
Proof.
  intros Hw Hcap. unfold esp_ota_write.
  destruct (Z.ltb_spec (capacity pf) (len fl + len chunk)) as [Hlt|_]; [lia|].
  pose proof (mem_read_store b chunk) as Hm. cbn [skipn] in Hm. rewrite Hm, Hw.
  reflexivity.
Qed.

Lemma raw_loop_written (pf : platform) (cl : Z) :
  (forall fl d, flash_write pf fl d = ESP_OK) ->
  capacity pf < 2 ^ 32 ->
  forall (chunks : list (list byte)) (s : session),
    Forall (fun c => c <> []) chunks ->
    received s = len (flash s) ->
    len (flash s) + len (concat chunks) <= capacity pf ->
    cl = 0 \/ len (flash s) + len (concat chunks) < cl ->
    exists s',
      raw_loop pf cl s (map RecvData chunks) = inr s'
      /\ flash s' = flash s ++ concat chunks
      /\ received s' = len (flash s').
Proof.
  intros Hw Hcap chunks. induction chunks as [|c chunks IH]; intros s Hne Hr Hfit Hcl.
  - exists s. cbn [map concat raw_loop]. rewrite app_nil_r.
    split; [|split]; auto. now destruct ((cl =? 0) || (received s <? cl)).
  - inversion Hne as [|? ? Hc Hne']; subst.
    rewrite len_concat_cons in Hfit, Hcl.
    pose proof (len_nonneg (concat chunks)) as Hpos.
    pose proof (len_nonneg (flash s)) as Hposf.
    assert (Hlc : 0 < len c).
    { destruct c; [congruence|]. unfold len. cbn [length]. lia. }
    cbn [map raw_loop].
    assert (Hcond : (cl =? 0) || (received s <? cl) = true).
    { destruct Hcl as [->|Hlt]; [reflexivity|].
      apply orb_true_iff. right. apply Z.ltb_lt. lia. }
    rewrite Hcond.
    destruct c as [|b0 c0]; [congruence|].
    set (c := b0 :: c0) in *.
    cbn [buf flash received trace].
    rewrite esp_ota_write_chunk by (auto; lia).
    rewrite wrap32_small by lia.
    match goal with
    | |- context [raw_loop pf cl ?s1 _] =>
        destruct (IH s1) as (s' & Hrun & Hfl & Hrec)
    end.
    + exact Hne'.
    + cbn [received flash]. rewrite len_app. lia.
    + cbn [flash]. rewrite len_app. lia.
    + cbn [flash]. rewrite len_app. destruct Hcl as [->|Hlt]; [now left | right; lia].
    + exists s'. split; [exact Hrun|]. split; [|exact Hrec].
      rewrite Hfl. cbn [flash concat]. now rewrite <- app_assoc.
Qed.

Lemma no_multipart_header (h : option (list byte)) :
  match h with
  | None => True
  | Some ct => ~ occurs (bytes_of_string "multipart/form-data") (c_str ct)
  end ->
  (let (ct_ok, content_type) := get_hdr h 128 in
   ct_ok && is_found (c_strstr content_type (bytes_of_string "multipart/form-data")))
  = false.
Proof.
  destruct h as [ct|]; cbn [get_hdr]; [|reflexivity].
  intros Hno. destruct (length (c_str ct) <? 128)%nat; [|reflexivity].
  unfold c_strstr. rewrite c_str_idem.
  apply find_sub_none in Hno. now rewrite Hno.
Qed.

(** X1.  A raw upload never writes its first read.  When the request is
    not multipart (no multipart Content-Type, the first read does not
    start with two dashes), the bytes of the first [httpd_req_recv] are
    used for that test only: the loop reads again into the same buffer
    before its first [esp_ota_write].  On a platform that accepts the
    writes, the flash ends up holding the later reads and nothing of the
    first. *)
Theorem raw_upload_never_writes_its_first_read :
  forall (pf : platform) (req : request) (fresh first : list byte)
         (chunks : list (list byte)),
    update_partition pf = true -> ota_begin pf = ESP_OK ->
    malloc_buf pf = Some fresh ->
    (forall fl d, flash_write pf fl d = ESP_OK) ->
    capacity pf < 2 ^ 32 ->
    match hdr_content_type req with
    | None => True
    | Some ct => ~ occurs (bytes_of_string "multipart/form-data") (c_str ct)
    end ->
    starts_with DASHDASH first = false ->
    Forall (fun c => c <> []) chunks ->
    len (concat chunks) <= capacity pf ->
    effective_content_len req = 0 \/ len (concat chunks) < effective_content_len req ->
    socket req = map RecvData (first :: chunks) ->
    exists s,
      receive_phase pf req = inr s
      /\ flash s = concat chunks
      /\ received s = len (concat chunks)
      /\ update_post_handler pf req = finalize pf s.
Proof.
  intros pf req fresh first chunks Hp Hb Hm Hw Hcap Hct Hd Hne Hfit Hcl Hsock.
  unfold update_post_handler.
  assert (Hphase : exists s, receive_phase pf req = inr s /\ flash s = concat chunks
                             /\ received s = len (flash s)).
  { unfold receive_phase. rewrite Hp, Hb, Hm, Hsock. cbn [negb map tl].
    pose proof (no_multipart_header _ Hct) as Hh.
    destruct (get_hdr (hdr_content_type req) 128) as [ct_ok content_type].
    rewrite Hh. cbn [orb buf]. rewrite starts_with_dashes_store by exact Hd.
    match goal with
    | |- context [raw_loop pf _ ?s1 _] =>
        destruct (raw_loop_written pf (effective_content_len req) Hw Hcap chunks s1)
          as (s' & Hrun & Hfl & Hrec)
    end; cbn [flash received]; auto.
    exists s'. split; [exact Hrun|]. split; [exact Hfl | exact Hrec]. }
  destruct Hphase as (s & Hrun & Hfl & Hrec).
  exists s. rewrite Hrun. cbn [then_finalize]. rewrite Hrec, Hfl. auto.
Qed.

Lemma raw_upload_never_writes_its_first_read_witness :
  exists s,
    receive_phase healthy_platform raw_upload = inr s
    /\ flash s = concat [[2; 3]]
    /\ received s = len (concat [[2; 3]])
    /\ update_post_handler healthy_platform raw_upload = finalize healthy_platform s.
Proof.
  apply (raw_upload_never_writes_its_first_read healthy_platform raw_upload
           (repeat NUL (Z.to_nat buf_size)) [233; 1] [[2; 3]]);
    try reflexivity.
  - repeat constructor; discriminate.
  - vm_compute. discriminate.
  - right. vm_compute. reflexivity.
Defined.

(** X2.  An early return sends one error response.  Whenever the handler
    returns before finalisation, the client has been sent exactly one
    response and it is not the 200; the handler returns to the server (no
    restart), the boot partition is untouched, and if [esp_ota_begin] had
    succeeded the handle has been given back with [esp_ota_abort]. *)
Theorem early_return_sends_one_error_response :
  forall (pf : platform) (req : request) (o : outcome),
    receive_phase pf req = inl o ->
    let tr := trace (final o) in
    update_post_handler pf req = o
    /\ (exists st msg, responses tr = [(st, msg)] /\ st <> HTTP_200)
    /\ (exists e, ret o = Some e)
    /\ boot_switch_attempted tr = false
    /\ restarted tr = false
    /\ (In (OtaBegin ESP_OK) tr -> aborted tr = true).
Proof.
  intros pf req o Hphase tr. subst tr. unfold update_post_handler.
  pose proof (receive_phase_ok pf req) as Hok. rewrite Hphase in *.
  cbn [then_finalize phase_ok] in *. split; [reflexivity|].
  destruct Hok as [ | err Herr | s st msg e' [Hq _] Hst | s n e' [Hq _] He' Hn];
    norm_trace.
  - cbn. repeat split; eauto.
    + do 2 eexists. split; [reflexivity | discriminate].
    + intros [H|[]]; discriminate.
  - cbn. repeat split; eauto.
    + do 2 eexists. split; [reflexivity | discriminate].
    + intros [H|[H|[]]]; [|discriminate]. injection H as ->. now elim Herr.
  - quiet_tail Hq. cbn. repeat split; eauto.
  - quiet_tail Hq. cbn. repeat split; eauto.
    do 2 eexists. split; [reflexivity | discriminate].
Qed.

Lemma early_return_sends_one_error_response_witness :
  let o := abort_with (emit (OtaBegin ESP_OK) fresh_session)
                      HTTP_500 "Receive failed" ESP_FAIL in
  let tr := trace (final o) in
  update_post_handler healthy_platform (upload_of [RecvFail]) = o
  /\ (exists st msg, responses tr = [(st, msg)] /\ st <> HTTP_200)
  /\ (exists e, ret o = Some e)
  /\ boot_switch_attempted tr = false
  /\ restarted tr = false
  /\ (In (OtaBegin ESP_OK) tr -> aborted tr = true).
Proof.
  apply (early_return_sends_one_error_response healthy_platform (upload_of [RecvFail])).
  reflexivity.
Defined.

Lemma magic_ok_emit (pf : platform) (s : session) (e : effect) :
  magic_ok pf (emit e s) = magic_ok pf s.
Proof. reflexivity. Qed.

(** X3.  The device restarts only into a verified image.  The handler
    fails to return exactly when it has called [esp_restart], and it
    calls it only after the magic byte was E9, [esp_ota_end] accepted the
    image, the 200 response was sent and [esp_ota_set_boot_partition]
    succeeded; no write was rejected and nothing was aborted on the
    way. *)
Theorem restart_only_into_a_verified_image :
  forall (pf : platform) (req : request),
    let o := update_post_handler pf req in
    let tr := trace (final o) in
    (ret o = None <-> restarted tr = true)
    /\ (restarted tr = true ->
        magic_ok pf (final o) = true
        /\ ota_end pf (flash (final o)) = ESP_OK
        /\ In (OtaEnd ESP_OK) tr
        /\ responses tr = [(HTTP_200, success_message)]
        /\ boot_target_set tr = true
        /\ aborted tr = false
        /\ write_rejected tr = false).
Proof.
  intros pf req o tr. subst tr o. unfold update_post_handler.
  pose proof (receive_phase_ok pf req) as Hok.
  destruct (receive_phase pf req) as [o|s]; cbn [then_finalize phase_ok] in *.
  - destruct Hok as [ | err Herr | s st msg e' [Hq _] Hst | s n e' [Hq _] He' Hn];
      norm_trace; try quiet_tail Hq; cbn;
      (split; [split; discriminate | discriminate]).
  - destruct Hok as [Hq _].
    destruct (finalize_cases pf s) as [Hm | Hm He | e' Hm He Hne' Hnv | Hm He Hp
                                      | e' Hm He Hp Hs Hne' | Hm He Hp Hs];
      norm_trace; quiet_tail Hq; cbn;
      try (split; [split; discriminate | discriminate]).
    split; [split; reflexivity|]. intros _.
    repeat split; auto.
    apply in_or_app. right. now left.
Qed.

(** X4.  The 200 response is sent only for a verified image: whenever a
    200 is among the responses it is the first one, it carries the
    success message, and the bytes in flash start with E9 and have passed
    [esp_ota_end]; [esp_ota_abort] has not been called. *)
Theorem success_response_only_for_a_verified_image :
  forall (pf : platform) (req : request) (msg : string),
    let o := update_post_handler pf req in
    let tr := trace (final o) in
    In (HTTP_200, msg) (responses tr) ->
    hd_error (responses tr) = Some (HTTP_200, success_message)
    /\ msg = success_message
    /\ magic_ok pf (final o) = true
    /\ ota_end pf (flash (final o)) = ESP_OK
    /\ In (OtaEnd ESP_OK) tr
    /\ aborted tr = false.
Proof.
  intros pf req msg o tr. subst tr o. unfold update_post_handler.
  pose proof (receive_phase_ok pf req) as Hok.
  destruct (receive_phase pf req) as [o|s]; cbn [then_finalize phase_ok] in *.
  - destruct Hok as [ | err Herr | s st msg' e' [Hq _] Hst | s n e' [Hq _] He' Hn];
      norm_trace; try quiet_tail Hq; cbn; intros Hin; exfalso.
    + destruct Hin as [Hin|[]]; discriminate.
    + destruct Hin as [Hin|[]]; discriminate.
    + destruct Hin as [Hin|[]]. injection Hin as Hs _. now apply Hst.
    + destruct Hin as [Hin|[]]; discriminate.
  - destruct Hok as [Hq _].
    destruct (finalize_cases pf s) as [Hm | Hm He | e' Hm He Hne' Hnv | Hm He Hp
                                      | e' Hm He Hp Hs Hne' | Hm He Hp Hs];
      norm_trace; quiet_tail Hq; cbn; intros Hin.
    + exfalso. destruct Hin as [Hin|[]]; discriminate.
    + exfalso. destruct Hin as [Hin|[]]; discriminate.
    + exfalso. destruct Hin as [Hin|[]]; discriminate.
    + destruct Hin as [Hin|[Hin|[]]]; [|discriminate]. injection Hin as <-.
      repeat split; auto. apply in_or_app. right. now left.
    + destruct Hin as [Hin|[]]. injection Hin as <-.
      repeat split; auto.
      apply in_or_app. right. now left.
    + destruct Hin as [Hin|[]]. injection Hin as <-.
      repeat split; auto. apply in_or_app. right. now left.
Qed.

Lemma success_response_only_for_a_verified_image_witness :
  let o := update_post_handler boot_switch_fails scenario_B in
  let tr := trace (final o) in
  hd_error (responses tr) = Some (HTTP_200, success_message)
  /\ success_message = success_message
  /\ magic_ok boot_switch_fails (final o) = true
  /\ ota_end boot_switch_fails (flash (final o)) = ESP_OK
  /\ In (OtaEnd ESP_OK) tr
  /\ aborted tr = false.
Proof.
  apply (success_response_only_for_a_verified_image boot_switch_fails scenario_B).
  vm_compute. left. reflexivity.
Defined.

Lemma restart_only_into_a_verified_image_witness :
  let o := update_post_handler healthy_platform scenario_B in
  let tr := trace (final o) in
  (ret o = None <-> restarted tr = true)
  /\ (restarted tr = true ->
      magic_ok healthy_platform (final o) = true
      /\ ota_end healthy_platform (flash (final o)) = ESP_OK
      /\ In (OtaEnd ESP_OK) tr
      /\ responses tr = [(HTTP_200, success_message)]
      /\ boot_target_set tr = true
      /\ aborted tr = false
      /\ write_rejected tr = false).
Proof. apply (restart_only_into_a_verified_image healthy_platform scenario_B). Defined.

(** *** The first read and the boundary *)

Lemma c_str_behind (pre rest : list byte) :
  ~ In NUL pre -> occurs CRLFCRLF (c_str rest) -> occurs CRLFCRLF (c_str (pre ++ rest)).
Proof.
  intros Hpre Hocc. rewrite c_str_app_no_nul by exact Hpre. now apply occurs_app_r.
Qed.

Lemma locate_binary_start_none (boundary b : list byte) (initial_recv : Z) :
  ~ In NUL boundary -> ~ occurs CRLFCRLF (c_str b) ->
  locate_binary_start boundary b initial_recv = None.
Proof.
  intros HB Hno. unfold locate_binary_start.
  assert (Hplain : option_map (fun k => (k + 4)%nat) (c_strstr b CRLFCRLF) = None).
  { unfold c_strstr. apply find_sub_none in Hno. now rewrite Hno. }
  destruct (0 <? len boundary); [|exact Hplain].
  destruct ((len (DASHDASH ++ boundary) <=? initial_recv)
            && starts_with (DASHDASH ++ boundary) b) eqn:Hm; [|exact Hplain].
  apply andb_true_iff in Hm as [_ Hm].
  apply starts_with_spec in Hm as [rest ->].
  assert (Hmk : ~ In NUL (DASHDASH ++ boundary)).
  { intros Hin. apply in_app_or in Hin as [Hin|Hin]; [|now apply HB].
    destruct Hin as [Hin|[Hin|[]]]; discriminate. }
  rewrite skipn_exact.
  match goal with
  | |- option_map _ (c_strstr (skipn ?a _) _) = None => set (after_boundary := a)
  end.
  assert (Hsk : exists pre rest',
             (DASHDASH ++ boundary) ++ rest = pre ++ rest'
             /\ ~ In NUL pre /\ length pre = after_boundary).
  { subst after_boundary.
    destruct ((len (DASHDASH ++ boundary) + 2 <=? initial_recv)
              && starts_with CRLF rest) eqn:Hc.
    - apply andb_true_iff in Hc as [_ Hc].
      apply starts_with_spec in Hc as [rest' ->].
      exists ((DASHDASH ++ boundary) ++ CRLF), rest'. split; [|split].
      + now rewrite <- !app_assoc.
      + intros Hin. apply in_app_or in Hin as [Hin|Hin]; [now apply Hmk|].
        destruct Hin as [Hin|[Hin|[]]]; discriminate.
      + rewrite length_app. reflexivity.
    - exists (DASHDASH ++ boundary), rest. split; [|split]; auto. }
  destruct Hsk as (pre & rest' & Heq & Hpre & Hlen).
  rewrite Heq in *.
  rewrite <- Hlen, skipn_exact. unfold c_strstr.
  destruct (find_sub CRLFCRLF (c_str rest')) as [k|] eqn:Hf; [|reflexivity].
  exfalso. apply Hno, c_str_behind; [exact Hpre|].
  now apply find_sub_occurs in Hf.
Qed.

(** X5.  The part headers have to end within the first read.  When the
    first buffer holds no blank line (CR LF CR LF) before its first NUL,
    [binary_start] stays NULL and the upload is refused with 400 Invalid
    multipart data format, the OTA handle is aborted and nothing is
    written; the handler does not read further to find the end of the
    headers. *)
Theorem first_read_without_blank_line_is_rejected :
  forall (pf : platform) (boundary : list byte) (s : session) (initial_recv : Z),
    ~ In NUL boundary ->
    ~ occurs CRLFCRLF (c_str (buf s)) ->
    multipart_first_chunk pf boundary s initial_recv
    = inl (abort_with s HTTP_400 "Invalid multipart data format" ESP_ERR_INVALID_ARG).
Proof.
  intros pf boundary s initial_recv HB Hno. unfold multipart_first_chunk.
  now rewrite locate_binary_start_none.
Qed.

Lemma first_read_without_blank_line_is_rejected_witness :
  let s := {| buf := store (repeat NUL 64) (bytes_of_string "--X") ; received := 0;
              flash := []; trace := [OtaBegin ESP_OK] |} in
  multipart_first_chunk healthy_platform boundary_X s 3
  = inl (abort_with s HTTP_400 "Invalid multipart data format" ESP_ERR_INVALID_ARG).
Proof.
  apply (first_read_without_blank_line_is_rejected healthy_platform boundary_X).
  - apply not_in_by_test. reflexivity.
  - apply find_sub_none. reflexivity.
Defined.

Lemma c_strncpy_fits (src : list byte) (n : nat) :
  (length (c_strncpy src n) <= n)%nat /\ ~ In NUL (c_strncpy src n).
Proof.
  unfold c_strncpy. split.
  - rewrite length_firstn. lia.
  - intros Hin. apply (c_str_clean src). rewrite <- (firstn_skipn n (c_str src)).
    apply in_or_app. now left.
Qed.

Lemma c_strncpy_bounded (src : list byte) (k : nat) :
  len (c_strncpy src (Nat.min k 127)) <= 127
  /\ ~ In NUL (c_strncpy src (Nat.min k 127)).
Proof.
  destruct (c_strncpy_fits src (Nat.min k 127)) as [Hl Hn]. split; [|exact Hn].
  unfold len. lia.
Qed.

(** X6.  The boundary fits its array.  Whatever the Content-Type header
    or the first buffer hold, the boundary the handler extracts has at
    most 127 bytes, so that it fits [char boundary[128]] with its
    terminator, and holds no NUL: it is a C string of the length the
    later [strlen(boundary)] calls report. *)
Theorem boundary_fits_its_array :
  forall (m : list byte),
    (len (boundary_from_header m) <= 127 /\ ~ In NUL (boundary_from_header m))
    /\ (len (boundary_from_data m) <= 127 /\ ~ In NUL (boundary_from_data m)).
Proof.
  intros m.
  assert (Hnil : len [] <= 127 /\ ~ In NUL []) by (split; [change (len []) with 0; lia | tauto]).
  split.
  - unfold boundary_from_header.
    destruct (c_strstr m (bytes_of_string "boundary=")); [|exact Hnil].
    apply c_strncpy_bounded.
  - unfold boundary_from_data.
    destruct (c_strstr (skipn 2 m) CRLF); [apply c_strncpy_bounded|].
    destruct (c_strstr m CRLF) as [h|]; [|exact Hnil].
    destruct (2 <? h)%nat; [apply c_strncpy_bounded | exact Hnil].
Qed.

(** X7.  The fallback search for the boundary never succeeds.  The
    boundary is taken from the data only when the buffer starts with two
    dashes; if then no CR LF is found from [buf + 2] on, the fallback
    search from [buf] finds none either, and the boundary stays empty. *)
Theorem boundary_fallback_search_is_dead :
  forall (b : list byte) (initial_recv : Z),
    starts_with_dashes b initial_recv = true ->
    c_strstr (skipn 2 b) CRLF = None ->
    c_strstr b CRLF = None /\ boundary_from_data b = [].
Proof.
  intros b n Hd Hnone. unfold starts_with_dashes in Hd.
  apply andb_true_iff in Hd as [Hd H1]. apply andb_true_iff in Hd as [_ H0].
  destruct b as [|x [|y rest]]; cbn [nth] in H0, H1; try discriminate.
  apply Z.eqb_eq in H0, H1. subst x y. cbn [skipn] in Hnone.
  assert (Hb : c_strstr (DASH :: DASH :: rest) CRLF = None).
  { unfold c_strstr in *. cbn [c_str]. change (DASH =? NUL) with false. cbv iota.
    rewrite find_sub_unfold.
    change (starts_with CRLF (DASH :: DASH :: c_str rest)) with false. cbv iota.
    rewrite find_sub_unfold.
    change (starts_with CRLF (DASH :: c_str rest)) with false. cbv iota.
    now rewrite Hnone. }
  split; [exact Hb|]. unfold boundary_from_data. cbn [skipn]. now rewrite Hnone, Hb.
Qed.

Lemma boundary_fallback_search_is_dead_witness :
  c_strstr (bytes_of_string "--X") CRLF = None
  /\ boundary_from_data (bytes_of_string "--X") = [].
Proof.
  apply (boundary_fallback_search_is_dead (bytes_of_string "--X") 3); reflexivity.
Defined.

Lemma nth_last_app (B x : list byte) :
  B <> [] -> nth (length B - 1) (B ++ x) NUL = last B NUL.
Proof.
  intros HB. destruct (exists_last HB) as (B' & z & ->).
  rewrite last_last, length_app. cbn [length].
  replace (length B' + 1 - 1)%nat with (length B') by lia.
  rewrite <- app_assoc. rewrite app_nth2 by lia.
  now rewrite Nat.sub_diag.
Qed.

Lemma skip_blank_stays (l : list byte) :
  hd NUL l <> SPACE -> hd NUL l <> TAB -> skip_blank l = l.
Proof.
  destruct l as [|b l]; [reflexivity|]. cbn [hd skip_blank]. intros H1 H2.
  destruct (Z.eqb_spec b SPACE); [contradiction|].
  destruct (Z.eqb_spec b TAB); [contradiction|]. reflexivity.
Qed.

Lemma trim_end_stays (p : list byte) (e : nat) :
  (0 < e)%nat -> is_trailing_ws (nth (e - 1) p NUL) = false -> trim_end p e = e.
Proof.
  destruct e as [|e]; [lia|]. intros _. cbn [trim_end].
  replace (S e - 1)%nat with e by lia. now intros ->.
Qed.

Lemma semicolon_position (x r : list byte) :
  ~ In SEMI x -> ~ In NUL x ->
  match c_strchr (x ++ r) SEMI with
  | Some j => j
  | None => length (c_str (x ++ r))
  end = length x
  \/ (r <> [] /\ hd NUL r <> SEMI /\ hd NUL r <> NUL).
Proof.
  intros Hs Hn. destruct r as [|c r].
  - left. rewrite app_nil_r. unfold c_strchr. rewrite c_str_no_nul by exact Hn.
    assert (Hnone : find_sub [SEMI] x = None).
    { apply find_sub_none. intros (pre & post & ->). apply Hs.
      apply in_or_app. right. now left. }
    now rewrite Hnone.
  - destruct (Z.eq_dec c SEMI) as [->|Hc].
    + left. unfold c_strchr. rewrite c_str_app_no_nul by exact Hn.
      cbn [c_str]. change (SEMI =? NUL) with false. cbv iota.
      change (SEMI :: c_str r) with ([SEMI] ++ c_str r).
      rewrite (find_sub_unique_head SEMI [] x (c_str r)); [reflexivity|tauto|].
      intros (pre & post & ->). apply Hs. apply in_or_app. right. now left.
    + destruct (Z.eq_dec c NUL) as [->|Hc0].
      * left. unfold c_strchr. rewrite c_str_app_nul, c_str_no_nul by exact Hn.
        assert (Hnone : find_sub [SEMI] x = None).
        { apply find_sub_none. intros (pre & post & ->). apply Hs.
          apply in_or_app. right. now left. }
        now rewrite Hnone.
      * right. cbn [hd]. repeat split; congruence.
Qed.

(** X8.  The boundary is read back from the Content-Type header.  For a
    header that gives the boundary [B] after its first [boundary=],
    either bare or between double quotes, and then ends, or goes on with
    a semicolon, or is cut by a NUL, the handler extracts exactly [B],
    provided [B] has 1 to 127 bytes, none of them NUL, semicolon or
    double quote, does not end in white space and, when bare, does not
    start with a blank. *)
Theorem boundary_is_read_back_from_the_header :
  forall (pre B tail : list byte) (quoted : bool),
    let q := if quoted then [DQUOTE] else [] in
    let ct := pre ++ bytes_of_string "boundary=" ++ q ++ B ++ q ++ tail in
    ~ In NUL pre ->
    ~ occurs (bytes_of_string "boundary=") (pre ++ bytes_of_string "boundary") ->
    B <> [] -> ~ In NUL B -> ~ In SEMI B -> ~ In DQUOTE B ->
    (length B <= 127)%nat ->
    (quoted = false -> hd NUL B <> SPACE /\ hd NUL B <> TAB) ->
    is_trailing_ws (last B NUL) = false ->
    tail = [] \/ hd NUL tail = SEMI \/ hd NUL tail = NUL ->
    boundary_from_header ct = B.
Proof.
  intros pre B tail quoted q ct Hpre Hfirst HB Hnul Hsemi Hdq Hlen Hblank Hws Htail.
  set (pat := bytes_of_string "boundary=") in *.
  assert (Hpat : ~ In NUL pat) by (apply not_in_by_test; reflexivity).
  assert (Hq : ~ In NUL q /\ ~ In SEMI q).
  { subst q. destruct quoted; cbn; split; intros H; try tauto;
      destruct H as [H|[]]; discriminate. }
  destruct Hq as [Hqn Hqs].
  (* the text behind the parameter name, as a C string *)
  assert (Hstr : c_str ct = pre ++ pat ++ q ++ B ++ q ++ c_str tail).
  { subst ct. now rewrite !c_str_app_no_nul by assumption. }
  assert (Hk : c_strstr ct pat = Some (length pre)).
  { unfold c_strstr. rewrite Hstr. apply find_sub_first; [discriminate|exact Hfirst]. }
  unfold boundary_from_header. fold pat. rewrite Hk, Hstr.
  change 9%nat with (length pat).
  rewrite skipn_past, skipn_exact.
  set (tail' := c_str tail).
  assert (Htail' : tail' = [] \/ hd NUL tail' = SEMI).
  { subst tail'. destruct tail as [|c r]; [now left|]. cbn [hd] in Htail.
    destruct Htail as [Ht|[->| ->]]; [discriminate| |]; cbn [c_str].
    - right. reflexivity.
    - left. reflexivity. }
  assert (Hclean' : ~ In NUL tail') by apply c_str_clean.
  (* what is left after the blanks and the opening quote *)
  assert (Hp : match skip_blank (q ++ B ++ q ++ tail') with
               | b :: p' => if b =? DQUOTE then p' else skip_blank (q ++ B ++ q ++ tail')
               | [] => []
               end = B ++ q ++ tail').
  { subst q. destruct quoted.
    - cbn [app skip_blank]. change ((DQUOTE =? SPACE) || (DQUOTE =? TAB)) with false.
      cbv iota. now rewrite Z.eqb_refl.
    - cbn [app]. destruct (Hblank eq_refl) as [H1 H2].
      rewrite skip_blank_stays.
      + destruct B as [|b B']; [congruence|]. cbn [app].
        destruct (Z.eqb_spec b DQUOTE) as [->|_]; [|reflexivity].
        exfalso. apply Hdq. now left.
      + destruct B; [congruence|]. exact H1.
      + destruct B; [congruence|]. exact H2. }
  rewrite Hp. clear Hp.
  set (p := B ++ q ++ tail').
  assert (Hpn : ~ In NUL p).
  { subst p. intros Hin. apply in_app_or in Hin as [Hin|Hin]; [now apply Hnul|].
    apply in_app_or in Hin as [Hin|Hin]; [now apply Hqn | now apply Hclean']. }
  (* the end of the value *)
  assert (He0 : match c_strchr p SEMI with
                | Some j => j
                | None => length (c_str p)
                end = length (B ++ q)).
  { subst p. rewrite app_assoc.
    destruct (semicolon_position (B ++ q) tail') as [Hpos|(Hne & Hs & _)]; auto.
    - intros Hin. apply in_app_or in Hin as [Hin|Hin]; [now apply Hsemi|now apply Hqs].
    - intros Hin. apply in_app_or in Hin as [Hin|Hin]; [now apply Hnul|now apply Hqn].
    - destruct Htail' as [Ht|Ht]; congruence. }
  rewrite He0. clear He0.
  assert (Hlb : (0 < length B)%nat) by (destruct B; [congruence | cbn; lia]).
  assert (He1 : (if (0 <? length (B ++ q))%nat
                    && (nth (length (B ++ q) - 1) p NUL =? DQUOTE)
                 then (length (B ++ q) - 1)%nat else length (B ++ q)) = length B).
  { rewrite length_app.
    assert (Hpos : (0 <? length B + length q)%nat = true) by (apply Nat.ltb_lt; lia).
    rewrite Hpos. cbn [andb]. subst p q. destruct quoted; cbn [length app].
    - replace (length B + 1 - 1)%nat with (length B) by lia.
      rewrite app_nth2 by lia. rewrite Nat.sub_diag. cbn [nth].
      rewrite Z.eqb_refl. reflexivity.
    - rewrite Nat.add_0_r. rewrite nth_last_app by exact HB.
      destruct (Z.eqb_spec (last B NUL) DQUOTE) as [Heq|_]; [|reflexivity].
      exfalso. apply Hdq. rewrite <- Heq.
      destruct (exists_last HB) as (B' & z & ->). rewrite last_last.
      apply in_or_app. right. now left. }
  rewrite He1. clear He1.
  rewrite trim_end_stays.
  - rewrite Nat.min_l by exact Hlen. unfold c_strncpy.
    rewrite c_str_no_nul by exact Hpn. subst p.
    rewrite firstn_app, Nat.sub_diag, firstn_all. cbn [firstn]. apply app_nil_r.
  - exact Hlb.
  - subst p. rewrite nth_last_app by exact HB. exact Hws.
Qed.

Lemma boundary_is_read_back_from_the_header_witness :
  boundary_from_header
    (bytes_of_string "multipart/form-data; " ++ bytes_of_string "boundary="
     ++ [DQUOTE] ++ bytes_of_string "X y" ++ [DQUOTE] ++ bytes_of_string "; charset=x")
  = bytes_of_string "X y".
Proof.
  apply (boundary_is_read_back_from_the_header
           (bytes_of_string "multipart/form-data; ") (bytes_of_string "X y")
           (bytes_of_string "; charset=x") true).
  - apply not_in_by_test. reflexivity.
  - apply find_sub_none. reflexivity.
  - discriminate.
  - apply not_in_by_test. reflexivity.
  - apply not_in_by_test. reflexivity.
  - apply not_in_by_test. reflexivity.
  - vm_compute. lia.
  - discriminate.
  - reflexivity.
  - right. left. reflexivity.
Defined.

(** ** The relay endpoints *)

Lemma atoi_c_str (m : list byte) : atoi (c_str m) = atoi m.
Proof. unfold atoi. now rewrite c_str_idem. Qed.

Lemma short_ids_agree (uri : list byte) (k : nat) :
  c_strrchr uri SLASH = Some k ->
  c_strlen (skipn (S k) uri) <= 7 ->
  get_relay_id uri = Some (post_relay_id uri).
Proof.
  intros Hk Hlen. unfold get_relay_id, post_relay_id. rewrite Hk.
  unfold c_strncpy. rewrite firstn_all2 by (unfold c_strlen, len in Hlen; lia).
  now rewrite atoi_c_str.
Qed.

(** X9.  The two relay handlers read the same id from a URI whose text
    after the last slash has at most seven bytes, the seven bytes the
    POST handler copies into [relay_id_str]; on a longer text they can
    differ, the GET handler reading all of it. *)
Theorem get_and_post_read_the_same_short_id :
  forall (uri : list byte) (k : nat),
    c_strrchr uri SLASH = Some k ->
    c_strlen (skipn (S k) uri) <= 7 ->
    get_relay_id uri = Some (post_relay_id uri)
    /\ get_relay_id (bytes_of_string "/api/relay/00000002") = Some 2
    /\ post_relay_id (bytes_of_string "/api/relay/00000002") = 0.
Proof.
  intros uri k Hk Hlen. split; [now apply (short_ids_agree uri k)|].
  split; reflexivity.
Qed.

Lemma get_and_post_read_the_same_short_id_witness :
  get_relay_id (bytes_of_string "/api/relay/4")
  = Some (post_relay_id (bytes_of_string "/api/relay/4"))
  /\ get_relay_id (bytes_of_string "/api/relay/00000002") = Some 2
  /\ post_relay_id (bytes_of_string "/api/relay/00000002") = 0.
Proof.
  apply (get_and_post_read_the_same_short_id (bytes_of_string "/api/relay/4") 10).
  - reflexivity.
  - vm_compute. discriminate.
Defined.

Ltac hw_norm :=
  cbn [orb andb negb esp_err_eqb gpio_pin led_pin gpio_level_on led_on hw_state].

Ltac hw_cases hw :=
  let Hg := fresh "Hg" in let Hn := fresh "Hn" in
  let Hl := fresh "Hl" in let Hc := fresh "Hc" in
  destruct hw as [g l lvl led hs];
  unfold relay_hardware_set_state, control_relay_gpio, has_relay_pin, has_led_pin;
  hw_norm;
  destruct (g <? 0) eqn:Hg, (g =? GPIO_NUM_NC) eqn:Hn, (0 <=? l) eqn:Hl,
           (l =? GPIO_NUM_NC) eqn:Hc;
  hw_norm; rewrite ?Hg, ?Hn, ?Hl, ?Hc; hw_norm.

Lemma hw_set_state_state (hw : relay_hardware_t) (st : bool) :
  hw_state (relay_hardware_set_state hw st) = st.
Proof. hw_cases hw; reflexivity. Qed.

Lemma hw_set_state_idem (hw : relay_hardware_t) (st : bool) :
  relay_hardware_set_state (relay_hardware_set_state hw st) st
  = relay_hardware_set_state hw st.
Proof.
  hw_cases hw; reflexivity.
Qed.



Lemma set_state_keeps_button (timer_ok : bool) (ui : relay_control_ui_t) (st : bool) :
  button (relay_control_ui_set_state timer_ok ui st) = button ui.
Proof.
  unfold relay_control_ui_set_state, control_relay_hardware, start_timer, stop_timer.
  destruct (button ui) eqn:Hb; cbn [negb hardware state]; [|exact Hb].
  destruct (hardware ui), st, (state ui); cbn; auto.
Qed.

Lemma set_state_idempotent (timer_ok : bool) (ui : relay_control_ui_t) (st : bool) :
  relay_control_ui_set_state timer_ok (relay_control_ui_set_state timer_ok ui st) st
  = relay_control_ui_set_state timer_ok ui st.
Proof.
  destruct ui as [b s tr rem hw].
  unfold relay_control_ui_set_state, control_relay_hardware, start_timer, stop_timer.
  destruct b; cbn [negb button state hardware timer_running time_remaining];
    [|reflexivity].
  destruct hw as [hw|], st, s; cbn -[relay_hardware_set_state];
    rewrite ?hw_set_state_idem; reflexivity.
Qed.

Lemma c_strstr_content_found (pre token post : list byte) :
  ~ In NUL pre -> ~ In NUL token ->
  (length (pre ++ token ++ post) <= 127)%nat ->
  is_found (c_strstr (content_after_recv (pre ++ token ++ post)) token) = true.
Proof.
  intros Hpre Htok Hlen. unfold c_strstr, content_after_recv.
  rewrite firstn_all2 by exact Hlen.
  rewrite <- !app_assoc, !c_str_app_no_nul by assumption.
  destruct (find_sub token (pre ++ token ++ c_str
               (post ++ repeat NUL (128 - length (pre ++ token ++ post))))) eqn:Hf;
    [reflexivity|].
  exfalso. apply find_sub_none in Hf. apply Hf. now exists pre, (c_str
    (post ++ repeat NUL (128 - length (pre ++ token ++ post)))).
Qed.

(** X10.  A POST that names the state sets it, and sets it once.  Take a
    POST to a relay that exists, with an id from 1 to 6, and a body of at
    most 127 bytes that holds the pattern state:true or state:false (the
    key in double or in single quotes) with no NUL byte in front of it:
    the handler searches the body as a C string, so a pattern behind a
    NUL byte is not seen.  With state:true the relay is switched on,
    whatever follows the pattern; with state:false, and state:true
    nowhere in the body, it is switched off.  The answer
    reports that state, and sending the same body again leaves every
    relay as the first request left it: the countdown is not started
    anew. *)
Theorem relay_post_with_state_token_sets_it_once :
  forall (timer_ok : bool) (t : relay_table) (uri pre token post : list byte)
         (ui : relay_control_ui_t) (st : bool),
    1 <= post_relay_id uri <= 6 ->
    t (post_relay_id uri) = Some ui ->
    button ui = true ->
    token = (if st then state_true_dq else state_false_dq)
    \/ token = (if st then state_true_sq else state_false_sq) ->
    ~ In NUL pre ->
    (length (pre ++ token ++ post) <= 127)%nat ->
    (st = false -> ~ occurs state_true_dq (pre ++ token ++ post)
                   /\ ~ occurs state_true_sq (pre ++ token ++ post)) ->
    let id := post_relay_id uri in
    let body := RecvData (pre ++ token ++ post) in
    let o := relay_post_handler timer_ok t uri body in
    r_effects o = [Lookup id; SetState id st; Reply HTTP_200 (ReplyState id st)]
    /\ r_ret o = ESP_OK
    /\ option_map state (r_table o id) = Some st
    /\ (forall i, r_table (relay_post_handler timer_ok (r_table o) uri body) i
                  = r_table o i).
Proof.
  intros timer_ok t uri pre token post ui st Hid Ht Hb Htok Hpre Hlen Hfalse id body o.
  assert (Htn : ~ In NUL token).
  { destruct Htok as [-> | ->]; destruct st; apply not_in_by_test; reflexivity. }
  assert (Hne : exists b chunk, pre ++ token ++ post = b :: chunk).
  { destruct pre as [|b pre]; [|now exists b, (pre ++ token ++ post)].
    destruct token as [|b token]; [|now exists b, (token ++ post)].
    exfalso. destruct Htok as [H|H]; destruct st; discriminate. }
  destruct Hne as (b0 & chunk0 & Hchunk).
  (* what the handler makes of this body, whatever the relay *)
  assert (Hstep : forall (t0 : relay_table) (u : relay_control_ui_t),
             t0 (post_relay_id uri) = Some u ->
             relay_post_handler timer_ok t0 uri body =
             {| r_effects := [Lookup id; SetState id st;
                              Reply HTTP_200 (ReplyState id st)];
                r_ret := ESP_OK;
                r_table := update_relay t0 id
                             (relay_control_ui_set_state timer_ok u st) |}).
  { intros t0 u Hu. subst body id. unfold relay_post_handler.
    rewrite (range_check_false _ Hid), Hu. rewrite Hchunk. rewrite <- Hchunk.
    pose proof (c_strstr_content_found pre token post Hpre Htn Hlen) as Hfound.
    destruct st.
    - assert (Hor : is_found (c_strstr (content_after_recv (pre ++ token ++ post))
                                       state_true_dq)
                    || is_found (c_strstr (content_after_recv (pre ++ token ++ post))
                                          state_true_sq) = true).
      { destruct Htok as [<- | <-]; rewrite Hfound; [reflexivity | apply orb_true_r]. }
      rewrite Hor. reflexivity.
    - destruct (Hfalse eq_refl) as [Hn1 Hn2].
      rewrite (c_strstr_content_none _ _ Hn1), (c_strstr_content_none _ _ Hn2).
      cbn [is_found orb].
      assert (Hor : is_found (c_strstr (content_after_recv (pre ++ token ++ post))
                                       state_false_dq)
                    || is_found (c_strstr (content_after_recv (pre ++ token ++ post))
                                          state_false_sq) = true).
      { destruct Htok as [<- | <-]; rewrite Hfound; [reflexivity | apply orb_true_r]. }
      rewrite Hor. reflexivity. }
  subst o. rewrite (Hstep t ui Ht). cbn [r_effects r_ret r_table].
  split; [reflexivity|]. split; [reflexivity|]. split.
  - unfold update_relay. rewrite Z.eqb_refl. cbn [option_map].
    now rewrite set_state_sets.
  - intros i.
    rewrite (Hstep _ (relay_control_ui_set_state timer_ok ui st)).
    + cbn [r_table]. unfold update_relay at 1. subst id.
      destruct (Z.eqb_spec i (post_relay_id uri)) as [->|Hi]; [|reflexivity].
      rewrite set_state_idempotent. unfold update_relay. now rewrite Z.eqb_refl.
    + unfold update_relay. subst id. now rewrite Z.eqb_refl.
Qed.

Lemma relay_post_with_state_token_sets_it_once_witness :
  let body := RecvData (bytes_of_string "{" ++ state_true_dq ++ bytes_of_string "}") in
  let o := relay_post_handler true five_relays (bytes_of_string "/api/relay/2") body in
  r_effects o = [Lookup 2; SetState 2 true; Reply HTTP_200 (ReplyState 2 true)]
  /\ r_ret o = ESP_OK
  /\ option_map state (r_table o 2) = Some true
  /\ (forall i, r_table (relay_post_handler true (r_table o)
                           (bytes_of_string "/api/relay/2") body) i
                = r_table o i).
Proof.
  apply (relay_post_with_state_token_sets_it_once true five_relays
           (bytes_of_string "/api/relay/2") (bytes_of_string "{") state_true_dq
           (bytes_of_string "}") relay_off true).
  - vm_compute. split; discriminate.
  - reflexivity.
  - reflexivity.
  - left. reflexivity.
  - apply not_in_by_test. reflexivity.
  - vm_compute. lia.
  - discriminate.
Defined.

(** X11.  GET reports what POST has set.  Whenever a POST to a relay URI
    with an id of at most seven bytes has set a state, a GET of the same
    URI afterwards answers 200 with that id and that state and changes
    nothing. *)
Theorem get_after_post_reports_the_state_set :
  forall (timer_ok : bool) (t : relay_table) (uri : list byte) (k : nat)
         (body : recv_result) (ui : relay_control_ui_t) (id : Z) (st : bool),
    c_strrchr uri SLASH = Some k ->
    c_strlen (skipn (S k) uri) <= 7 ->
    t (post_relay_id uri) = Some ui ->
    button ui = true ->
    let o := relay_post_handler timer_ok t uri body in
    In (SetState id st) (r_effects o) ->
    relay_get_handler (r_table o) uri =
    {| r_effects := [Lookup id; Reply HTTP_200 (ReplyState id st)];
       r_ret := ESP_OK; r_table := r_table o |}.
Proof.
  intros timer_ok t uri k body ui id st Hk Hlen Ht Hb o Hin.
  pose proof (short_ids_agree uri k Hk Hlen) as Hget.
  subst o. revert Hin. unfold relay_post_handler, relay_get_handler.
  rewrite Hget.
  destruct ((post_relay_id uri <? 1) || (post_relay_id uri >? 6)) eqn:Hrange.
  { cbn [r_effects]. intros [H|[]]. discriminate. }
  rewrite Ht.
  assert (Hset : forall ns,
             In (SetState id st)
                [Lookup (post_relay_id uri); SetState (post_relay_id uri) ns;
                 Reply HTTP_200 (ReplyState (post_relay_id uri) ns)] ->
             match update_relay t (post_relay_id uri)
                     (relay_control_ui_set_state timer_ok ui ns) (post_relay_id uri) with
             | Some ui0 =>
                 {| r_effects := [Lookup (post_relay_id uri);
                                  Reply HTTP_200
                                    (ReplyState (post_relay_id uri)
                                       (relay_control_ui_get_state (Some ui0)))];
                    r_ret := ESP_OK;
                    r_table := update_relay t (post_relay_id uri)
                                 (relay_control_ui_set_state timer_ok ui ns) |}
             | None =>
                 {| r_effects := [Lookup (post_relay_id uri);
                                  Reply HTTP_503 ReplyNotInitialized];
                    r_ret := ESP_OK;
                    r_table := update_relay t (post_relay_id uri)
                                 (relay_control_ui_set_state timer_ok ui ns) |}
             end =
             {| r_effects := [Lookup id; Reply HTTP_200 (ReplyState id st)];
                r_ret := ESP_OK;
                r_table := update_relay t (post_relay_id uri)
                             (relay_control_ui_set_state timer_ok ui ns) |}).
  { intros ns [H|[H|[H|[]]]]; try discriminate. injection H as <- <-.
    unfold update_relay at 1. rewrite Z.eqb_refl.
    cbn [relay_control_ui_get_state]. now rewrite set_state_sets. }
  destruct body as [[|b chunk]| |]; cbn [r_effects r_table];
    try (intros [H|[H|[]]]; discriminate).
  intros Hin. now apply Hset.
Qed.

Lemma get_after_post_reports_the_state_set_witness :
  let o := relay_post_handler true five_relays (bytes_of_string "/api/relay/2")
                              (RecvData (bytes_of_string "{}")) in
  relay_get_handler (r_table o) (bytes_of_string "/api/relay/2") =
  {| r_effects := [Lookup 2; Reply HTTP_200 (ReplyState 2 true)];
     r_ret := ESP_OK; r_table := r_table o |}.
Proof.
  apply (get_after_post_reports_the_state_set true five_relays
           (bytes_of_string "/api/relay/2") 10 (RecvData (bytes_of_string "{}"))
           relay_off 2 true).
  - reflexivity.
  - vm_compute. discriminate.
  - reflexivity.
  - reflexivity.
  - vm_compute. right. left. reflexivity.
Defined.

(** ** The relay button and its countdown *)

Ltac relay_cases ui :=
  destruct ui as [b s tr rem hw];
  unfold relay_control_ui_set_state, relay_control_ui_toggle, timer_callback,
    control_relay_hardware, start_timer, stop_timer, relay_hardware_set_state,
    RELAY_TIMER_DURATION_SECONDS in *;
  cbn [negb button state hardware timer_running time_remaining] in *.

Lemma countdown_ok_set_state (timer_ok : bool) (ui : relay_control_ui_t) (st : bool) :
  countdown_ok ui -> countdown_ok (relay_control_ui_set_state timer_ok ui st).
Proof.
  unfold countdown_ok. relay_cases ui. intros [Hr Hz].
  destruct b; cbn [negb]; [|auto].
  destruct hw as [hw|], st, s; cbn; split; try lia; try discriminate; auto.
Qed.

Lemma countdown_ok_toggle (timer_ok : bool) (ui : relay_control_ui_t) :
  countdown_ok ui -> countdown_ok (relay_control_ui_toggle timer_ok ui).
Proof.
  unfold countdown_ok. relay_cases ui. intros [Hr Hz].
  destruct s; cbn; split; try lia; try discriminate; auto.
Qed.

Lemma countdown_ok_tick (ui : relay_control_ui_t) :
  countdown_ok ui -> countdown_ok (timer_callback ui).
Proof.
  unfold countdown_ok. relay_cases ui. intros [Hr Hz].
  destruct (Z.ltb_spec 0 rem) as [Hpos|Hle]; [|auto].
  destruct (Z.eqb_spec (rem - 1) 0) as [Hlast|Hmore].
  - destruct hw; cbn; split; auto; lia.
  - cbn. split; [lia|]. intros Hs. specialize (Hz Hs). lia.
Qed.

Lemma countdown_ok_button (timer_ok : bool) (code : lv_event_code_t) (b : relay_button) :
  countdown_ok (ui_obj b) -> countdown_ok (ui_obj (relay_button_cb timer_ok code b)).
Proof.
  destruct b as [ui lp]. unfold countdown_ok, relay_button_cb. cbn [ui_obj long_press_active].
  relay_cases ui. intros [Hr Hz].
  destruct code; [destruct lp | | ]; cbn [ui_obj]; auto.
  - destruct hw, s; cbn; split; try lia; try discriminate; auto.
  - destruct s; cbn [negb]; [cbn; auto|].
    destruct hw; cbn; split; try lia; discriminate.
Qed.

Lemma countdown_ok_step (b : relay_button) (e : relay_event) :
  countdown_ok (ui_obj b) -> countdown_ok (ui_obj (relay_step b e)).
Proof.
  intros H. destruct e as [code ok| |st ok|ok]; cbn [relay_step].
  - now apply countdown_ok_button.
  - destruct (timer_running (ui_obj b)); [|exact H]. now apply countdown_ok_tick.
  - now apply countdown_ok_set_state.
  - now apply countdown_ok_toggle.
Qed.

(** X12.  An OFF relay shows no countdown.  From the object
    [relay_control_ui_create] returns, through any sequence of clicks,
    long presses, timer ticks and calls of [relay_control_ui_set_state]
    and [relay_control_ui_toggle], with timers that start or fail to,
    [time_remaining] stays between 0 and [RELAY_TIMER_DURATION_SECONDS]
    and is 0 whenever the relay is OFF. *)
Theorem off_relay_shows_no_countdown :
  forall (hw : option relay_hardware_t) (events : list relay_event),
    let ui := ui_obj (relay_run (relay_control_ui_create hw) events) in
    0 <= time_remaining ui <= RELAY_TIMER_DURATION_SECONDS
    /\ (state ui = false -> time_remaining ui = 0).
Proof.
  intros hw events.
  assert (Hinit : countdown_ok (ui_obj (relay_control_ui_create hw))).
  { unfold countdown_ok, RELAY_TIMER_DURATION_SECONDS. cbn. split; [lia | reflexivity]. }
  revert Hinit. unfold relay_run. generalize (relay_control_ui_create hw).
  induction events as [|e events IH]; intros b Hb; cbn [fold_left]; [exact Hb|].
  apply IH. now apply countdown_ok_step.
Qed.








(** X14.  [relay_control_ui_toggle] leaves the hardware behind.  It
    flips the state the object shows and starts or stops the countdown,
    but makes no call to [control_relay_hardware]: on a relay with a
    hardware object that agreed with the shown state, the pin and the
    recorded hardware state keep their old value and no longer agree
    with it. *)
Theorem toggle_leaves_the_hardware_behind :
  forall (timer_ok : bool) (ui : relay_control_ui_t) (hw : relay_hardware_t),
    hardware ui = Some hw ->
    hardware_follows ui ->
    let ui' := relay_control_ui_toggle timer_ok ui in
    state ui' = negb (state ui)
    /\ hardware ui' = Some hw
    /\ hw_state hw = negb (state ui')
    /\ gpio_level_on hw = negb (state ui')
    /\ ~ hardware_follows ui'.
Proof.
  intros timer_ok ui hw0 Hhw. unfold hardware_follows. rewrite Hhw.
  relay_cases ui. subst hw. intros [Hg Hs].
  destruct s; cbn; rewrite Hg, Hs; repeat split; auto; intros [H _]; discriminate.
Qed.

Lemma toggle_leaves_the_hardware_behind_witness :
  let ui' := relay_control_ui_toggle true relay_off in
  state ui' = negb (state relay_off)
  /\ hardware ui' = Some relay_1_hw
  /\ hw_state relay_1_hw = negb (state ui')
  /\ gpio_level_on relay_1_hw = negb (state ui')
  /\ ~ hardware_follows ui'.
Proof.
  apply (toggle_leaves_the_hardware_behind true relay_off relay_1_hw).
  - reflexivity.
  - split; reflexivity.
Defined.

Lemma ticks_count_down (ui : relay_control_ui_t) (k : Z) :
  state ui = true -> time_remaining ui = k -> 0 < k ->
  forall n : nat,
    let ui' := Nat.iter n timer_callback ui in
    time_remaining ui' = Z.max 0 (k - Z.of_nat n)
    /\ state ui' = (Z.of_nat n <? k)
    /\ button ui' = button ui
    /\ hardware ui' = (if Z.of_nat n <? k then hardware ui
                       else option_map (fun hw => relay_hardware_set_state hw false)
                                       (hardware ui)).
Proof.
  intros Hs Hk Hpos n. cbv zeta. induction n as [|n IH].
  - change (Nat.iter 0 timer_callback ui) with ui. change (Z.of_nat 0) with 0.
    destruct (Z.ltb_spec 0 k); [|lia]. repeat split; auto. lia.
  - change (Nat.iter (S n) timer_callback ui)
      with (timer_callback (Nat.iter n timer_callback ui)).
    destruct IH as (Hrem & Hst & Hbt & Hhw).
    set (u := Nat.iter n timer_callback ui) in *. clearbody u.
    rewrite Nat2Z.inj_succ.
    destruct u as [b s tr rem hw]. cbn [time_remaining state button hardware] in *.
    unfold timer_callback, control_relay_hardware.
    cbn [time_remaining state button hardware timer_running].
    destruct (Z.ltb_spec (Z.of_nat n) k) as [Hlt|Hge].
    + assert (Hrem' : rem = k - Z.of_nat n) by lia.
      destruct (Z.ltb_spec 0 rem) as [_|Hbad]; [|lia].
      destruct (Z.eqb_spec (rem - 1) 0) as [Hlast|Hmore].
      * destruct (Z.ltb_spec (Z.succ (Z.of_nat n)) k) as [Hx|_]; [lia|].
        rewrite Hhw. destruct (hardware ui); cbn; repeat split; auto; lia.
      * destruct (Z.ltb_spec (Z.succ (Z.of_nat n)) k) as [_|Hx]; [|lia].
        cbn. repeat split; auto. lia.
    + assert (Hrem' : rem = 0) by lia. clear Hrem. subst rem. cbn.
      destruct (Z.ltb_spec (Z.succ (Z.of_nat n)) k) as [Hx|_]; [lia|].
      repeat split; auto. lia.
Qed.

(** X15.  The countdown switches the relay off.  A relay turned on with
    [relay_control_ui_set_state] whose timer started stays ON for the
    first [RELAY_TIMER_DURATION_SECONDS - 1] ticks of the timer and is
    OFF from the tick after on; [time_remaining] counts down to 0 and
    stays there, and at 0 the hardware has been switched off too. *)
Theorem countdown_switches_the_relay_off :
  forall (ui : relay_control_ui_t) (n : nat),
    button ui = true -> state ui = false ->
    let on := relay_control_ui_set_state true ui true in
    let ui' := Nat.iter n timer_callback on in
    state on = true
    /\ time_remaining ui' = Z.max 0 (RELAY_TIMER_DURATION_SECONDS - Z.of_nat n)
    /\ state ui' = (Z.of_nat n <? RELAY_TIMER_DURATION_SECONDS)
    /\ option_map hw_state (hardware ui') = option_map (fun _ => state ui') (hardware ui).
Proof.
  intros ui n Hb Hs on ui'.
  assert (Hon : state on = true) by (subst on; now apply set_state_sets).
  assert (Hrem : time_remaining on = RELAY_TIMER_DURATION_SECONDS).
  { subst on. relay_cases ui. subst b s. cbn. destruct hw; reflexivity. }
  assert (Hhw : hardware on = option_map (fun hw => relay_hardware_set_state hw true)
                                         (hardware ui)).
  { subst on. relay_cases ui. subst b s. cbn. destruct hw; reflexivity. }
  destruct (ticks_count_down on RELAY_TIMER_DURATION_SECONDS Hon Hrem eq_refl n)
    as (H1 & H2 & _ & H4).
  fold ui' in H1, H2, H4. split; [exact Hon|]. split; [exact H1|]. split; [exact H2|].
  rewrite H4, H2, Hhw.
  destruct (Z.of_nat n <? RELAY_TIMER_DURATION_SECONDS), (hardware ui);
    cbn [option_map]; rewrite ?hw_set_state_state; reflexivity.
Qed.

Lemma countdown_switches_the_relay_off_witness :
  let on := relay_control_ui_set_state true relay_off true in
  let ui' := Nat.iter 10 timer_callback on in
  state on = true
  /\ time_remaining ui' = Z.max 0 (RELAY_TIMER_DURATION_SECONDS - Z.of_nat 10)
  /\ state ui' = (Z.of_nat 10 <? RELAY_TIMER_DURATION_SECONDS)
  /\ option_map hw_state (hardware ui')
     = option_map (fun _ => state ui') (hardware relay_off).
Proof.
  apply (countdown_switches_the_relay_off relay_off 10); reflexivity.
Defined.




(** ** The master button *)

Lemma set_state_off (timer_ok : bool) (ui : relay_control_ui_t) :
  button ui = true ->
  button (relay_control_ui_set_state timer_ok ui false)
  && state (relay_control_ui_set_state timer_ok ui false) = false.
Proof.
  intros Hb. rewrite (set_state_sets timer_ok ui false Hb). apply andb_false_r.
Qed.

Lemma turn_off_relays_spec (timer_ok : bool) (ids : list Z) :
  forall (t : relay_table) (id : Z),
    (In id ids \/ relay_is_on t id = false ->
     relay_is_on (turn_off_relays timer_ok t ids) id = false)
    /\ (~ In id ids -> turn_off_relays timer_ok t ids id = t id).
Proof.
  induction ids as [|i ids IH]; intros t id; cbn [turn_off_relays In].
  - split; [intros [[]|H]; exact H | reflexivity].
  - (* the table after the first relay has been looked at *)
    set (t1 := match t i with
               | Some relay =>
                   if negb (button relay) then t
                   else if relay_control_ui_get_state (Some relay)
                        then update_relay t i
                               (relay_control_ui_set_state timer_ok relay false)
                        else t
               | None => t
               end).
    assert (Hrun : match t i with
                   | Some relay =>
                       if negb (button relay) then turn_off_relays timer_ok t ids
                       else if relay_control_ui_get_state (Some relay)
                            then turn_off_relays timer_ok
                                   (update_relay t i
                                      (relay_control_ui_set_state timer_ok relay false))
                                   ids
                            else turn_off_relays timer_ok t ids
                   | None => turn_off_relays timer_ok t ids
                   end = turn_off_relays timer_ok t1 ids).
    { subst t1. destruct (t i) as [relay|]; [|reflexivity].
      destruct (negb (button relay)); [reflexivity|].
      now destruct (relay_control_ui_get_state (Some relay)). }
    rewrite Hrun. clear Hrun.
    assert (Hi : relay_is_on t1 i = false).
    { subst t1. unfold relay_is_on. destruct (t i) as [relay|] eqn:Hti.
      - destruct (button relay) eqn:Hb; cbn [negb].
        + cbn [relay_control_ui_get_state].
          destruct (state relay) eqn:Hs.
          * unfold update_relay. rewrite Z.eqb_refl.
            cbn [relay_control_ui_get_state]. now apply set_state_off.
          * now rewrite Hti, Hb.
        + now rewrite Hti, Hb.
      - now rewrite Hti. }
    assert (Hother : forall j, j <> i -> t1 j = t j).
    { intros j Hj. subst t1. destruct (t i) as [relay|]; [|reflexivity].
      destruct (negb (button relay)); [reflexivity|].
      destruct (relay_control_ui_get_state (Some relay)); [|reflexivity].
      unfold update_relay. destruct (Z.eqb_spec j i); [contradiction|reflexivity]. }
    destruct (IH t1 id) as [IHoff IHsame]. split.
    + intros [[<-|Hin]|Hoff].
      * apply IHoff. now right.
      * apply IHoff. now left.
      * apply IHoff. right. destruct (Z.eq_dec id i) as [->|Hne]; [exact Hi|].
        unfold relay_is_on in *. now rewrite Hother.
    + intros Hnot. rewrite IHsame by tauto. apply Hother. intros ->. tauto.
Qed.

(** X17.  One click on the master button switches every controlled
    relay off.  After the loop of [master_button_cb], no relay of the
    list is a valid object that is ON, however often a relay is listed
    and whichever entries are NULL or invalid; relays outside the list
    are as they were. *)
Theorem master_click_switches_every_relay_off :
  forall (timer_ok : bool) (master : master_button_ui_t) (t : relay_table) (id : Z),
    m_button master = true ->
    let t' := snd (master_button_cb timer_ok LV_EVENT_CLICKED master t) in
    (In id (controlled master) -> relay_is_on t' id = false)
    /\ (~ In id (controlled master) -> t' id = t id).
Proof.
  intros timer_ok master t id Hb t'. subst t'. unfold master_button_cb.
  rewrite Hb. cbn [negb snd].
  destruct (turn_off_relays_spec timer_ok (controlled master) t id) as [Hoff Hsame].
  split; [intros Hin; apply Hoff; now left | exact Hsame].
Qed.

Lemma master_click_switches_every_relay_off_witness :
  let master := {| m_button := true; m_label := true; controlled := [1; 2; 2];
                   shown := MasterOn |} in
  let t := update_relay five_relays 2 relay_on_counting in
  let t' := snd (master_button_cb true LV_EVENT_CLICKED master t) in
  (In 2 (controlled master) -> relay_is_on t' 2 = false)
  /\ (~ In 2 (controlled master) -> t' 2 = t 2).
Proof.
  apply (master_click_switches_every_relay_off true
           {| m_button := true; m_label := true; controlled := [1; 2; 2];
              shown := MasterOn |}
           (update_relay five_relays 2 relay_on_counting) 2).
  reflexivity.
Defined.

(** X18.  After a click the master button shows OFF.  Whatever the
    relays were and whatever the button showed, a click on a master
    button with its button and label in place ends with the red Master
    OFF appearance. *)
Theorem master_shows_off_after_a_click :
  forall (timer_ok : bool) (master : master_button_ui_t) (t : relay_table),
    m_button master = true -> m_label master = true ->
    shown (fst (master_button_cb timer_ok LV_EVENT_CLICKED master t)) = MasterOff.
Proof.
  intros timer_ok master t Hb Hl. unfold master_button_cb. rewrite Hb. cbn [negb fst].
  unfold master_button_ui_update_appearance. rewrite Hb, Hl. cbn [negb orb shown].
  assert (Hnone : existsb (relay_is_on (turn_off_relays timer_ok t (controlled master)))
                          (controlled master) = false).
  { destruct (existsb _ _) eqn:He; [|reflexivity].
    apply existsb_exists in He as (id & Hin & Hon).
    destruct (turn_off_relays_spec timer_ok (controlled master) t id) as [Hoff _].
    rewrite Hoff in Hon by now left. discriminate. }
  now rewrite Hnone.
Qed.

Lemma master_shows_off_after_a_click_witness :
  shown (fst (master_button_cb true LV_EVENT_CLICKED
                {| m_button := true; m_label := true; controlled := [1; 2; 2];
                   shown := MasterOn |}
                (update_relay five_relays 2 relay_on_counting))) = MasterOff.
Proof.
  apply (master_shows_off_after_a_click true
           {| m_button := true; m_label := true; controlled := [1; 2; 2];
              shown := MasterOn |}
           (update_relay five_relays 2 relay_on_counting)); reflexivity.
Defined.

(** ** Static files *)

Lemma bytes_eqb_eq (a b : list byte) : bytes_eqb a b = true <-> a = b.
Proof.
  revert b. induction a as [|x a IH]; intros [|y b]; cbn [bytes_eqb];
    try (split; [discriminate | congruence]); [tauto|].
  rewrite andb_true_iff, Z.eqb_eq, IH. split; [intros [-> ->] | intros H]; auto.
  now injection H.
Qed.

Lemma firstn_nil_iff (n : nat) (l : list byte) :
  (0 < n)%nat -> firstn n l = [] -> l = [].
Proof. destruct n; [lia|]. now destruct l. Qed.

Lemma send_file_spec (fp : file_platform) (turns : nat) :
  forall (rest : list byte) (i : nat),
    (length rest <= turns)%nat ->
    exists tail,
      rest = concat (chunks_sent (fst (send_file fp i rest turns))) ++ tail
      /\ (snd (send_file fp i rest turns) = true <-> tail = [])
      /\ Forall (fun c => (0 < length c <= CHUNK_SIZE)%nat)
                (chunks_sent (fst (send_file fp i rest turns)))
      /\ Forall is_chunk (fst (send_file fp i rest turns)).
Proof.
  induction turns as [|turns IH]; intros rest i Hlen.
  - destruct rest; [|cbn in Hlen; lia]. exists []. cbn. repeat split; auto.
  - cbn [send_file].
    destruct (firstn CHUNK_SIZE rest) as [|b chunk] eqn:Hchunk.
    + apply firstn_nil_iff in Hchunk; [|unfold CHUNK_SIZE; lia]. subst rest.
      exists []. cbn. repeat split; auto.
    + rewrite <- Hchunk.
      assert (Hpos : (0 < length (firstn CHUNK_SIZE rest) <= CHUNK_SIZE)%nat).
      { rewrite Hchunk at 1. cbn [length]. rewrite length_firstn. lia. }
      assert (Hsplit : rest = firstn CHUNK_SIZE rest ++ skipn CHUNK_SIZE rest)
        by (symmetry; apply firstn_skipn).
      destruct (esp_err_eqb (resp_send_chunk fp i) ESP_OK) eqn:Hsend.
      * assert (Hr : resp_send_chunk fp i = ESP_OK)
          by (destruct (resp_send_chunk fp i); cbn in Hsend; congruence).
        destruct (IH (skipn CHUNK_SIZE rest) (S i)) as (tail & Hcat & Hok & Hall & Hch).
        { rewrite length_skipn. rewrite length_firstn in Hpos. lia. }
        destruct (send_file fp (S i) (skipn CHUNK_SIZE rest) turns) as [es ok].
        cbn [fst snd] in *. rewrite Hr. cbn [chunks_sent concat].
        exists tail. split; [|split; [exact Hok|split]].
        -- rewrite <- app_assoc, <- Hcat. exact Hsplit.
        -- constructor; [exact Hpos | exact Hall].
        -- constructor; [now exists (firstn CHUNK_SIZE rest), ESP_OK | exact Hch].
      * exists rest. cbn [fst snd].
        assert (Hnot : chunks_sent [RespChunk (firstn CHUNK_SIZE rest)
                                               (resp_send_chunk fp i)] = []).
        { cbn. destruct (resp_send_chunk fp i); cbn in Hsend; congruence. }
        rewrite Hnot. cbn [concat app]. split; [reflexivity|]. split; [|split].
        -- split; [discriminate|]. intros ->. cbn in Hchunk. discriminate.
        -- constructor.
        -- constructor; [|constructor].
           now exists (firstn CHUNK_SIZE rest), (resp_send_chunk fp i).
Qed.



Lemma no_fopen_among_chunks (es : list file_effect) (path : list byte) :
  Forall is_chunk es -> ~ In (Fopen path) es.
Proof.
  intros Hall Hin. rewrite Forall_forall in Hall.
  destruct (Hall _ Hin) as (d & r & H). discriminate.
Qed.

Lemma file_handler_cases (fp : file_platform) (uri : list byte) :
  (c_streq uri "/" = false /\ FILEPATH_SIZE - 8 < c_strlen uri
   /\ file_handler fp uri =
      ([RespStatus "414 URI Too Long"; RespSend "URI too long"], ESP_FAIL))
  \/ ((c_streq uri "/" = true \/ c_strlen uri <= FILEPATH_SIZE - 8)
      /\ len (path_of uri) < FILEPATH_SIZE
      /\ match fopen fp (path_of uri) with
         | None =>
             file_handler fp uri =
             ([Fopen (path_of uri); RespStatus "404 Not Found";
               RespSend "File not found"], ESP_FAIL)
         | Some content =>
             exists es ok,
               send_file fp 0 content (length content) = (es, ok)
               /\ file_handler fp uri =
                  ([Fopen (path_of uri); RespType (get_content_type (path_of uri))]
                   ++ es ++ (if ok then [Fclose; RespLastChunk] else [Fclose]),
                   if ok then ESP_OK else ESP_FAIL)
         end).
Proof.
  unfold file_handler, path_of.
  destruct (c_streq uri "/") eqn:Hroot.
  - right. split; [now left|]. split; [reflexivity|].
    destruct (fopen fp _) as [content|]; [|reflexivity].
    destruct (send_file fp 0 content (length content)) as [es ok].
    exists es, ok. split; [reflexivity|]. now destruct ok.
  - destruct (Z.ltb_spec (FILEPATH_SIZE - 8) (c_strlen uri)) as [Hlong|Hfit].
    + left. auto.
    + right. split; [now right|].
      assert (Hpath : snprintf_spiffs uri = bytes_of_string "/spiffs" ++ c_str uri).
      { unfold snprintf_spiffs. apply firstn_all2. rewrite length_app.
        unfold c_strlen, len, FILEPATH_SIZE in *.
        change (length (bytes_of_string "/spiffs")) with 7%nat. lia. }
      rewrite Hpath. split.
      { unfold len. rewrite length_app. unfold c_strlen, len, FILEPATH_SIZE in *.
        change (length (bytes_of_string "/spiffs")) with 7%nat. lia. }
      destruct (fopen fp _) as [content|]; [|reflexivity].
      destruct (send_file fp 0 content (length content)) as [es ok].
      exists es, ok. split; [reflexivity|]. now destruct ok.
Qed.

(** X19.  The path is never cut.  [file_handler] answers a URI of more
    than 248 bytes with 414 and opens no file; for every other URI the
    one path it opens is /spiffs/index.html when the URI is a single
    slash and otherwise /spiffs followed by the whole URI, which has at
    most 255 bytes: [snprintf] never shortens it and [filepath[256]]
    holds it with its terminator. *)
Theorem file_path_is_never_cut :
  forall (fp : file_platform) (uri : list byte),
    let es := fst (file_handler fp uri) in
    (248 < c_strlen uri ->
     file_handler fp uri
     = ([RespStatus "414 URI Too Long"; RespSend "URI too long"], ESP_FAIL))
    /\ (forall path, In (Fopen path) es ->
          hd_error es = Some (Fopen path)
          /\ length (filter is_fopen es) = 1%nat
          /\ len path <= 255
          /\ (if c_streq uri "/" then path = bytes_of_string "/spiffs/index.html"
              else path = bytes_of_string "/spiffs" ++ c_str uri)).
Proof.
  intros fp uri es. subst es.
  destruct (file_handler_cases fp uri) as [(Hroot & Hlong & Hres)|(Hfit & Hlen & Hres)].
  - rewrite Hres. split; [reflexivity|]. cbn [fst].
    intros path [H|[H|[]]]; discriminate.
  - split.
    { intros Hlong. exfalso. destruct Hfit as [Hroot|Hfit].
      - unfold c_streq in Hroot. apply bytes_eqb_eq in Hroot.
        unfold c_strlen in Hlong. rewrite Hroot in Hlong. cbn in Hlong. lia.
      - unfold FILEPATH_SIZE in Hfit. lia. }
    assert (Hshape : exists es0, fst (file_handler fp uri) = Fopen (path_of uri) :: es0
                                 /\ forall p, ~ In (Fopen p) es0).
    { destruct (fopen fp (path_of uri)) as [content|].
      - destruct Hres as (es & ok & Hsend & ->). cbn [fst app].
        eexists. split; [reflexivity|]. intros p [H|Hin]; [discriminate|].
        apply in_app_or in Hin as [Hin|Hin].
        + destruct (send_file_spec fp (length content) content 0 (le_n _))
            as (_ & _ & _ & _ & Hch).
          rewrite Hsend in Hch. now apply (no_fopen_among_chunks es p Hch).
        + destruct ok; [destruct Hin as [H|[H|[]]] | destruct Hin as [H|[]]];
            discriminate.
      - rewrite Hres. cbn [fst]. eexists. split; [reflexivity|].
        intros p [H|[H|[]]]; discriminate. }
    destruct Hshape as (es0 & -> & Hnone).
    intros path [H|Hin]; [|now elim (Hnone path)]. injection H as <-.
    split; [reflexivity|]. split; [|split].
    + cbn [filter is_fopen length]. f_equal.
      assert (Hf : filter is_fopen es0 = []).
      { clear -Hnone. induction es0 as [|e es0 IH]; [reflexivity|].
        cbn [filter]. destruct e; cbn [is_fopen];
          try (apply IH; intros p Hin; apply (Hnone p); now right).
        exfalso. apply (Hnone path). now left. }
      now rewrite Hf.
    + unfold FILEPATH_SIZE in Hlen. lia.
    + unfold path_of. now destruct (c_streq uri "/").
Qed.

Lemma file_path_is_never_cut_witness :
  file_handler two_pages (repeat SLASH 249)
  = ([RespStatus "414 URI Too Long"; RespSend "URI too long"], ESP_FAIL).
Proof.
  apply (file_path_is_never_cut two_pages (repeat SLASH 249)).
  vm_compute. reflexivity.
Defined.



Lemma find_last_none (c : byte) (l : list byte) : ~ In c l -> find_last c l = None.
Proof.
  induction l as [|b l IH]; [reflexivity|]. cbn [find_last In]. intros H.
  rewrite IH by tauto. destruct (Z.eqb_spec b c); [|reflexivity]. tauto.
Qed.

Lemma find_last_app (c : byte) (a e : list byte) :
  ~ In c e -> find_last c (a ++ c :: e) = Some (length a).
Proof.
  intros He. induction a as [|b a IH]; cbn [app find_last length].
  - rewrite find_last_none by exact He. now rewrite Z.eqb_refl.
  - now rewrite IH.
Qed.

Lemma content_type_by_extension (name ext : list byte) :
  ~ In NUL name -> ~ In NUL ext -> ~ In DOT ext ->
  get_content_type (name ++ DOT :: ext) = get_content_type (DOT :: ext).
Proof.
  intros Hn He Hd. unfold get_content_type, c_strrchr.
  assert (Hclean : ~ In NUL (DOT :: ext)) by (intros [H|H]; [discriminate | tauto]).
  assert (Hall : ~ In NUL (name ++ DOT :: ext)).
  { intros H. apply in_app_or in H as [H|H]; tauto. }
  rewrite (c_str_no_nul _ Hall), (c_str_no_nul _ Hclean).
  rewrite find_last_app by exact Hd.
  pose proof (find_last_app DOT [] ext Hd) as H0. cbn [app length] in H0.
  rewrite H0. cbn [skipn]. now rewrite skipn_exact.
Qed.

(** X21.  The content type follows the text behind the last dot.  For a
    file name without NUL, [get_content_type] depends only on the dot
    that has no dot behind it and on what follows it: each of the twelve
    extensions the function knows gives its type whatever precedes it,
    and a name without any dot gives application/octet-stream. *)
Theorem content_type_follows_the_last_extension :
  forall (name : list byte),
    ~ In NUL name ->
    (forall ext, ~ In NUL ext -> ~ In DOT ext ->
       get_content_type (name ++ DOT :: ext) = get_content_type (DOT :: ext))
    /\ Forall (fun p => get_content_type (name ++ bytes_of_string (fst p)) = snd p)
         [(".html", "text/html"); (".htm", "text/html"); (".css", "text/css");
          (".js", "application/javascript"); (".json", "application/json");
          (".png", "image/png"); (".jpg", "image/jpeg"); (".jpeg", "image/jpeg");
          (".gif", "image/gif"); (".svg", "image/svg+xml");
          (".ico", "image/x-icon")]%string
    /\ (~ In DOT name -> get_content_type name = "application/octet-stream"%string).
Proof.
  intros name Hn. split; [|split].
  - intros ext He Hd. now apply content_type_by_extension.
  - repeat constructor; cbn [fst snd];
      match goal with
      | |- get_content_type (name ++ bytes_of_string ?e) = _ =>
          change (bytes_of_string e) with (DOT :: tl (bytes_of_string e));
          rewrite content_type_by_extension;
          [reflexivity | exact Hn | apply not_in_by_test; reflexivity
           | apply not_in_by_test; reflexivity]
      end.
  - intros Hd. unfold get_content_type, c_strrchr.
    rewrite (c_str_no_nul _ Hn), find_last_none by exact Hd. reflexivity.
Qed.

Lemma content_type_follows_the_last_extension_witness :
  let name := bytes_of_string "/spiffs/app.min" in
  (forall ext, ~ In NUL ext -> ~ In DOT ext ->
     get_content_type (name ++ DOT :: ext) = get_content_type (DOT :: ext))
  /\ Forall (fun p => get_content_type (name ++ bytes_of_string (fst p)) = snd p)
       [(".html", "text/html"); (".htm", "text/html"); (".css", "text/css");
        (".js", "application/javascript"); (".json", "application/json");
        (".png", "image/png"); (".jpg", "image/jpeg"); (".jpeg", "image/jpeg");
        (".gif", "image/gif"); (".svg", "image/svg+xml");
        (".ico", "image/x-icon")]%string
  /\ (~ In DOT name -> get_content_type name = "application/octet-stream"%string).
Proof.
  apply (content_type_follows_the_last_extension (bytes_of_string "/spiffs/app.min")).
  apply not_in_by_test. reflexivity.
Defined.

(** X22.  A page without an extension is served as a download.  For a
    URI other than the single slash that has no dot in it, such as the
    /update that [update_page_handler] is registered for, the file read
    is the one of that name under /spiffs (not index.html) and its
    content type is application/octet-stream. *)
Theorem page_without_extension_is_octet_stream :
  forall (fp : file_platform) (uri content : list byte),
    c_streq uri "/" = false ->
    c_strlen uri <= 248 ->
    ~ In DOT (c_str uri) ->
    fopen fp (bytes_of_string "/spiffs" ++ c_str uri) = Some content ->
    exists rest,
      fst (update_page_handler fp uri) =
      Fopen (bytes_of_string "/spiffs" ++ c_str uri)
      :: RespType "application/octet-stream" :: rest.
Proof.
  intros fp uri content Hroot Hlen Hdot Hopen. unfold update_page_handler.
  destruct (file_handler_cases fp uri) as [(_ & Hlong & _)|(_ & _ & Hres)].
  { unfold FILEPATH_SIZE in Hlong. lia. }
  unfold path_of in Hres. rewrite Hroot, Hopen in Hres.
  destruct Hres as (es & ok & _ & ->). cbn [fst app].
  eexists. f_equal. f_equal. f_equal.
  unfold get_content_type, c_strrchr.
  assert (Hclean : ~ In NUL (bytes_of_string "/spiffs" ++ c_str uri)).
  { intros H. apply in_app_or in H as [H|H]; [|now apply (c_str_clean uri)].
    revert H. apply not_in_by_test. reflexivity. }
  rewrite (c_str_no_nul _ Hclean), find_last_none; [reflexivity|].
  intros H. apply in_app_or in H as [H|H]; [|now apply Hdot].
  revert H. apply not_in_by_test. reflexivity.
Qed.

Lemma page_without_extension_is_octet_stream_witness :
  exists rest,
    fst (update_page_handler two_pages (bytes_of_string "/update")) =
    Fopen (bytes_of_string "/spiffs" ++ c_str (bytes_of_string "/update"))
    :: RespType "application/octet-stream" :: rest.
Proof.
  apply (page_without_extension_is_octet_stream two_pages (bytes_of_string "/update")
           (bytes_of_string "<html></html>")).
  - reflexivity.
  - vm_compute. discriminate.
  - apply not_in_by_test. reflexivity.
  - reflexivity.
Defined.

(** ** Starting and stopping the server *)

Lemma register_length (hp : httpd_platform) (rs0 : list route) :
  forall rs : list route,
    (length (fold_left (register hp) rs0 rs) <= length rs + length rs0)%nat.
Proof.
  induction rs0 as [|r rs0 IH]; intros rs; cbn [fold_left length]; [lia|].
  specialize (IH (register hp rs r)). unfold register in *.
  destruct (esp_err_eqb (httpd_register_uri_handler hp r) ESP_OK);
    [rewrite length_app in IH; cbn [length] in IH|]; lia.
Qed.

Lemma server_step_ok (s : server_state) (c : server_call) :
  server_running s = server_handle s ->
  (server_running s = false -> routes s = []) ->
  (length (routes s) <= 15)%nat ->
  server_running (server_step s c) = server_handle (server_step s c)
  /\ (server_running (server_step s c) = false -> routes (server_step s c) = [])
  /\ (length (routes (server_step s c)) <= 15)%nat.
Proof.
  destruct s as [run h rs]. cbn [server_running server_handle routes].
  intros <- Hr Hl. destruct c as [hp|]; cbn [server_step].
  - unfold http_server_start. cbn [server_running server_handle routes].
    destruct run; [cbn; auto|].
    destruct (httpd_start hp); cbn [snd server_running server_handle routes]; auto.
    destruct (handle_stored hp); cbn [snd server_running server_handle routes].
    + split; [reflexivity|]. split; [discriminate|].
      pose proof (register_length hp registrations []) as H. cbn [length] in H.
      exact H.
    + auto.
  - unfold http_server_stop. cbn [server_running server_handle routes].
    destruct run; cbn; repeat split; auto. lia.
Qed.

(** X23.  The running flag and the handle go together.  Through any
    sequence of [http_server_start] and [http_server_stop] calls,
    whatever ESP-IDF answers, [server_running] is true exactly when
    [server_handle] is not NULL, so that the second test of
    [http_server_stop] never decides; a server that is not running has no
    handler registered, a running one at most the 15 of
    [http_server_start], half of [max_uri_handlers]; and
    [http_server_stop] always leaves the state of a fresh boot. *)
Theorem running_flag_and_handle_go_together :
  forall (calls : list server_call),
    let s := fold_left server_step calls server_initial in
    http_server_is_running s = server_handle s
    /\ (http_server_is_running s = false -> routes s = [])
    /\ 2 * Z.of_nat (length (routes s)) <= max_uri_handlers
    /\ http_server_stop s = (ESP_OK, server_initial).
Proof.
  intros calls s.
  assert (Hinv : server_running s = server_handle s
                 /\ (server_running s = false -> routes s = [])
                 /\ (length (routes s) <= 15)%nat).
  { subst s.
    assert (H0 : server_running server_initial = server_handle server_initial
                 /\ (server_running server_initial = false -> routes server_initial = [])
                 /\ (length (routes server_initial) <= 15)%nat)
      by (cbn; repeat split; auto; lia).
    revert H0. generalize server_initial as s0.
    induction calls as [|c calls IH]; intros s0 H0; cbn [fold_left]; [exact H0|].
    apply IH. destruct H0 as (H1 & H2 & H3). now apply server_step_ok. }
  destruct Hinv as (Heq & Hr & Hl). unfold http_server_is_running.
  split; [exact Heq|]. split; [exact Hr|]. split; [unfold max_uri_handlers; lia|].
  unfold http_server_stop. rewrite <- Heq.
  destruct (server_running s) eqn:Hrun; cbn [negb orb]; [reflexivity|].
  f_equal. destruct s as [run h rs]. cbn in *. subst run h. now rewrite Hr.
Qed.

(** ** WiFi events *)

Lemma wifi_handler_keeps (s : wifi_state) (e : wifi_event) :
  0 <= s_retry_num s <= WIFI_MAXIMUM_RETRY ->
  (s_wifi_connected s = true -> WIFI_CONNECTED_BIT s = true /\ s_retry_num s = 0) ->
  let s' := wifi_event_handler s e in
  0 <= s_retry_num s' <= WIFI_MAXIMUM_RETRY
  /\ (s_wifi_connected s' = true -> WIFI_CONNECTED_BIT s' = true /\ s_retry_num s' = 0).
Proof.
  unfold WIFI_MAXIMUM_RETRY. intros Hr Hc. destruct e; cbv zeta; cbn [wifi_event_handler].
  - cbn. split; [exact Hr | exact Hc].
  - unfold WIFI_MAXIMUM_RETRY.
    destruct (Z.ltb_spec (s_retry_num s) 5); cbn; (split; [lia | easy]).
  - cbn. split; [lia | auto].
  - split; [exact Hr | exact Hc].
Qed.

(** X24.  The retry counter stays within its limit.  From the start of
    the program, through any sequence of WiFi and IP events,
    [s_retry_num] stays between 0 and [WIFI_MAXIMUM_RETRY], and whenever
    [s_wifi_connected] is true the connected bit is set and the counter
    is back at 0. *)
Theorem wifi_retry_counter_stays_within_limit :
  forall (events : list wifi_event),
    let s := wifi_run wifi_initial events in
    0 <= s_retry_num s <= WIFI_MAXIMUM_RETRY
    /\ (s_wifi_connected s = true -> WIFI_CONNECTED_BIT s = true /\ s_retry_num s = 0).
Proof.
  intros events.
  assert (H0 : 0 <= s_retry_num wifi_initial <= WIFI_MAXIMUM_RETRY
               /\ (s_wifi_connected wifi_initial = true ->
                   WIFI_CONNECTED_BIT wifi_initial = true
                   /\ s_retry_num wifi_initial = 0)).
  { unfold WIFI_MAXIMUM_RETRY. cbn. split; [lia | easy]. }
  revert H0. unfold wifi_run. generalize wifi_initial as s0.
  induction events as [|e events IH]; intros s0 H0; cbn [fold_left]; [exact H0|].
  apply IH. destruct H0 as [H1 H2]. now apply wifi_handler_keeps.
Qed.

Lemma disconnects_step (s : wifi_state) (n : nat) :
  wifi_run s (repeat WIFI_EVENT_STA_DISCONNECTED (S n))
  = wifi_run (wifi_event_handler s WIFI_EVENT_STA_DISCONNECTED)
             (repeat WIFI_EVENT_STA_DISCONNECTED n).
Proof. reflexivity. Qed.

(** X25.  After five retries the handler gives up.  During [n]
    disconnections in a row, starting with [r] retries used,
    [esp_wifi_connect] is called for the first [WIFI_MAXIMUM_RETRY - r]
    of them and for no later one; the counter ends at the smaller of
    [r + n] and the limit, the fail bit is set as soon as a
    disconnection finds the counter at the limit, and
    [s_wifi_connected] is false after the first one. *)
Theorem wifi_gives_up_after_max_retries :
  forall (s : wifi_state) (n : nat),
    0 <= s_retry_num s <= WIFI_MAXIMUM_RETRY ->
    let s' := wifi_run s (repeat WIFI_EVENT_STA_DISCONNECTED n) in
    connect_calls s'
    = connect_calls s + Z.min (Z.of_nat n) (WIFI_MAXIMUM_RETRY - s_retry_num s)
    /\ s_retry_num s' = Z.min (s_retry_num s + Z.of_nat n) WIFI_MAXIMUM_RETRY
    /\ WIFI_FAIL_BIT s'
       = WIFI_FAIL_BIT s || (WIFI_MAXIMUM_RETRY - s_retry_num s <? Z.of_nat n)
    /\ WIFI_CONNECTED_BIT s' = WIFI_CONNECTED_BIT s
    /\ (0 < Z.of_nat n -> s_wifi_connected s' = false).
Proof.
  unfold WIFI_MAXIMUM_RETRY. intros s n. revert s.
  induction n as [|n IH]; intros s Hr; cbv zeta.
  - change (wifi_run s (repeat WIFI_EVENT_STA_DISCONNECTED 0)) with s.
    change (Z.of_nat 0) with 0.
    destruct (Z.ltb_spec (5 - s_retry_num s) 0); [lia|].
    rewrite orb_false_r. repeat split; lia.
  - rewrite disconnects_step, Nat2Z.inj_succ.
    set (s1 := wifi_event_handler s WIFI_EVENT_STA_DISCONNECTED).
    assert (H1 : 0 <= s_retry_num s1 <= 5
                 /\ s_wifi_connected s1 = false
                 /\ WIFI_CONNECTED_BIT s1 = WIFI_CONNECTED_BIT s
                 /\ ((s_retry_num s < 5 /\ s_retry_num s1 = s_retry_num s + 1
                      /\ connect_calls s1 = connect_calls s + 1
                      /\ WIFI_FAIL_BIT s1 = WIFI_FAIL_BIT s)
                     \/ (s_retry_num s = 5 /\ s_retry_num s1 = 5
                         /\ connect_calls s1 = connect_calls s
                         /\ WIFI_FAIL_BIT s1 = true))).
    { subst s1. cbn [wifi_event_handler]. unfold WIFI_MAXIMUM_RETRY.
      destruct (Z.ltb_spec (s_retry_num s) 5); cbn;
        (split; [lia|]); (split; [reflexivity|]); (split; [reflexivity|]);
        [left | right]; repeat split; auto; lia. }
    clearbody s1. destruct H1 as (Hr1 & Hc1 & Hb1 & Hcase).
    assert (Hw : s_wifi_connected (wifi_run s1 (repeat WIFI_EVENT_STA_DISCONNECTED n))
                 = false).
    { destruct n as [|m]; [exact Hc1|].
      destruct (IH s1 Hr1) as (_ & _ & _ & _ & H). apply H. lia. }
    destruct (IH s1 Hr1) as (IHc & IHr & IHf & IHb & _). cbv zeta in *.
    set (s' := wifi_run s1 (repeat WIFI_EVENT_STA_DISCONNECTED n)) in *. clearbody s'.
    rewrite IHc, IHr, IHf, IHb.
    destruct Hcase as [(Hlt & Hn1 & Hcc & Hfb)|(Heq & Hn1 & Hcc & Hfb)];
      rewrite Hn1, Hcc, Hfb.
    + split; [lia|]. split; [lia|]. split; [|auto].
      f_equal.
      destruct (Z.ltb_spec (5 - (s_retry_num s + 1)) (Z.of_nat n)),
               (Z.ltb_spec (5 - s_retry_num s) (Z.succ (Z.of_nat n)));
        try reflexivity; lia.
    + split; [lia|]. split; [lia|]. split; [|auto].
      destruct (Z.ltb_spec (5 - s_retry_num s) (Z.succ (Z.of_nat n))); [|lia].
      now rewrite orb_true_r.
Qed.

Lemma wifi_gives_up_after_max_retries_witness :
  let s' := wifi_run wifi_initial (repeat WIFI_EVENT_STA_DISCONNECTED 8) in
  connect_calls s'
  = connect_calls wifi_initial
    + Z.min (Z.of_nat 8) (WIFI_MAXIMUM_RETRY - s_retry_num wifi_initial)
  /\ s_retry_num s' = Z.min (s_retry_num wifi_initial + Z.of_nat 8) WIFI_MAXIMUM_RETRY
  /\ WIFI_FAIL_BIT s'
     = WIFI_FAIL_BIT wifi_initial
       || (WIFI_MAXIMUM_RETRY - s_retry_num wifi_initial <? Z.of_nat 8)
  /\ WIFI_CONNECTED_BIT s' = WIFI_CONNECTED_BIT wifi_initial
  /\ (0 < Z.of_nat 8 -> s_wifi_connected s' = false).
Proof.
  apply (wifi_gives_up_after_max_retries wifi_initial 8).
  vm_compute. split; discriminate.
Defined.

Lemma wifi_bits_step (s : wifi_state) (e : wifi_event) :
  (WIFI_CONNECTED_BIT s = true -> WIFI_CONNECTED_BIT (wifi_event_handler s e) = true)
  /\ (WIFI_FAIL_BIT s = true -> WIFI_FAIL_BIT (wifi_event_handler s e) = true).
Proof.
  destruct e; cbn; auto.
  destruct (s_retry_num s <? WIFI_MAXIMUM_RETRY); cbn; auto.
Qed.

(** X26.  The event bits are never cleared.  Once the handler has set
    the connected bit or the fail bit, no later event clears it: after a
    connection that was lost again the connected bit still stands, with
    [s_wifi_connected] false, and both bits can stand together. *)
Theorem wifi_event_bits_are_never_cleared :
  forall (s : wifi_state) (events : list wifi_event),
    (WIFI_CONNECTED_BIT s = true -> WIFI_CONNECTED_BIT (wifi_run s events) = true)
    /\ (WIFI_FAIL_BIT s = true -> WIFI_FAIL_BIT (wifi_run s events) = true)
    /\ (let lost := wifi_run s ([IP_EVENT_STA_GOT_IP]
                                ++ repeat WIFI_EVENT_STA_DISCONNECTED 6 ++ events) in
        WIFI_CONNECTED_BIT lost = true /\ WIFI_FAIL_BIT lost = true).
Proof.
  assert (Hgen : forall events s,
             (WIFI_CONNECTED_BIT s = true -> WIFI_CONNECTED_BIT (wifi_run s events) = true)
             /\ (WIFI_FAIL_BIT s = true -> WIFI_FAIL_BIT (wifi_run s events) = true)).
  { unfold wifi_run. induction events as [|e events IH]; intros s; cbn [fold_left];
      [auto|].
    destruct (wifi_bits_step s e) as [H1 H2].
    destruct (IH (wifi_event_handler s e)) as [H3 H4]. auto. }
  intros s events. destruct (Hgen events s) as [H1 H2].
  split; [exact H1|]. split; [exact H2|]. cbv zeta.
  unfold wifi_run. rewrite fold_left_app, fold_left_app. fold (wifi_run s [IP_EVENT_STA_GOT_IP]).
  match goal with
  | |- context [fold_left wifi_event_handler events ?s6] =>
      destruct (Hgen events s6) as [H3 H4]
  end.
  split; [apply H3 | apply H4]; reflexivity.
Qed.
